(** * oauth2example: PKCE, ID-token claims and the local callback server

    A shallow embedding of the Go packages [auth] (pkce.go, token.go) and
    [server] (callback.go) of korjavin/oauth2example, followed by the
    properties established about them.

    Conventions.
    - A Go [string] is a Rocq [string] (a sequence of 8-bit characters); a
      Go [[]byte] is a [list byte]; [[]byte(s)] is [list_byte_of_string].
    - [int64] values are [Z]; the functions below only compare them, so no
      wrap-around arises.
    - A Go [error] is either its message (package [server], where the
      message is all the caller ever sees) or a constructor of an inductive
      type, one constructor per [fmt.Errorf] site (package [auth]).
    - What the repository calls of the Go standard library and runtime
      ([strings], [encoding/base64], [crypto/sha256], [encoding/json],
      buffered channels) is modelled in modules of its own; [sync.Once],
      [sync.WaitGroup] and [http.Server] appear as fields of the state of
      the callback server. *)

From Stdlib Require Import NArith ZArith Lia List Ascii String.
From Stdlib Require Import Strings.Byte.
From stdpp Require Import base option list strings pretty gmap.

Local Open Scope string_scope.

(** The conversion [byte(n)] of an unsigned integer: its low eight bits. *)
Definition byte_of_N (n : N) : byte :=
  match Byte.of_N (n mod 256) with
  | Some b => b
  | None => x00
  end.

(** ** Package [strings] *)

Module Strings.

(** [strings.ReplaceAll(s, old, new)] for a one-byte [old], which is how
    every call in the repository uses it: each occurrence of the byte
    [old] becomes [new]. *)
Fixpoint ReplaceAll (s : string) (old : ascii) (new : string) : string :=
  match s with
  | EmptyString => EmptyString
  | String c rest =>
      if Ascii.eqb c old
      then new +:+ ReplaceAll rest old new
      else String c (ReplaceAll rest old new)
  end.

(** [strings.Split(s, sep)] for a one-byte [sep]: the pieces between the
    occurrences of [sep]; a string with n separators has n+1 pieces. *)
Fixpoint Split (s : string) (sep : ascii) : list string :=
  match s with
  | EmptyString => [EmptyString]
  | String c rest =>
      if Ascii.eqb c sep
      then EmptyString :: Split rest sep
      else match Split rest sep with
           | piece :: pieces => String c piece :: pieces
           | [] => [String c EmptyString]
           end
  end.

(** [strings.Join(elems, sep)] for a one-byte [sep]. *)
Fixpoint Join (elems : list string) (sep : ascii) : string :=
  match elems with
  | [] => EmptyString
  | [e] => e
  | e :: rest => e +:+ String sep (Join rest sep)
  end.

(** [strings.ToLower] and [strings.ToUpper] on strings of ASCII characters,
    where they change the letters A-Z and a-z and nothing else.  Bytes
    above 127 are left as they are, which is not what Go does with the
    letters of other alphabets. *)
Definition lower (c : ascii) : ascii :=
  let n := N_of_ascii c in
  if ((65 <=? n) && (n <=? 90))%N then ascii_of_N (n + 32) else c.

Definition upper (c : ascii) : ascii :=
  let n := N_of_ascii c in
  if ((97 <=? n) && (n <=? 122))%N then ascii_of_N (n - 32) else c.

Fixpoint ToLower (s : string) : string :=
  match s with
  | EmptyString => EmptyString
  | String c rest => String (lower c) (ToLower rest)
  end.

Fixpoint ToUpper (s : string) : string :=
  match s with
  | EmptyString => EmptyString
  | String c rest => String (upper c) (ToUpper rest)
  end.

(** [strings.Repeat(s, count)] for a count that is not negative. *)
Fixpoint Repeat (s : string) (count : nat) : string :=
  match count with
  | O => EmptyString
  | S n => s +:+ Repeat s n
  end.

End Strings.

(** ** Package [encoding/base64], [StdEncoding] *)

Module Base64.

Definition encodeStd : string :=
  "ABCDEFGHIJKLMNOPQRSTUVWXYZabcdefghijklmnopqrstuvwxyz0123456789+/".

Definition padChar : ascii := "="%char.

(** [enc.encode[i]] *)
Definition encode (i : N) : ascii :=
  match String.get (N.to_nat i) encodeStd with
  | Some c => c
  | None => Ascii.zero
  end.

Definition uint (b : byte) : N := Byte.to_N b.

(** [Encoding.EncodeToString]: whole groups of three bytes give four
    characters; one or two remaining bytes give two or three characters
    and padding up to four. *)
Fixpoint EncodeToString (src : list byte) : string :=
  match src with
  | [] => EmptyString
  | [b0] =>
      let val := N.shiftl (uint b0) 16 in
      String (encode (N.land (N.shiftr val 18) 63))
        (String (encode (N.land (N.shiftr val 12) 63))
           (String padChar (String padChar EmptyString)))
  | [b0; b1] =>
      let val := N.lor (N.shiftl (uint b0) 16) (N.shiftl (uint b1) 8) in
      String (encode (N.land (N.shiftr val 18) 63))
        (String (encode (N.land (N.shiftr val 12) 63))
           (String (encode (N.land (N.shiftr val 6) 63))
              (String padChar EmptyString)))
  | b0 :: b1 :: b2 :: rest =>
      let val := N.lor (N.lor (N.shiftl (uint b0) 16) (N.shiftl (uint b1) 8))
                       (uint b2) in
      String (encode (N.land (N.shiftr val 18) 63))
        (String (encode (N.land (N.shiftr val 12) 63))
           (String (encode (N.land (N.shiftr val 6) 63))
              (String (encode (N.land val 63))
                 (EncodeToString rest))))
  end.

(** [enc.decodeMap[c]]: the position of [c] in the alphabet, if any. *)
Fixpoint index_from (i : N) (c : ascii) (alphabet : string) : option N :=
  match alphabet with
  | EmptyString => None
  | String a rest =>
      if Ascii.eqb a c then Some i else index_from (N.succ i) c rest
  end.

Definition decodeMap (c : ascii) : option N := index_from 0 c encodeStd.

(** [CorruptInputError]; the byte offset it carries is not modelled. *)
Inductive error := CorruptInputError.

(** The decoding loop on the input without its line breaks, four
    characters at a time.  Padding is mandatory and only the last group
    may carry it; anything after a padded group is an error, and so is a
    group of fewer than four characters. *)
Fixpoint decodeQuanta (src : list ascii) : list byte + error :=
  match src with
  | [] => inl []
  | c0 :: c1 :: c2 :: c3 :: rest =>
      match decodeMap c0, decodeMap c1 with
      | Some v0, Some v1 =>
          match decodeMap c2, decodeMap c3 with
          | Some v2, Some v3 =>
              let val := N.lor (N.lor (N.lor (N.shiftl v0 18) (N.shiftl v1 12))
                                      (N.shiftl v2 6)) v3 in
              match decodeQuanta rest with
              | inl out =>
                  inl (byte_of_N (N.shiftr val 16) :: byte_of_N (N.shiftr val 8)
                       :: byte_of_N val :: out)
              | inr e => inr e
              end
          | Some v2, None =>
              let val := N.lor (N.lor (N.shiftl v0 18) (N.shiftl v1 12))
                               (N.shiftl v2 6) in
              if Ascii.eqb c3 padChar && bool_decide (rest = [])
              then inl [byte_of_N (N.shiftr val 16); byte_of_N (N.shiftr val 8)]
              else inr CorruptInputError
          | None, _ =>
              let val := N.lor (N.shiftl v0 18) (N.shiftl v1 12) in
              if Ascii.eqb c2 padChar && Ascii.eqb c3 padChar
                 && bool_decide (rest = [])
              then inl [byte_of_N (N.shiftr val 16)]
              else inr CorruptInputError
          end
      | _, _ => inr CorruptInputError
      end
  | _ => inr CorruptInputError
  end.

Definition is_newline (c : ascii) : bool :=
  Ascii.eqb c "010"%char || Ascii.eqb c "013"%char.

(** [Encoding.DecodeString]: carriage returns and line feeds are skipped
    wherever they stand. *)
Definition DecodeString (s : string) : list byte + error :=
  decodeQuanta
    (List.filter (fun c => negb (is_newline c)) (list_ascii_of_string s)).

(** [URLEncoding]: the same encoder over the URL-safe alphabet, with
    padding. *)
Definition encodeURL : string :=
  "ABCDEFGHIJKLMNOPQRSTUVWXYZabcdefghijklmnopqrstuvwxyz0123456789-_".

Definition encode_url (i : N) : ascii :=
  match String.get (N.to_nat i) encodeURL with
  | Some c => c
  | None => Ascii.zero
  end.

Fixpoint URLEncodeToString (src : list byte) : string :=
  match src with
  | [] => EmptyString
  | [b0] =>
      let val := N.shiftl (uint b0) 16 in
      String (encode_url (N.land (N.shiftr val 18) 63))
        (String (encode_url (N.land (N.shiftr val 12) 63))
           (String padChar (String padChar EmptyString)))
  | [b0; b1] =>
      let val := N.lor (N.shiftl (uint b0) 16) (N.shiftl (uint b1) 8) in
      String (encode_url (N.land (N.shiftr val 18) 63))
        (String (encode_url (N.land (N.shiftr val 12) 63))
           (String (encode_url (N.land (N.shiftr val 6) 63))
              (String padChar EmptyString)))
  | b0 :: b1 :: b2 :: rest =>
      let val := N.lor (N.lor (N.shiftl (uint b0) 16) (N.shiftl (uint b1) 8))
                       (uint b2) in
      String (encode_url (N.land (N.shiftr val 18) 63))
        (String (encode_url (N.land (N.shiftr val 12) 63))
           (String (encode_url (N.land (N.shiftr val 6) 63))
              (String (encode_url (N.land val 63))
                 (URLEncodeToString rest))))
  end.

End Base64.

(** ** Package [crypto/sha256] *)

Module Sha256.

Local Open Scope N_scope.

(** [uint32] arithmetic: every sum is reduced modulo 2^32. *)
Definition wrap32 (x : N) : N := x mod 4294967296.
Definition add32 (x y : N) : N := wrap32 (x + y).
Definition not32 (x : N) : N := N.lxor x 4294967295.

(** [bits.RotateLeft32(x, -k)], a rotation to the right by [k] bits. *)
Definition rotr (x k : N) : N :=
  N.lor (N.shiftr x k) (wrap32 (N.shiftl x (32 - k))).

Definition _K : list N :=
  [ 0x428A2F98; 0x71374491; 0xB5C0FBCF; 0xE9B5DBA5;
    0x3956C25B; 0x59F111F1; 0x923F82A4; 0xAB1C5ED5;
    0xD807AA98; 0x12835B01; 0x243185BE; 0x550C7DC3;
    0x72BE5D74; 0x80DEB1FE; 0x9BDC06A7; 0xC19BF174;
    0xE49B69C1; 0xEFBE4786; 0x0FC19DC6; 0x240CA1CC;
    0x2DE92C6F; 0x4A7484AA; 0x5CB0A9DC; 0x76F988DA;
    0x983E5152; 0xA831C66D; 0xB00327C8; 0xBF597FC7;
    0xC6E00BF3; 0xD5A79147; 0x06CA6351; 0x14292967;
    0x27B70A85; 0x2E1B2138; 0x4D2C6DFC; 0x53380D13;
    0x650A7354; 0x766A0ABB; 0x81C2C92E; 0x92722C85;
    0xA2BFE8A1; 0xA81A664B; 0xC24B8B70; 0xC76C51A3;
    0xD192E819; 0xD6990624; 0xF40E3585; 0x106AA070;
    0x19A4C116; 0x1E376C08; 0x2748774C; 0x34B0BCB5;
    0x391C0CB3; 0x4ED8AA4A; 0x5B9CCA4F; 0x682E6FF3;
    0x748F82EE; 0x78A5636F; 0x84C87814; 0x8CC70208;
    0x90BEFFFA; 0xA4506CEB; 0xBEF9A3F7; 0xC67178F2 ].

(** The eight chaining words [dig.h]. *)
Record state := State {
  h0 : N; h1 : N; h2 : N; h3 : N; h4 : N; h5 : N; h6 : N; h7 : N
}.

Definition init : state :=
  State 0x6A09E667 0xBB67AE85 0x3C6EF372 0xA54FF53A
        0x510E527F 0x9B05688C 0x1F83D9AB 0x5BE0CD19.

(** [w[i]] for i < 16: big-endian words of the 64-byte block. *)
Fixpoint words (p : list byte) : list N :=
  match p with
  | b0 :: b1 :: b2 :: b3 :: rest =>
      N.lor (N.lor (N.lor (N.shiftl (Byte.to_N b0) 24)
                          (N.shiftl (Byte.to_N b1) 16))
                   (N.shiftl (Byte.to_N b2) 8))
            (Byte.to_N b3)
      :: words rest
  | _ => []
  end.

(** [w[i]] for 16 <= i < 64.  The schedule is kept newest-first, so that
    w[i-2], w[i-7], w[i-15], w[i-16] sit at positions 1, 6, 14, 15. *)
Fixpoint extend (n : nat) (rw : list N) : list N :=
  match n with
  | O => rw
  | S n' =>
      let v1 := nth 1 rw 0 in
      let t1 := N.lxor (N.lxor (rotr v1 17) (rotr v1 19)) (N.shiftr v1 10) in
      let v2 := nth 14 rw 0 in
      let t2 := N.lxor (N.lxor (rotr v2 7) (rotr v2 18)) (N.shiftr v2 3) in
      extend n' (add32 (add32 (add32 t1 (nth 6 rw 0)) t2) (nth 15 rw 0) :: rw)
  end.

Definition schedule (p : list byte) : list N :=
  rev (extend 48 (rev (words p))).

(** One round of the compression loop on the working variables a..h. *)
Definition round (s : state) (k w : N) : state :=
  let '(State a b c d e f g h) := s in
  let t1 :=
    add32 (add32 (add32 (add32 h
      (N.lxor (N.lxor (rotr e 6) (rotr e 11)) (rotr e 25)))
      (N.lxor (N.land e f) (N.land (not32 e) g))) k) w in
  let t2 :=
    add32 (N.lxor (N.lxor (rotr a 2) (rotr a 13)) (rotr a 22))
          (N.lxor (N.lxor (N.land a b) (N.land a c)) (N.land b c)) in
  State (add32 t1 t2) a b c (add32 d t1) e f g.

Fixpoint rounds (s : state) (ks ws : list N) : state :=
  match ks, ws with
  | k :: ks', w :: ws' => rounds (round s k w) ks' ws'
  | _, _ => s
  end.

(** [blockGeneric] on a single 64-byte chunk. *)
Definition block1 (s : state) (p : list byte) : state :=
  let r := rounds s _K (schedule p) in
  State (add32 (h0 s) (h0 r)) (add32 (h1 s) (h1 r))
        (add32 (h2 s) (h2 r)) (add32 (h3 s) (h3 r))
        (add32 (h4 s) (h4 r)) (add32 (h5 s) (h5 r))
        (add32 (h6 s) (h6 r)) (add32 (h7 s) (h7 r)).

(** [for len(p) >= chunk { ...; p = p[chunk:] }]: consumes the whole
    64-byte chunks of [p] and returns the bytes left over.  [fuel] bounds
    the number of chunks; [length p] is always enough. *)
Fixpoint block (fuel : nat) (s : state) (p : list byte)
  : state * list byte :=
  match fuel with
  | O => (s, p)
  | S fuel' =>
      if (length p <? 64)%nat then (s, p)
      else block fuel' (block1 s (firstn 64 p)) (skipn 64 p)
  end.

(** The hash object: chaining words, the buffered partial chunk
    ([d.x[:d.nx]]) and the number of bytes written so far ([uint64]). *)
Record digest := Digest {
  h : state;
  x : list byte;
  len : N
}.

Definition New : digest := Digest init [] 0.

(** [d.Write(p)]: buffered bytes followed by [p] are hashed chunk by
    chunk; what does not fill a chunk stays buffered. *)
Definition Write (d : digest) (p : list byte) : digest :=
  let data := (x d ++ p)%list in
  let '(s, rest) := block (length data) (h d) data in
  Digest s rest ((len d + N.of_nat (length p)) mod 18446744073709551616).

(** [binary.BigEndian.PutUint32] and [PutUint64]. *)
Definition PutUint32 (v : N) : list byte :=
  [ byte_of_N (N.shiftr v 24); byte_of_N (N.shiftr v 16);
    byte_of_N (N.shiftr v 8); byte_of_N v ].

Definition PutUint64 (v : N) : list byte :=
  (PutUint32 (N.shiftr v 32) ++ PutUint32 v)%list.

(** [d.checkSum()]: a 0x80 byte, zeros up to 56 modulo 64, the bit length
    on eight bytes; then the eight chaining words, big-endian. *)
Definition checkSum (d : digest) : list byte :=
  let l := len d in
  let t := if l mod 64 <? 56 then 56 - l mod 64 else 64 + 56 - l mod 64 in
  let padlen :=
    (x80 :: repeat x00 (N.to_nat t - 1) ++
     PutUint64 ((l * 8) mod 18446744073709551616))%list in
  let s := h (Write d padlen) in
  (PutUint32 (h0 s) ++ PutUint32 (h1 s) ++ PutUint32 (h2 s) ++
   PutUint32 (h3 s) ++ PutUint32 (h4 s) ++ PutUint32 (h5 s) ++
   PutUint32 (h6 s) ++ PutUint32 (h7 s))%list.

(** [d.Sum(in)]: the checksum of a copy of [d], appended to [in]. *)
Definition Sum (d : digest) (b : list byte) : list byte :=
  (b ++ checkSum d)%list.

End Sha256.

(** ** pkce.go *)

Module PKCE.

Definition PKCECodeVerifier := string.
Definition PKCECodeChallenge := string.

(** What [rand.Read(b)] does to a buffer: the buffer afterwards and the
    error, if any.  The reader is the entropy source, an input of the
    model. *)
Definition Reader := list byte -> list byte * option string.

Inductive error :=
| ErrRandom (cause : string).   (* "failed to generate random bytes: %w" *)

Definition GenerateCodeVerifier (rand_Read : Reader)
  : PKCECodeVerifier + error :=
  let b := repeat x00 32 in
  let '(b, err) := rand_Read b in
  match err with
  | Some e => inr (ErrRandom e)
  | None =>
      let encoded := Base64.EncodeToString b in
      let encoded := Strings.ReplaceAll encoded "+" "-" in
      let encoded := Strings.ReplaceAll encoded "/" "_" in
      let encoded := Strings.ReplaceAll encoded "=" "" in
      inl encoded
  end.

Definition CreateCodeChallenge (v : PKCECodeVerifier) : PKCECodeChallenge :=
  let h := Sha256.New in
  let h := Sha256.Write h (list_byte_of_string v) in
  let hash := Sha256.Sum h [] in
  let encoded := Base64.EncodeToString hash in
  let encoded := Strings.ReplaceAll encoded "+" "-" in
  let encoded := Strings.ReplaceAll encoded "/" "_" in
  let encoded := Strings.ReplaceAll encoded "=" "" in
  encoded.

Definition VerifyCodeChallenge (verifier : PKCECodeVerifier)
    (challenge : PKCECodeChallenge) : bool :=
  String.eqb (CreateCodeChallenge verifier) challenge.

End PKCE.

(** ** Package [encoding/json], as far as [json.Unmarshal] into the claims
    struct goes

    [Unmarshal] first checks that the input is one well-formed JSON text,
    then stores the members of the top-level object into the fields whose
    JSON name matches.  The model parses the text into a [value] and then
    stores member by member.  Not modelled: the replacement of invalid
    UTF-8 inside string literals by U+FFFD, which changes the contents of
    such a string and neither the validity of the text nor the field that
    a member name matches. *)

Module JSON.

#[local] Unset Elimination Schemes.
Inductive value :=
| Null
| Bool (b : bool)
| Number (lit : string)
| Str (s : string)
| Array (elems : list value)
| Object (members : list (string * value)).
#[local] Set Elimination Schemes.

Definition dquote : ascii := "034"%char.

Definition is_space (c : ascii) : bool :=
  Ascii.eqb c " "%char || Ascii.eqb c "009"%char
  || Ascii.eqb c "010"%char || Ascii.eqb c "013"%char.

Fixpoint skip_ws (cs : list ascii) : list ascii :=
  match cs with
  | c :: rest => if is_space c then skip_ws rest else cs
  | [] => []
  end.

Definition is_digit (c : ascii) : bool :=
  (48 <=? N_of_ascii c)%N && (N_of_ascii c <=? 57)%N.

Definition hexval (c : ascii) : option N :=
  let n := N_of_ascii c in
  if (48 <=? n)%N && (n <=? 57)%N then Some (n - 48)%N
  else if (97 <=? n)%N && (n <=? 102)%N then Some (n - 87)%N
  else if (65 <=? n)%N && (n <=? 70)%N then Some (n - 55)%N
  else None.

(** [getu4]: the code unit written by four hexadecimal digits. *)
Definition hex4 (a b c d : ascii) : option N :=
  match hexval a, hexval b, hexval c, hexval d with
  | Some x3, Some x2, Some x1, Some x0 =>
      Some (x3 * 4096 + x2 * 256 + x1 * 16 + x0)%N
  | _, _, _, _ => None
  end.

(** [utf8.EncodeRune] *)
Definition utf8 (r : N) : list ascii :=
  if (r <? 0x80)%N then [ascii_of_N r]
  else if (r <? 0x800)%N then
    [ascii_of_N (0xC0 + r / 64); ascii_of_N (0x80 + r mod 64)]
  else if (r <? 0x10000)%N then
    [ascii_of_N (0xE0 + r / 4096); ascii_of_N (0x80 + (r / 64) mod 64);
     ascii_of_N (0x80 + r mod 64)]
  else
    [ascii_of_N (0xF0 + r / 262144); ascii_of_N (0x80 + (r / 4096) mod 64);
     ascii_of_N (0x80 + (r / 64) mod 64); ascii_of_N (0x80 + r mod 64)].

Definition replacementChar : N := 0xFFFD.

Definition unescape (e : ascii) : option ascii :=
  if Ascii.eqb e dquote then Some dquote
  else if Ascii.eqb e "\"%char then Some "\"%char
  else if Ascii.eqb e "/"%char then Some "/"%char
  else if Ascii.eqb e "b"%char then Some "008"%char
  else if Ascii.eqb e "f"%char then Some "012"%char
  else if Ascii.eqb e "n"%char then Some "010"%char
  else if Ascii.eqb e "r"%char then Some "013"%char
  else if Ascii.eqb e "t"%char then Some "009"%char
  else None.

(** The low half of a surrogate pair written as an escape right after
    the high half [hi], with the input after it. *)
Definition low_surrogate (hi : N) (cs : list ascii)
  : option (N * list ascii) :=
  match cs with
  | bs :: u :: a :: b :: c :: d :: rest =>
      if Ascii.eqb bs "\"%char && Ascii.eqb u "u"%char then
        match hex4 a b c d with
        | Some lo =>
            if (hi <? 0xDC00)%N && (0xDC00 <=? lo)%N && (lo <? 0xE000)%N
            then Some (((hi - 0xD800) * 1024 + (lo - 0xDC00) + 0x10000)%N, rest)
            else None
        | None => None
        end
      else None
  | _ => None
  end.

(** A string literal after its opening quote: its decoded contents and
    the input after the closing quote. *)
Fixpoint parse_string (cs : list ascii) : option (list ascii * list ascii) :=
  match cs with
  | [] => None
  | c :: r =>
      if Ascii.eqb c dquote then Some ([], r)
      else if Ascii.eqb c "\"%char then
        match r with
        | [] => None
        | e :: r1 =>
            if Ascii.eqb e "u"%char then
              match r1 with
              | a :: b :: c' :: d :: r2 =>
                  match hex4 a b c' d with
                  | None => None
                  | Some rr =>
                      if (0xD800 <=? rr)%N && (rr <? 0xE000)%N then
                        match r2 with
                        | bs :: u :: a1 :: b1 :: c1 :: d1 :: r3 =>
                            match low_surrogate rr r2 with
                            | Some (dec, _) =>
                                match parse_string r3 with
                                | Some (s, out) => Some ((utf8 dec ++ s)%list, out)
                                | None => None
                                end
                            | None =>
                                match parse_string r2 with
                                | Some (s, out) =>
                                    Some ((utf8 replacementChar ++ s)%list, out)
                                | None => None
                                end
                            end
                        | _ =>
                            match parse_string r2 with
                            | Some (s, out) =>
                                Some ((utf8 replacementChar ++ s)%list, out)
                            | None => None
                            end
                        end
                      else
                        match parse_string r2 with
                        | Some (s, out) => Some ((utf8 rr ++ s)%list, out)
                        | None => None
                        end
                  end
              | _ => None
              end
            else
              match unescape e, parse_string r1 with
              | Some ch, Some (s, out) => Some (ch :: s, out)
              | _, _ => None
              end
        end
      else if (N_of_ascii c <? 32)%N then None
      else
        match parse_string r with
        | Some (s, out) => Some (c :: s, out)
        | None => None
        end
  end.

Fixpoint span_digits (cs : list ascii) : list ascii * list ascii :=
  match cs with
  | c :: r =>
      if is_digit c
      then let '(ds, out) := span_digits r in (c :: ds, out)
      else ([], cs)
  | [] => ([], [])
  end.

(** A number literal: an optional minus sign; a zero, or a non-zero digit
    and more digits; optionally a point and digits; optionally an exponent
    mark, a sign and digits. *)
Definition parse_number (cs : list ascii) : option (list ascii * list ascii) :=
  let '(sign, r0) :=
    match cs with
    | c :: r => if Ascii.eqb c "-"%char then ([c], r) else ([], cs)
    | [] => ([], cs)
    end in
  let '(int, r1) := span_digits r0 in
  match int with
  | [] => None
  | d :: ds =>
      if Ascii.eqb d "0"%char && negb (bool_decide (ds = [])) then
        (* a leading zero ends the integer part *)
        Some ((sign ++ [d])%list, (ds ++ r1)%list)
      else
        let '(fs, r2) :=
          match r1 with
          | c :: r =>
              if Ascii.eqb c "."%char
              then let '(fs, out) := span_digits r in (c :: fs, out)
              else ([], r1)
          | [] => ([], r1)
          end in
        match fs with
        | [_] => None   (* a point without digits *)
        | _ =>
            match r2 with
            | e :: r3 =>
                if Ascii.eqb e "e"%char || Ascii.eqb e "E"%char then
                  let '(esign, r4) :=
                    match r3 with
                    | c :: r =>
                        if Ascii.eqb c "+"%char || Ascii.eqb c "-"%char
                        then ([c], r) else ([], r3)
                    | [] => ([], r3)
                    end in
                  let '(es, r5) := span_digits r4 in
                  match es with
                  | [] => None
                  | _ => Some ((sign ++ int ++ fs ++ [e] ++ esign ++ es)%list, r5)
                  end
                else Some ((sign ++ int ++ fs)%list, r2)
            | [] => Some ((sign ++ int ++ fs)%list, r2)
            end
        end
  end.

Fixpoint expect (word : list ascii) (cs : list ascii) : option (list ascii) :=
  match word, cs with
  | [], _ => Some cs
  | w :: word', c :: cs' => if Ascii.eqb w c then expect word' cs' else None
  | _ :: _, [] => None
  end.

(** [maxNestingDepth]: the scanner refuses an object or array that opens
    inside this many others. *)
Definition maxNestingDepth : N := 10000.

(** The recursive-descent reading of one value; [depth] counts the
    objects and arrays that are open around it.  Every call consumes at
    least one character before it recurses, so fuel above the length of
    the input is never exhausted. *)
Fixpoint parse_value (fuel : nat) (depth : N) (cs : list ascii)
  : option (value * list ascii) :=
  match fuel with
  | O => None
  | S fuel' =>
      match skip_ws cs with
      | [] => None
      | c :: r =>
          if Ascii.eqb c "{"%char then
            if (maxNestingDepth <=? depth)%N then None
            else
              match skip_ws r with
              | c' :: r' =>
                  if Ascii.eqb c' "}"%char then Some (Object [], r')
                  else
                    match parse_members fuel' (depth + 1)%N r with
                    | Some (ms, out) => Some (Object ms, out)
                    | None => None
                    end
              | [] => None
              end
          else if Ascii.eqb c "["%char then
            if (maxNestingDepth <=? depth)%N then None
            else
              match skip_ws r with
              | c' :: r' =>
                  if Ascii.eqb c' "]"%char then Some (Array [], r')
                  else
                    match parse_elements fuel' (depth + 1)%N r with
                    | Some (vs, out) => Some (Array vs, out)
                    | None => None
                    end
              | [] => None
              end
          else if Ascii.eqb c dquote then
            match parse_string r with
            | Some (s, out) => Some (Str (string_of_list_ascii s), out)
            | None => None
            end
          else if Ascii.eqb c "t"%char then
            match expect (list_ascii_of_string "rue") r with
            | Some out => Some (Bool true, out)
            | None => None
            end
          else if Ascii.eqb c "f"%char then
            match expect (list_ascii_of_string "alse") r with
            | Some out => Some (Bool false, out)
            | None => None
            end
          else if Ascii.eqb c "n"%char then
            match expect (list_ascii_of_string "ull") r with
            | Some out => Some (Null, out)
            | None => None
            end
          else
            match parse_number (c :: r) with
            | Some (lit, out) => Some (Number (string_of_list_ascii lit), out)
            | None => None
            end
      end
  end
with parse_members (fuel : nat) (depth : N) (cs : list ascii)
  : option (list (string * value) * list ascii) :=
  match fuel with
  | O => None
  | S fuel' =>
      match skip_ws cs with
      | q :: r =>
          if Ascii.eqb q dquote then
            match parse_string r with
            | Some (k, r1) =>
                match skip_ws r1 with
                | colon :: r2 =>
                    if Ascii.eqb colon ":"%char then
                      match parse_value fuel' depth r2 with
                      | Some (v, r3) =>
                          match skip_ws r3 with
                          | d :: r4 =>
                              if Ascii.eqb d ","%char then
                                match parse_members fuel' depth r4 with
                                | Some (ms, out) =>
                                    Some ((string_of_list_ascii k, v) :: ms, out)
                                | None => None
                                end
                              else if Ascii.eqb d "}"%char then
                                Some ([(string_of_list_ascii k, v)], r4)
                              else None
                          | [] => None
                          end
                      | None => None
                      end
                    else None
                | [] => None
                end
            | None => None
            end
          else None
      | [] => None
      end
  end
with parse_elements (fuel : nat) (depth : N) (cs : list ascii)
  : option (list value * list ascii) :=
  match fuel with
  | O => None
  | S fuel' =>
      match parse_value fuel' depth cs with
      | Some (v, r1) =>
          match skip_ws r1 with
          | d :: r2 =>
              if Ascii.eqb d ","%char then
                match parse_elements fuel' depth r2 with
                | Some (vs, out) => Some (v :: vs, out)
                | None => None
                end
              else if Ascii.eqb d "]"%char then Some ([v], r2)
              else None
          | [] => None
          end
      | None => None
      end
  end.

(** [checkValid] and the scan: exactly one value, then only white space. *)
Definition parse (data : list byte) : option value :=
  let cs := map ascii_of_byte data in
  match parse_value (S (length cs)) 0 cs with
  | Some (v, rest) =>
      match skip_ws rest with
      | [] => Some v
      | _ :: _ => None
      end
  | None => None
  end.

(** [strconv.ParseInt(lit, 10, 64)] on a JSON number literal: digits
    only, within the range of [int64]. *)
Fixpoint digits_value (acc : Z) (cs : list ascii) : option Z :=
  match cs with
  | [] => Some acc
  | c :: r =>
      if is_digit c
      then digits_value (acc * 10 + Z.of_N (N_of_ascii c - 48)) r
      else None
  end.

Definition ParseInt64 (lit : string) : option Z :=
  let cs := list_ascii_of_string lit in
  let '(neg, ds) :=
    match cs with
    | c :: r => if Ascii.eqb c "-"%char then (true, r) else (false, cs)
    | [] => (false, cs)
    end in
  match ds with
  | [] => None
  | _ =>
      match digits_value 0 ds with
      | Some n =>
          let z := if neg then (- n)%Z else n in
          if ((-9223372036854775808 <=? z) && (z <=? 9223372036854775807))%Z
          then Some z else None
      | None => None
      end
  end.

(** Case folding, for matching member names to field names.  The decoder
    compares the names under Unicode simple folding.  Two characters
    outside ASCII fold to ASCII letters: the long s, U+017F, whose UTF-8
    bytes are C5 BF, folds with S and s, and the Kelvin sign, U+212A,
    whose bytes are E2 84 AA, folds with K and k.  No other character
    outside ASCII folds to an ASCII one, so this folding decides the match
    whenever one of the two names is ASCII, as every json tag of this
    program is; the letters of other alphabets are left as they are. *)
Definition to_lower (c : ascii) : ascii :=
  let n := N_of_ascii c in
  if (65 <=? n)%N && (n <=? 90)%N then ascii_of_N (n + 32) else c.

Fixpoint fold_chars (cs : list ascii) : list ascii :=
  match cs with
  | [] => []
  | c :: rest =>
      let folded := to_lower c :: fold_chars rest in
      match rest with
      | c1 :: rest1 =>
          if Ascii.eqb c "197"%char && Ascii.eqb c1 "191"%char
          then "s"%char :: fold_chars rest1
          else
            match rest1 with
            | c2 :: rest2 =>
                if Ascii.eqb c "226"%char && Ascii.eqb c1 "132"%char
                   && Ascii.eqb c2 "170"%char
                then "k"%char :: fold_chars rest2
                else folded
            | [] => folded
            end
      | [] => folded
      end
  end.

Definition fold_string (s : string) : string :=
  string_of_list_ascii (fold_chars (list_ascii_of_string s)).

Definition EqualFold (a b : string) : bool :=
  String.eqb (fold_string a) (fold_string b).

End JSON.

(** ** token.go

    The calls to the [logger] package only print; they are left out. *)

Module Token.

Record IDTokenClaims := {
  (* Standard claims *)
  Issuer : string;          (* json:"iss" *)
  Subject : string;         (* json:"sub" *)
  Audience : string;        (* json:"aud" *)
  Expiration : Z;           (* json:"exp", int64 *)
  IssuedAt : Z;             (* json:"iat", int64 *)
  (* OpenID Connect claims *)
  Name : string;            (* json:"name,omitempty" *)
  Email : string;           (* json:"email,omitempty" *)
  EmailVerified : bool;     (* json:"email_verified,omitempty" *)
  Picture : string;         (* json:"picture,omitempty" *)
  GivenName : string;       (* json:"given_name,omitempty" *)
  FamilyName : string;      (* json:"family_name,omitempty" *)
  Locale : string;          (* json:"locale,omitempty" *)
  (* Raw token parts *)
  rawHeader : string;
  rawPayload : string;
  rawSignature : string
}.

(** [var claims IDTokenClaims] *)
Definition zero : IDTokenClaims :=
  Build_IDTokenClaims "" "" "" 0 0 "" "" false "" "" "" "" "" "" "".

(** The exported fields, which are the ones [encoding/json] sees. *)
Inductive field :=
| FIssuer | FSubject | FAudience | FExpiration | FIssuedAt
| FName | FEmail | FEmailVerified | FPicture | FGivenName | FFamilyName
| FLocale.

Definition fields : list field :=
  [ FIssuer; FSubject; FAudience; FExpiration; FIssuedAt; FName; FEmail;
    FEmailVerified; FPicture; FGivenName; FFamilyName; FLocale ].

Definition json_name (f : field) : string :=
  match f with
  | FIssuer => "iss" | FSubject => "sub" | FAudience => "aud"
  | FExpiration => "exp" | FIssuedAt => "iat"
  | FName => "name" | FEmail => "email"
  | FEmailVerified => "email_verified" | FPicture => "picture"
  | FGivenName => "given_name" | FFamilyName => "family_name"
  | FLocale => "locale"
  end.

Inductive json_error :=
| SyntaxError
| UnmarshalTypeError (f : option field).

Definition set_string (f : field) (v : string) (c : IDTokenClaims)
  : IDTokenClaims :=
  let '(Build_IDTokenClaims iss sub aud exp iat name email ev pic gn fn loc
                             rh rp rs) := c in
  match f with
  | FIssuer => Build_IDTokenClaims v sub aud exp iat name email ev pic gn fn loc rh rp rs
  | FSubject => Build_IDTokenClaims iss v aud exp iat name email ev pic gn fn loc rh rp rs
  | FAudience => Build_IDTokenClaims iss sub v exp iat name email ev pic gn fn loc rh rp rs
  | FName => Build_IDTokenClaims iss sub aud exp iat v email ev pic gn fn loc rh rp rs
  | FEmail => Build_IDTokenClaims iss sub aud exp iat name v ev pic gn fn loc rh rp rs
  | FPicture => Build_IDTokenClaims iss sub aud exp iat name email ev v gn fn loc rh rp rs
  | FGivenName => Build_IDTokenClaims iss sub aud exp iat name email ev pic v fn loc rh rp rs
  | FFamilyName => Build_IDTokenClaims iss sub aud exp iat name email ev pic gn v loc rh rp rs
  | FLocale => Build_IDTokenClaims iss sub aud exp iat name email ev pic gn fn v rh rp rs
  | FExpiration | FIssuedAt | FEmailVerified => c
  end.

Definition set_int64 (f : field) (v : Z) (c : IDTokenClaims)
  : IDTokenClaims :=
  let '(Build_IDTokenClaims iss sub aud exp iat name email ev pic gn fn loc
                             rh rp rs) := c in
  match f with
  | FExpiration => Build_IDTokenClaims iss sub aud v iat name email ev pic gn fn loc rh rp rs
  | FIssuedAt => Build_IDTokenClaims iss sub aud exp v name email ev pic gn fn loc rh rp rs
  | _ => c
  end.

Definition set_bool (f : field) (v : bool) (c : IDTokenClaims)
  : IDTokenClaims :=
  let '(Build_IDTokenClaims iss sub aud exp iat name email ev pic gn fn loc
                             rh rp rs) := c in
  match f with
  | FEmailVerified => Build_IDTokenClaims iss sub aud exp iat name email v pic gn fn loc rh rp rs
  | _ => c
  end.

(** Storing one JSON value into one field, by the Go type of the field.
    [null] leaves a field as it is; a value of the wrong JSON type, or a
    number that is not an [int64], is an [UnmarshalTypeError]. *)
Definition store (f : field) (v : JSON.value) (c : IDTokenClaims)
  : IDTokenClaims + json_error :=
  match v with
  | JSON.Null => inl c
  | _ =>
      match f with
      | FExpiration | FIssuedAt =>
          match v with
          | JSON.Number lit =>
              match JSON.ParseInt64 lit with
              | Some z => inl (set_int64 f z c)
              | None => inr (UnmarshalTypeError (Some f))
              end
          | _ => inr (UnmarshalTypeError (Some f))
          end
      | FEmailVerified =>
          match v with
          | JSON.Bool b => inl (set_bool f b c)
          | _ => inr (UnmarshalTypeError (Some f))
          end
      | _ =>
          match v with
          | JSON.Str s => inl (set_string f s c)
          | _ => inr (UnmarshalTypeError (Some f))
          end
      end
  end.

(** The members of the object in the order of the text.  A name that
    matches no field is skipped; the first error is kept while the rest
    of the object is still read ([d.saveError]). *)
Fixpoint store_members (ms : list (string * JSON.value))
    (c : IDTokenClaims) (saved : option json_error)
  : IDTokenClaims * option json_error :=
  match ms with
  | [] => (c, saved)
  | (k, v) :: rest =>
      match List.find (fun f => JSON.EqualFold k (json_name f)) fields with
      | None => store_members rest c saved
      | Some f =>
          match store f v c with
          | inl c' => store_members rest c' saved
          | inr e =>
              store_members rest c
                (match saved with Some _ => saved | None => Some e end)
          end
      end
  end.

(** [json.Unmarshal(payload, &claims)] *)
Definition Unmarshal (data : list byte) (c : IDTokenClaims)
  : IDTokenClaims + json_error :=
  match JSON.parse data with
  | None => inr SyntaxError
  | Some JSON.Null => inl c
  | Some (JSON.Object ms) =>
      match store_members ms c None with
      | (c', None) => inl c'
      | (_, Some e) => inr e
      end
  | Some _ => inr (UnmarshalTypeError None)
  end.

Inductive decode_error :=
| ErrInvalidLength            (* "invalid base64url string length" *)
| ErrBase64 (e : Base64.error).

Inductive error :=
| ErrFormat (parts : nat)
    (* "invalid ID token format: expected 3 parts, got %d" *)
| ErrDecodePayload (e : decode_error)
    (* "failed to decode token payload: %w" *)
| ErrParseClaims (e : json_error)
    (* "failed to parse token claims: %w" *)
| ErrExpired (exp now : Z)
    (* "ID token is expired (exp: %d, now: %d)" *)
| ErrIssuedInFuture (iat now : Z)
    (* "ID token was issued in the future (iat: %d, now: %d)" *)
| ErrAudience.
    (* "ID token audience does not match expected audience" *)

(** The padding that the [switch len(s) % 4] adds, or [None] in its
    [default] case. *)
Definition with_padding (s : string) : option string :=
  match (String.length s mod 4)%nat with
  | 0%nat => Some s
  | 2%nat => Some (s +:+ "==")
  | 3%nat => Some (s +:+ "=")
  | _ => None
  end.

Definition base64URLDecode (s : string) : list byte + decode_error :=
  match with_padding s with
  | None => inr ErrInvalidLength
  | Some s =>
      let s := Strings.ReplaceAll s "-" "+" in
      let s := Strings.ReplaceAll s "_" "/" in
      match Base64.DecodeString s with
      | inl out => inl out
      | inr e => inr (ErrBase64 e)
      end
  end.

Definition ParseIDToken (idToken : string) : IDTokenClaims + error :=
  let parts := Strings.Split idToken "." in
  if negb (length parts =? 3)%nat then inr (ErrFormat (length parts))
  else
    let rawHeader := nth 0 parts "" in
    let rawPayload := nth 1 parts "" in
    let rawSignature := nth 2 parts "" in
    match base64URLDecode rawPayload with
    | inr err => inr (ErrDecodePayload err)
    | inl payload =>
        match Unmarshal payload zero with
        | inr err => inr (ErrParseClaims err)
        | inl claims =>
            inl {| Issuer := Issuer claims; Subject := Subject claims;
                   Audience := Audience claims;
                   Expiration := Expiration claims;
                   IssuedAt := IssuedAt claims;
                   Name := Name claims; Email := Email claims;
                   EmailVerified := EmailVerified claims;
                   Picture := Picture claims;
                   GivenName := GivenName claims;
                   FamilyName := FamilyName claims;
                   Locale := Locale claims;
                   rawHeader := rawHeader;
                   rawPayload := rawPayload;
                   rawSignature := rawSignature |}
        end
    end.

(** The [for _, aud := range audiences] loop with its [break]. *)
Fixpoint found_in (audiences : list string) (expectedAudience : string)
  : bool :=
  match audiences with
  | [] => false
  | aud :: rest =>
      if String.eqb aud expectedAudience then true
      else found_in rest expectedAudience
  end.

(** [ValidateIDToken]; [now] stands for [time.Now().Unix()], and [None]
    for the [nil] error. *)
Definition ValidateIDToken (claims : IDTokenClaims)
    (expectedAudience : string) (now : Z) : option error :=
  if (Expiration claims <? now)%Z then
    Some (ErrExpired (Expiration claims) now)
  else if (IssuedAt claims >? now)%Z then
    Some (ErrIssuedInFuture (IssuedAt claims) now)
  else if negb (String.eqb expectedAudience "") then
    let audiences :=
      if negb (String.eqb (Audience claims) "") then [Audience claims]
      else [] in
    let found := found_in audiences expectedAudience in
    if negb found then Some ErrAudience else None
  else None.

End Token.


(** ** Buffered channels

    A channel of capacity at least one, as the runtime implements it: a
    queue of buffered values and a queue of goroutines parked on a send
    because the buffer was full.  [G] is what the model remembers of a
    parked goroutine. *)

Module Chan.

Record chan (A G : Type) := Chan {
  cap : nat;
  buf : list A;
  sendq : list (A * G)
}.
Arguments Chan {A G}.
Arguments cap {A G}.
Arguments buf {A G}.
Arguments sendq {A G}.

(** [make(chan A, n)] *)
Definition make {A G} (n : nat) : chan A G := Chan n [] [].

(** [ch <- v] by the goroutine [g]: with room in the buffer the value is
    queued and the sender goes on ([true]); otherwise the sender is
    parked ([false]). *)
Definition send {A G} (ch : chan A G) (v : A) (g : G) : chan A G * bool :=
  if (length (buf ch) <? cap ch)%nat
  then (Chan (cap ch) (buf ch ++ [v]) (sendq ch), true)
  else (Chan (cap ch) (buf ch) (sendq ch ++ [(v, g)]), false).

(** [<-ch] when a value is buffered: the value, the channel afterwards
    and the parked sender that the receive wakes, whose value takes the
    freed slot.  [None] when the buffer is empty: the receive would wait. *)
Definition recv {A G} (ch : chan A G) : option (A * chan A G * option G) :=
  match buf ch with
  | [] => None
  | v :: rest =>
      match sendq ch with
      | [] => Some (v, Chan (cap ch) rest [], None)
      | (v', g) :: waiting =>
          Some (v, Chan (cap ch) (rest ++ [v']) waiting, Some g)
      end
  end.

End Chan.

(** ** callback.go

    The state holds the fields of the [CallbackServer] struct and what the
    model needs of the goroutines around it.  The calls to the [logger]
    package only print; they are left out. *)

Module Server.

Import Chan.

(** [url.Values] and its method [Get]. *)
Definition Get (v : gmap string (list string)) (key : string) : string :=
  match v !! key with
  | Some (first :: _) => first
  | _ => ""
  end.

(** An inbound request, reduced to [r.URL.Query()]. *)
Record Request := { Query : gmap string (list string) }.

(** What the client receives once the handler has returned. *)
Record Response := {
  StatusCode : nat;
  Header : gmap string string;
  Body : string
}.

Definition StatusOK : nat := 200.
Definition StatusBadRequest : nat := 400.

(** [http.Error(w, error, code)] *)
Definition http_Error (error : string) (code : nat) : Response :=
  {| StatusCode := code;
     Header := {[ "Content-Type" := "text/plain; charset=utf-8";
                  "X-Content-Type-Options" := "nosniff" ]};
     Body := error +:+ String "010" EmptyString |}.

Definition q : string := String JSON.dquote EmptyString.

(** The text of [successHTML] before and after its [%s]. *)
Definition successHTML_head : string :=
  "
<!DOCTYPE html>
<html>
<head>
    <title>OAuth2 Authorization Successful</title>
    <style>
        body {
            font-family: Arial, sans-serif;
            max-width: 600px;
            margin: 0 auto;
            padding: 20px;
            text-align: center;
        }
        .success {
            color: #4CAF50;
            font-size: 24px;
            margin-bottom: 20px;
        }
        .info {
            color: #555;
            margin-bottom: 20px;
        }
        .code {
            background-color: #f5f5f5;
            padding: 10px;
            border-radius: 4px;
            font-family: monospace;
            word-break: break-all;
        }
    </style>
</head>
<body>
    <h1 class=" +:+ q +:+ "success" +:+ q +:+ ">Authorization Successful!</h1>
    <p class=" +:+ q +:+ "info" +:+ q +:+ ">You have successfully authorized the application. You can now close this window and return to the application.</p>
    <div class=" +:+ q +:+ "code" +:+ q +:+ ">
        <p>Authorization Code:</p>
        <code>".

Definition successHTML_tail : string :=
  "</code>
    </div>
</body>
</html>
".

(** The success page: [Content-Type: text/html], status 200 and
    [fmt.Fprintf(w, successHTML, code)]. *)
Definition success_page (code : string) : Response :=
  {| StatusCode := StatusOK;
     Header := {[ "Content-Type" := "text/html" ]};
     Body := successHTML_head +:+ code +:+ successHTML_tail |}.

(** A goroutine parked on a channel send, by the statement it waits in. *)
Inductive parked :=
| InHandlerError (w : Response)
    (* handleCallback at [s.errChan <- ...]; the 400 response is written
       and leaves when the handler returns *)
| InHandlerCode (code : string)
    (* handleCallback at [s.codeChan <- code]; the page is not yet
       written *)
| InServe.
    (* the goroutine of Start at [s.errChan <- ...], before its deferred
       [s.shutdownWg.Done()] *)

Record CallbackServer := {
  (* the struct *)
  server : option nat;       (* *http.Server: nil, or the server allocated
                                by the n-th call of Start *)
  port : Z;
  path : string;
  codeChan : chan string parked;
  errChan : chan string parked;   (* an error is its message *)
  once : bool;               (* sync.Once: done *)
  shutdownWg : nat;          (* sync.WaitGroup: counter *)
  (* around the struct *)
  allocated : nat;           (* http.Server values allocated so far *)
  serving : list nat;        (* servers whose Serve loop runs in a goroutine
                                of Start *)
  responses : list Response  (* responses sent to clients, oldest first *)
}.

Definition NewCallbackServer (port : Z) (path : string) : CallbackServer :=
  {| server := None; port := port; path := path;
     codeChan := make 1; errChan := make 1;
     once := false; shutdownWg := 0;
     allocated := 0; serving := []; responses := [] |}.

Definition set_codeChan (ch : chan string parked) (s : CallbackServer) :=
  {| server := server s; port := port s; path := path s;
     codeChan := ch; errChan := errChan s;
     once := once s; shutdownWg := shutdownWg s;
     allocated := allocated s; serving := serving s;
     responses := responses s |}.

Definition set_errChan (ch : chan string parked) (s : CallbackServer) :=
  {| server := server s; port := port s; path := path s;
     codeChan := codeChan s; errChan := ch;
     once := once s; shutdownWg := shutdownWg s;
     allocated := allocated s; serving := serving s;
     responses := responses s |}.

Definition respond (w : Response) (s : CallbackServer) :=
  {| server := server s; port := port s; path := path s;
     codeChan := codeChan s; errChan := errChan s;
     once := once s; shutdownWg := shutdownWg s;
     allocated := allocated s; serving := serving s;
     responses := responses s ++ [w] |}.

(** [s.shutdownWg.Done()] *)
Definition wg_Done (s : CallbackServer) :=
  {| server := server s; port := port s; path := path s;
     codeChan := codeChan s; errChan := errChan s;
     once := once s; shutdownWg := shutdownWg s - 1;
     allocated := allocated s; serving := serving s;
     responses := responses s |}.

(** What a parked goroutine does once its send has gone through. *)
Definition resume (g : parked) (s : CallbackServer) : CallbackServer :=
  match g with
  | InHandlerError w => respond w s
  | InHandlerCode code => respond (success_page code) s
  | InServe => wg_Done s
  end.

(** [s.errChan <- err] and [s.codeChan <- code], by the goroutine that
    continues as [g] afterwards. *)
Definition send_err (err : string) (g : parked) (s : CallbackServer)
  : CallbackServer :=
  let '(ch, sent) := send (errChan s) err g in
  let s := set_errChan ch s in
  if sent then resume g s else s.

Definition send_code (code : string) (g : parked) (s : CallbackServer)
  : CallbackServer :=
  let '(ch, sent) := send (codeChan s) code g in
  let s := set_codeChan ch s in
  if sent then resume g s else s.

(** [handleCallback], run until it returns or parks on its send. *)
Definition handleCallback (r : Request) (s : CallbackServer)
  : CallbackServer :=
  let code := Get (Query r) "code" in
  if String.eqb code "" then
    let w := http_Error "No authorization code received" StatusBadRequest in
    send_err "no authorization code received" (InHandlerError w) s
  else
    let errMsg := Get (Query r) "error" in
    if negb (String.eqb errMsg "") then
      let errDesc := Get (Query r) "error_description" in
      let w := http_Error ("OAuth error: " +:+ errMsg +:+ " - " +:+ errDesc)
                          StatusBadRequest in
      send_err ("oauth error: " +:+ errMsg +:+ " - " +:+ errDesc)
               (InHandlerError w) s
    else
      send_code code (InHandlerCode code) s.

(** [Start]; [listen] is what [net.Listen] answers: [None] for a listener,
    [Some e] for the error [e].  Returns the error of Start, if any. *)
Definition Start (listen : option string) (s : CallbackServer)
  : CallbackServer * option string :=
  let srv := allocated s in
  let s :=
    {| server := Some srv; port := port s; path := path s;
       codeChan := codeChan s; errChan := errChan s;
       once := once s; shutdownWg := shutdownWg s;
       allocated := S (allocated s); serving := serving s;
       responses := responses s |} in
  match listen with
  | Some e =>
      (s, Some ("port " +:+ pretty (port s) +:+ " is not available: " +:+ e))
  | None =>
      ({| server := server s; port := port s; path := path s;
          codeChan := codeChan s; errChan := errChan s;
          once := once s; shutdownWg := shutdownWg s + 1;
          allocated := allocated s; serving := serving s ++ [srv];
          responses := responses s |}, None)
  end.

(** The Serve loop of the server [srv] ends by itself with an error other
    than [http.ErrServerClosed]: its goroutine sends the error and then
    runs the deferred [Done]. *)
Definition serve_fails (srv : nat) (e : string) (s : CallbackServer)
  : CallbackServer :=
  if bool_decide (srv ∈ serving s) then
    let s :=
      {| server := server s; port := port s; path := path s;
         codeChan := codeChan s; errChan := errChan s;
         once := once s; shutdownWg := shutdownWg s;
         allocated := allocated s;
         serving := List.filter (fun k => negb (k =? srv)%nat) (serving s);
         responses := responses s |} in
    send_err ("callback server error: " +:+ e) InServe s
  else s.

(** The cases of the [select] in WaitForCode. *)
Inductive select_case := CaseCode | CaseErr | CaseDone.

Definition ready (ctx : option string) (s : CallbackServer) (c : select_case)
  : bool :=
  match c with
  | CaseCode => negb (bool_decide (buf (codeChan s) = []))
  | CaseErr => negb (bool_decide (buf (errChan s) = []))
  | CaseDone => bool_decide (is_Some ctx)
  end.

Definition wake (g : option parked) (s : CallbackServer) : CallbackServer :=
  match g with
  | Some g => resume g s
  | None => s
  end.

(** [WaitForCode(ctx)]; [ctx] is [ctx.Err()], [None] while the context is
    live.  With several cases ready the runtime picks one, which [pick]
    stands for.  The result is [None] while no case is ready (the caller
    stays blocked); otherwise the returned pair and the state. *)
Definition WaitForCode (ctx : option string) (pick : nat) (s : CallbackServer)
  : option ((string * option string) * CallbackServer) :=
  let cases := List.filter (ready ctx s) [CaseCode; CaseErr; CaseDone] in
  match cases !! (pick mod length cases)%nat with
  | None => None
  | Some CaseCode =>
      match recv (codeChan s) with
      | Some (code, ch, g) => Some ((code, None), wake g (set_codeChan ch s))
      | None => None
      end
  | Some CaseErr =>
      match recv (errChan s) with
      | Some (err, ch, g) => Some (("", Some err), wake g (set_errChan ch s))
      | None => None
      end
  | Some CaseDone =>
      match ctx with
      | Some e => Some (("", Some e), s)
      | None => None
      end
  end.

(** How a call ends. *)
Inductive outcome :=
| Returns (s : CallbackServer)
| Panics (s : CallbackServer)      (* nil pointer dereference *)
| Blocks (s : CallbackServer).     (* waits with nothing left to wake it *)

(** [s.server.Shutdown(ctx)] on the server [srv]: its listeners are closed,
    so each Serve loop on it returns [http.ErrServerClosed] and its
    goroutine runs the deferred [Done] without sending.  Shutdown itself
    returns after at most the five seconds of [ctx]. *)
Definition Shutdown (srv : nat) (s : CallbackServer) : CallbackServer :=
  {| server := server s; port := port s; path := path s;
     codeChan := codeChan s; errChan := errChan s;
     once := once s;
     shutdownWg :=
       shutdownWg s - length (List.filter (fun k => (k =? srv)%nat) (serving s));
     allocated := allocated s;
     serving := List.filter (fun k => negb (k =? srv)%nat) (serving s);
     responses := responses s |}.

(** [s.once.Do(f)] marks the Once done when [f] ends, also by a panic. *)
Definition set_once (s : CallbackServer) :=
  {| server := server s; port := port s; path := path s;
     codeChan := codeChan s; errChan := errChan s;
     once := true; shutdownWg := shutdownWg s;
     allocated := allocated s; serving := serving s;
     responses := responses s |}.

(** [Stop] *)
Definition Stop (s : CallbackServer) : outcome :=
  if once s then Returns s
  else
    match server s with
    | None => Panics (set_once s)
    | Some srv =>
        let s := Shutdown srv s in
        (* s.shutdownWg.Wait() *)
        if (shutdownWg s =? 0)%nat then Returns (set_once s)
        else Blocks s
    end.

(** What can happen around the server during one attempt, and the run
    of a sequence of such events.  A [Wait] that finds no case ready
    leaves the state as it is. *)
Inductive event :=
| Inbound (r : Request)
| Wait (ctx : option string) (pick : nat)
| ServeFails (srv : nat) (e : string).

Definition step (s : CallbackServer) (ev : event) : CallbackServer :=
  match ev with
  | Inbound r => handleCallback r s
  | Wait ctx pick =>
      match WaitForCode ctx pick s with
      | Some (_, s') => s'
      | None => s
      end
  | ServeFails srv e => serve_fails srv e s
  end.

Definition run (evs : list event) (s : CallbackServer) : CallbackServer :=
  fold_left step evs s.

(** [GetRedirectURI] *)
Definition GetRedirectURI (s : CallbackServer) : string :=
  "http://localhost:" +:+ pretty (port s) +:+ path s.

End Server.

(** ** utils.go *)

Module Utils.

(** [os.Getenv]: the value of the variable, or "" when it is not set. *)
Definition Getenv (env : gmap string string) (key : string) : string :=
  match env !! key with
  | Some value => value
  | None => ""
  end.

Definition GetEnv (env : gmap string string) (key defaultValue : string)
  : string :=
  let value := Getenv env key in
  if String.eqb value "" then defaultValue else value.

(** The error is its message. *)
Definition GetRequiredEnv (env : gmap string string) (key : string)
  : string + string :=
  let value := Getenv env key in
  if String.eqb value "" then
    inr ("required environment variable " +:+ key +:+ " is not set")
  else inl value.

Definition GetEnvBool (env : gmap string string) (key : string)
    (defaultValue : bool) : bool :=
  let value := Getenv env key in
  if String.eqb value "" then defaultValue
  else
    let value := Strings.ToLower value in
    String.eqb value "1" || String.eqb value "true"
    || String.eqb value "yes" || String.eqb value "y".

Definition FormatCodeBlock (s : string) : string :=
  String "010" ("```" +:+ String "010" (s +:+ String "010" ("```"
     +:+ String "010" EmptyString))).

(** [TruncateString]; [maxLen] is an [int].  The slice [s[:maxLen-3]] is
    only taken when [len(s) > maxLen], so its upper bound is within the
    string; it panics when that bound is negative, which [None] stands
    for. *)
Definition TruncateString (s : string) (maxLen : Z) : option string :=
  if (Z.of_nat (String.length s) <=? maxLen)%Z then Some s
  else if (maxLen - 3 <? 0)%Z then None
  else Some (String.substring 0 (Z.to_nat (maxLen - 3)) s +:+ "...").

End Utils.

(** ** logger.go

    A logger is its level and what has been written to its writer, one
    string for each call of [Write].  The time that a call reads from the
    clock, already formatted, is an argument, and so is the message that
    [fmt.Sprintf] makes of the format and its arguments. *)

Module Logger.

Definition LogLevel := Z.
Definition DebugLevel : LogLevel := 0%Z.
Definition InfoLevel : LogLevel := 1%Z.
Definition WarnLevel : LogLevel := 2%Z.
Definition ErrorLevel : LogLevel := 3%Z.
Definition DisabledLevel : LogLevel := 4%Z.

Record Logger := {
  level : LogLevel;
  writer : list string
}.

(** [New]; the writer is the standard output, empty so far. *)
Definition New (lvl : LogLevel) : Logger := {| level := lvl; writer := [] |}.

Definition SetWriter (w : list string) (l : Logger) : Logger :=
  {| level := level l; writer := w |}.

Definition SetLevel (lvl : LogLevel) (l : Logger) : Logger :=
  {| level := lvl; writer := writer l |}.

Definition formatMessage (timestamp : string) (lvl : LogLevel)
    (message : string) : string :=
  let levelStr :=
    if (lvl =? DebugLevel)%Z then "DEBUG"
    else if (lvl =? InfoLevel)%Z then "INFO "
    else if (lvl =? WarnLevel)%Z then "WARN "
    else if (lvl =? ErrorLevel)%Z then "ERROR"
    else "" in
  "[" +:+ timestamp +:+ "] " +:+ levelStr +:+ ": " +:+ message.

Definition indent : string := "                ".

(** [fmt.Fprintln(l.writer, s)] *)
Definition Fprintln (s : string) (l : Logger) : Logger :=
  {| level := level l;
     writer := (writer l ++ [s +:+ String "010" EmptyString])%list |}.

Definition log (timestamp : string) (lvl : LogLevel) (message : string)
    (l : Logger) : Logger :=
  if (lvl <? level l)%Z then l
  else
    let formattedMessage := formatMessage timestamp lvl message in
    let lines := Strings.Split formattedMessage "010" in
    let formattedMessage :=
      if (1 <? length lines)%nat then
        let lines :=
          match lines with
          | first :: rest => first :: map (fun line => indent +:+ line) rest
          | [] => []
          end in
        Strings.Join lines "010"
      else formattedMessage in
    Fprintln formattedMessage l.

Definition Debug (timestamp message : string) (l : Logger) : Logger :=
  log timestamp DebugLevel message l.

Definition Info (timestamp message : string) (l : Logger) : Logger :=
  log timestamp InfoLevel message l.

Definition Warn (timestamp message : string) (l : Logger) : Logger :=
  log timestamp WarnLevel message l.

Definition Error (timestamp message : string) (l : Logger) : Logger :=
  log timestamp ErrorLevel message l.

Definition nl : string := String "010" EmptyString.

(** The book emoji of the header, U+1F4DA, in UTF-8. *)
Definition books : string :=
  String "240" (String "159" (String "147" (String "154" EmptyString))).

(** [Educational]; [t1], [t2], [t3] are the times of its three calls of
    Info. *)
Definition Educational (t1 t2 t3 : string) (topic message : string)
    (l : Logger) : Logger :=
  if (level l >? InfoLevel)%Z then l
  else
    let header := books +:+ " EDUCATIONAL: " +:+ Strings.ToUpper topic in
    let separator := Strings.Repeat "-" (String.length header) in
    let l := Info t1 (nl +:+ separator +:+ nl +:+ header +:+ nl +:+ separator
                      +:+ nl) l in
    let l := Info t2 message l in
    Info t3 (separator +:+ nl) l.

(** [Step] *)
Definition Step (t1 t2 : string) (stepNumber : Z) (stepName : string)
    (description : string) (l : Logger) : Logger :=
  if (level l >? InfoLevel)%Z then l
  else
    let l := Info t1 ("STEP " +:+ pretty stepNumber +:+ ": "
                      +:+ Strings.ToUpper stepName) l in
    Info t2 ("  " +:+ description) l.

End Logger.

(** ** Package [net/url]: [QueryEscape] and [Values] *)

Module URL.

(** The bytes that [QueryEscape] leaves as they are: letters, digits,
    '-', '_', '.' and '~'. *)
Definition unreserved (c : ascii) : bool :=
  let n := N_of_ascii c in
  ((65 <=? n) && (n <=? 90))%N || ((97 <=? n) && (n <=? 122))%N
  || ((48 <=? n) && (n <=? 57))%N
  || Ascii.eqb c "-" || Ascii.eqb c "_" || Ascii.eqb c "." || Ascii.eqb c "~".

Definition upperhex (n : N) : ascii :=
  match String.get (N.to_nat n) "0123456789ABCDEF" with
  | Some c => c
  | None => Ascii.zero
  end.

(** [url.QueryEscape]: a space becomes '+', every other byte that is not
    unreserved becomes '%' and two hexadecimal digits. *)
Fixpoint QueryEscape (s : string) : string :=
  match s with
  | EmptyString => EmptyString
  | String c rest =>
      if unreserved c then String c (QueryEscape rest)
      else if Ascii.eqb c " " then String "+" (QueryEscape rest)
      else
        String "%" (String (upperhex (N_of_ascii c / 16))
                      (String (upperhex (N_of_ascii c mod 16))
                         (QueryEscape rest)))
  end.

(** [Values.Set] *)
Definition Set_ (key value : string) (v : gmap string (list string))
  : gmap string (list string) :=
  <[key := [value]]> v.

(** [slices.Sort(keys)], by insertion. *)
Fixpoint insert_key (k : string) (keys : list string) : list string :=
  match keys with
  | [] => [k]
  | x :: rest =>
      if String.leb k x then k :: keys else x :: insert_key k rest
  end.

Definition sort_keys (keys : list string) : list string :=
  fold_right insert_key [] keys.

(** [Values.Encode]: the pairs in the order of the sorted keys, each as
    escaped key, '=', escaped value, with '&' between them. *)
Definition Encode (v : gmap string (list string)) : string :=
  let keys := sort_keys (map fst (map_to_list v)) in
  let pairs :=
    flat_map
      (fun k =>
         map (fun value => QueryEscape k +:+ "=" +:+ QueryEscape value)
             (match v !! k with Some vs => vs | None => [] end))
      keys in
  Strings.Join pairs "&".

End URL.

(** ** oauth.go

    The HTTP client is an input: [Do] answers a request with an error or
    with a status and the outcome of reading the body.  What
    ExchangeCodeForToken returns comes with the requests that it sent.
    The records that these functions write to the default logger are left
    out: they have no part in what is returned or sent. *)

Module OAuth.

Definition GoogleAuthURL : string :=
  "https://accounts.google.com/o/oauth2/v2/auth".

Definition GoogleTokenURL : string := "https://oauth2.googleapis.com/token".

Record OAuth2Config := {
  ClientID : string;
  ClientSecret : string;
  RedirectURI : string;
  Scopes : list string;
  Audience : string
}.

Record OAuth2Client := {
  config : OAuth2Config;
  verifier : PKCE.PKCECodeVerifier;
  challenge : PKCE.PKCECodeChallenge;
  state : string
}.

Inductive new_error :=
| ErrVerifier (e : PKCE.error)
    (* "failed to generate PKCE code verifier: %w" *)
| ErrState (cause : string).
    (* "failed to generate state parameter: %w" *)

(** [NewOAuth2Client]; [read1] and [read2] are what the two calls of
    [rand.Read] do, the first inside GenerateCodeVerifier. *)
Definition NewOAuth2Client (read1 read2 : PKCE.Reader)
    (config : OAuth2Config) : OAuth2Client + new_error :=
  match PKCE.GenerateCodeVerifier read1 with
  | inr err => inr (ErrVerifier err)
  | inl verifier =>
      let challenge := PKCE.CreateCodeChallenge verifier in
      let stateBytes := repeat x00 16 in
      let '(stateBytes, err) := read2 stateBytes in
      match err with
      | Some e => inr (ErrState e)
      | None =>
          let state := Base64.URLEncodeToString stateBytes in
          inl {| config := config; verifier := verifier;
                 challenge := challenge; state := state |}
      end
  end.

(** [GetAuthorizationURL].  [url.Parse] does not fail on the constant
    GoogleAuthURL, which has no query of its own; the URL printed back is
    the constant, '?' and the encoded query. *)
Definition GetAuthorizationURL (c : OAuth2Client) : string :=
  let q : gmap string (list string) := ∅ in
  let q := URL.Set_ "client_id" (ClientID (config c)) q in
  let q := URL.Set_ "redirect_uri" (RedirectURI (config c)) q in
  let q := URL.Set_ "response_type" "code" q in
  let q := URL.Set_ "scope" (Strings.Join (Scopes (config c)) " ") q in
  let q := URL.Set_ "state" (state c) q in
  let q := URL.Set_ "code_challenge" (challenge c) q in
  let q := URL.Set_ "code_challenge_method" "S256" q in
  let q :=
    if negb (String.eqb (Audience (config c)) "")
    then URL.Set_ "audience" (Audience (config c)) q
    else q in
  GoogleAuthURL +:+ "?" +:+ URL.Encode q.

Definition VerifyState (c : OAuth2Client) (state_ : string) : bool :=
  if String.eqb state_ "" || String.eqb (state c) "" then false
  else String.eqb state_ (state c).

Definition GetCodeVerifier (c : OAuth2Client) : string := verifier c.
Definition GetCodeChallenge (c : OAuth2Client) : string := challenge c.

Record TokenResponse := {
  AccessToken : string;     (* json:"access_token" *)
  TokenType : string;       (* json:"token_type" *)
  ExpiresIn : Z;            (* json:"expires_in", int *)
  RefreshToken : string;    (* json:"refresh_token,omitempty" *)
  IDToken : string;         (* json:"id_token,omitempty" *)
  Scope : string            (* json:"scope,omitempty" *)
}.

(** [var tokenResp TokenResponse] *)
Definition zero : TokenResponse := Build_TokenResponse "" "" 0 "" "" "".

Inductive field :=
| FAccessToken | FTokenType | FExpiresIn | FRefreshToken | FIDToken | FScope.

Definition fields : list field :=
  [ FAccessToken; FTokenType; FExpiresIn; FRefreshToken; FIDToken; FScope ].

Definition json_name (f : field) : string :=
  match f with
  | FAccessToken => "access_token" | FTokenType => "token_type"
  | FExpiresIn => "expires_in" | FRefreshToken => "refresh_token"
  | FIDToken => "id_token" | FScope => "scope"
  end.

Inductive json_error :=
| SyntaxError
| UnmarshalTypeError (f : option field).

Definition set_string (f : field) (v : string) (t : TokenResponse)
  : TokenResponse :=
  let '(Build_TokenResponse at_ ty ei rt it sc) := t in
  match f with
  | FAccessToken => Build_TokenResponse v ty ei rt it sc
  | FTokenType => Build_TokenResponse at_ v ei rt it sc
  | FRefreshToken => Build_TokenResponse at_ ty ei v it sc
  | FIDToken => Build_TokenResponse at_ ty ei rt v sc
  | FScope => Build_TokenResponse at_ ty ei rt it v
  | FExpiresIn => t
  end.

Definition set_int (v : Z) (t : TokenResponse) : TokenResponse :=
  let '(Build_TokenResponse at_ ty _ rt it sc) := t in
  Build_TokenResponse at_ ty v rt it sc.

(** Storing one JSON value into one field, by the Go type of the field
    ([int] has 64 bits here). *)
Definition store (f : field) (v : JSON.value) (t : TokenResponse)
  : TokenResponse + json_error :=
  match v with
  | JSON.Null => inl t
  | _ =>
      match f with
      | FExpiresIn =>
          match v with
          | JSON.Number lit =>
              match JSON.ParseInt64 lit with
              | Some z => inl (set_int z t)
              | None => inr (UnmarshalTypeError (Some f))
              end
          | _ => inr (UnmarshalTypeError (Some f))
          end
      | _ =>
          match v with
          | JSON.Str s => inl (set_string f s t)
          | _ => inr (UnmarshalTypeError (Some f))
          end
      end
  end.

Fixpoint store_members (ms : list (string * JSON.value))
    (t : TokenResponse) (saved : option json_error)
  : TokenResponse * option json_error :=
  match ms with
  | [] => (t, saved)
  | (k, v) :: rest =>
      match List.find (fun f => JSON.EqualFold k (json_name f)) fields with
      | None => store_members rest t saved
      | Some f =>
          match store f v t with
          | inl t' => store_members rest t' saved
          | inr e =>
              store_members rest t
                (match saved with Some _ => saved | None => Some e end)
          end
      end
  end.

(** [json.Unmarshal(body, &tokenResp)] *)
Definition Unmarshal (data : list byte) (t : TokenResponse)
  : TokenResponse + json_error :=
  match JSON.parse data with
  | None => inr SyntaxError
  | Some JSON.Null => inl t
  | Some (JSON.Object ms) =>
      match store_members ms t None with
      | (t', None) => inl t'
      | (_, Some e) => inr e
      end
  | Some _ => inr (UnmarshalTypeError None)
  end.

(** A request as ExchangeCodeForToken builds it, and what
    [c.httpClient.Do] may give back: an error (a context that is done
    shows here), or a status with the body, whose reading may fail. *)
Record HTTPRequest := {
  Method : string;
  Target : string;
  Header : gmap string string;
  Body : string
}.

Inductive HTTPResult :=
| DoFails (cause : string)
| Responds (status : Z) (body : list byte + string).

Inductive exchange_error :=
| ErrEmptyCode                   (* "authorization code is empty" *)
| ErrDo (cause : string)         (* "token request failed: %w" *)
| ErrRead (cause : string)       (* "failed to read token response: %w" *)
| ErrStatus (status : Z) (body : list byte)
    (* "token request failed with status %d: %s" *)
| ErrParse (e : json_error).     (* "failed to parse token response: %w" *)

Definition token_request (c : OAuth2Client) (code : string) : HTTPRequest :=
  let data : gmap string (list string) := ∅ in
  let data := URL.Set_ "client_id" (ClientID (config c)) data in
  let data := URL.Set_ "client_secret" (ClientSecret (config c)) data in
  let data := URL.Set_ "code" code data in
  let data := URL.Set_ "code_verifier" (verifier c) data in
  let data := URL.Set_ "grant_type" "authorization_code" data in
  let data := URL.Set_ "redirect_uri" (RedirectURI (config c)) data in
  let header : gmap string string := ∅ in
  let header :=
    <["Content-Type" := "application/x-www-form-urlencoded"]> header in
  let header := <["Accept" := "application/json"]> header in
  {| Method := "POST"; Target := GoogleTokenURL; Header := header;
     Body := URL.Encode data |}.

(** [ExchangeCodeForToken]: the result and the requests sent.
    [http.NewRequestWithContext] does not fail on the method POST and the
    constant GoogleTokenURL. *)
Definition ExchangeCodeForToken (Do : HTTPRequest -> HTTPResult)
    (c : OAuth2Client) (code : string)
  : (TokenResponse + exchange_error) * list HTTPRequest :=
  if String.eqb code "" then (inr ErrEmptyCode, [])
  else
    let req := token_request c code in
    match Do req with
    | DoFails err => (inr (ErrDo err), [req])
    | Responds StatusCode (inr err) => (inr (ErrRead err), [req])
    | Responds StatusCode (inl body) =>
        if negb (StatusCode =? 200)%Z
        then (inr (ErrStatus StatusCode body), [req])
        else
          match Unmarshal body zero with
          | inr err => (inr (ErrParse err), [req])
          | inl tokenResp => (inl tokenResp, [req])
          end
    end.

End OAuth.

(** * Notions used in the statements *)

Section Notions.

Import Base64 Strings Token Chan Server.

(** The number of occurrences of a byte in a string. *)
Fixpoint count_byte (c : ascii) (s : string) : nat :=
  match s with
  | EmptyString => 0
  | String a rest => (if Ascii.eqb a c then 1 else 0) + count_byte c rest
  end.

(** The decoding that follows the padding switch of [base64URLDecode]. *)
Definition decode_padded (s : string) : list byte + decode_error :=
  match Base64.DecodeString
          (Strings.ReplaceAll (Strings.ReplaceAll s "-" "+") "_" "/") with
  | inl out => inl out
  | inr e => inr (ErrBase64 e)
  end.

(** The encoding that pkce.go spells out: standard base64, then '+' to
    '-', '/' to '_', and the padding removed. *)
Definition RawURLEncode (b : list byte) : string :=
  Strings.ReplaceAll
    (Strings.ReplaceAll
       (Strings.ReplaceAll (Base64.EncodeToString b) "+" "-") "/" "_")
    "=" "".

(** The payload of the example, written with ' for the quotation mark. *)
Definition example_payload : string :=
  Strings.ReplaceAll
    "{'iss':'https://example.com','sub':'123','aud':'client1','exp':9999999999,'iat':1000000000}"
    "'" (String JSON.dquote EmptyString).

Definition example_segment : string :=
  RawURLEncode (list_byte_of_string example_payload).

Definition example_claims (h sg : string) : IDTokenClaims :=
  {| Issuer := "https://example.com"; Subject := "123";
     Audience := "client1";
     Expiration := 9999999999; IssuedAt := 1000000000;
     Name := ""; Email := ""; EmailVerified := false; Picture := "";
     GivenName := ""; FamilyName := ""; Locale := "";
     rawHeader := h; rawPayload := example_segment; rawSignature := sg |}.

(** The SHA-256 digest of the verifier, as CreateCodeChallenge computes
    it. *)
Definition sha256 (v : string) : list byte :=
  Sha256.Sum (Sha256.Write Sha256.New (list_byte_of_string v)) [].

(** The verifier made of n letters a. *)
Fixpoint letters (n : nat) : string :=
  match n with
  | O => EmptyString
  | S n' => String "a" (letters n')
  end.

(** A request with the given query parameters, one value each. *)
Definition request (params : list (string * string)) : Request :=
  {| Query := list_to_map (map (fun '(k, v) => (k, [v])) params) |}.

(** Outcomes handed to the channels and not yet received: those in the
    buffers, and those of the senders parked behind a full buffer. *)
Definition buffered (s : CallbackServer) : nat :=
  length (buf (codeChan s)) + length (buf (errChan s)).

Definition parked_senders (s : CallbackServer) : nat :=
  length (sendq (codeChan s)) + length (sendq (errChan s)).

Definition is_handler (g : parked) : bool :=
  match g with
  | InServe => false
  | _ => true
  end.

(** The handlers, and the goroutines of Start, among parked senders. *)
Definition handlers_in (q : list (string * parked)) : nat :=
  length (List.filter (fun p => is_handler (snd p)) q).

Definition serves_in (q : list (string * parked)) : nat :=
  length (List.filter (fun p => negb (is_handler (snd p))) q).

Definition parked_handlers (s : CallbackServer) : nat :=
  handlers_in (sendq (codeChan s)) + handlers_in (sendq (errChan s)).

(** A handoff channel as NewCallbackServer makes it: capacity one, at most
    one value buffered. *)
Definition chan_ok (ch : chan string parked) : Prop :=
  cap ch = 1 /\ length (buf ch) <= 1.

(** The states of a server on which Start has been called once and Stop
    not yet: the WaitGroup counts the goroutine of Start for as long as it
    serves or is parked on sending its error. *)
Definition started (s : CallbackServer) : Prop :=
  server s = Some 0 /\ once s = false /\
  (serving s = [] \/ serving s = [0]) /\
  serves_in (sendq (codeChan s)) = 0 /\
  shutdownWg s = length (serving s) + serves_in (sendq (errChan s)).

(** What a handler may have parked, and what may have been answered, on a
    server that only handleCallback has written to: the 400 response of an
    error branch, or the page for a code that is not empty. *)
Definition parked_ok (g : parked) : Prop :=
  match g with
  | InHandlerError w => StatusCode w = StatusBadRequest
  | InHandlerCode code => code <> ""
  | InServe => True
  end.

Definition response_ok (w : Response) : Prop :=
  StatusCode w = StatusBadRequest \/
  exists code, code <> "" /\ w = success_page code.

Definition handled_ok (s : CallbackServer) : Prop :=
  Forall response_ok (responses s) /\
  Forall (fun code => code <> "") (buf (codeChan s)) /\
  Forall (fun p => fst p <> "" /\ parked_ok (snd p)) (sendq (codeChan s)) /\
  Forall (fun p => parked_ok (snd p)) (sendq (errChan s)).

(** The number of inbound requests among events. *)
Definition inbound (evs : list event) : nat :=
  length (List.filter (fun ev => match ev with Inbound _ => true | _ => false end)
            evs).

(** The long s, U+017F, and the Kelvin sign, U+212A, in UTF-8, and a token
    response whose member names are written with them (' stands for the
    quotation mark). *)
Definition long_s : string := String "197" (String "191" EmptyString).

Definition Kelvin_sign : string :=
  String "226" (String "132" (String "170" EmptyString)).

Definition folded_names_body : string :=
  Strings.ReplaceAll
    ("{'acce" +:+ long_s +:+ long_s +:+ "_token':'x','to" +:+ Kelvin_sign
       +:+ "en_type':'Bearer'}")
    "'" (String JSON.dquote EmptyString).

(** n arrays, one inside the other. *)
Definition nested_arrays (n : nat) : string :=
  Strings.Repeat "[" n +:+ Strings.Repeat "]" n.

End Notions.

Section EncodingNotions.

Import Base64 Strings.

Local Open Scope N_scope.

(** A-Z, a-z, 0-9, '-' and '_'. *)
Definition is_urlsafe (c : ascii) : bool :=
  let n := N_of_ascii c in
  ((65 <=? n) && (n <=? 90)) || ((97 <=? n) && (n <=? 122))
  || ((48 <=? n) && (n <=? 57)) || Ascii.eqb c "-" || Ascii.eqb c "_".

Fixpoint string_forall (P : ascii -> bool) (s : string) : bool :=
  match s with
  | EmptyString => true
  | String c rest => P c && string_forall P rest
  end.

(** What the two substitutions make of one character. *)
Definition url_char (c : ascii) : ascii :=
  if Ascii.eqb c "+" then "-"%char
  else if Ascii.eqb c "/" then "_"%char else c.

Definition rawurl (s : string) : string :=
  ReplaceAll (ReplaceAll (ReplaceAll s "+" "-") "/" "_") "=" "".

(** The position in the URL-safe alphabet, which undoes [encode] followed
    by the substitutions. *)
Definition url_index (c : ascii) : option N :=
  decodeMap (if Ascii.eqb c "-" then "+"%char
             else if Ascii.eqb c "_" then "/"%char else c).

(** One character of the output, from the low six bits of [x]. *)
Definition sextet (x : N) : ascii := url_char (encode (N.land x 63)).

Definition val1 (b0 : byte) : N := N.shiftl (uint b0) 16.
Definition val2 (b0 b1 : byte) : N :=
  N.lor (N.shiftl (uint b0) 16) (N.shiftl (uint b1) 8).
Definition val3 (b0 b1 b2 : byte) : N :=
  N.lor (N.lor (N.shiftl (uint b0) 16) (N.shiftl (uint b1) 8)) (uint b2).



(** The bytes that come out of [QueryEscape]: the unreserved ones, '+'
    for a space, and '%' before two hexadecimal digits. *)
Definition escaped_char (c : ascii) : bool :=
  URL.unreserved c || Ascii.eqb c "+" || Ascii.eqb c "%".

Definition is_ascii (c : ascii) : bool := N_of_ascii c <? 128.

End EncodingNotions.

(** * Properties *)

(** ** token.go: validation of the claims *)

Section ValidateIDToken.

Import Token.

Variables (claims : IDTokenClaims) (expectedAudience : string) (now : Z).

Local Open Scope Z_scope.

Lemma found_in_singleton (a e : string) :
  found_in [a] e = String.eqb a e.
Proof. simpl. destruct (String.eqb a e); reflexivity. Qed.

(** The audience check: with an expected audience given, the token passes
    exactly when its own audience is that string. *)
Lemma audience_check :
  expectedAudience <> "" ->
  found_in (if negb (String.eqb (Audience claims) "")
            then [Audience claims] else []) expectedAudience
  = String.eqb (Audience claims) expectedAudience.
Proof.
  intros Hne.
  destruct (String.eqb_spec (Audience claims) "") as [E | E]; simpl.
  - rewrite E. symmetry. apply String.eqb_neq. congruence.
  - destruct (String.eqb (Audience claims) expectedAudience); reflexivity.
Qed.

(** C3. ValidateIDToken reports Expired exactly when exp < now (so exp = now
    passes); otherwise IssuedInFuture exactly when iat > now; otherwise
    AudienceMismatch exactly when the expected audience is non-empty and
    differs from the audience of the token; otherwise it succeeds. *)
Theorem ValidateIDToken_first_failing_check :
  (ValidateIDToken claims expectedAudience now
     = Some (ErrExpired (Expiration claims) now)
   <-> Expiration claims < now) /\
  (ValidateIDToken claims expectedAudience now
     = Some (ErrIssuedInFuture (IssuedAt claims) now)
   <-> ~ Expiration claims < now /\ IssuedAt claims > now) /\
  (ValidateIDToken claims expectedAudience now = Some ErrAudience
   <-> ~ Expiration claims < now /\ ~ IssuedAt claims > now /\
       expectedAudience <> "" /\ expectedAudience <> Audience claims) /\
  (ValidateIDToken claims expectedAudience now = None
   <-> ~ Expiration claims < now /\ ~ IssuedAt claims > now /\
       (expectedAudience = "" \/ expectedAudience = Audience claims)).
Proof.
  unfold ValidateIDToken.
  destruct (Z.ltb_spec (Expiration claims) now) as [Hexp | Hexp].
  { repeat split; intros; try tauto; try discriminate; try lia;
      destruct_and?; lia. }
  destruct (Z.gtb_spec (IssuedAt claims) now) as [Hiat | Hiat].
  { repeat split; intros; try tauto; try discriminate; try lia;
      destruct_and?; lia. }
  destruct (String.eqb_spec expectedAudience "") as [Hempty | Hempty]; simpl.
  { repeat split; intros; try tauto; try discriminate; try lia;
      destruct_and?; try lia; try congruence; auto. }
  rewrite (audience_check Hempty).
  destruct (String.eqb_spec (Audience claims) expectedAudience) as [Ha | Ha];
    simpl.
  - repeat split; intros; try tauto; try discriminate; try lia;
      destruct_and?; try lia; try congruence; auto.
  - repeat split; intros; try tauto; try discriminate; try lia;
      destruct_and?; try lia; try congruence; auto.
    destruct_or?; congruence.
Qed.

End ValidateIDToken.

(** ** token.go: the three segments and the padding of the payload *)

Section Split.

Import Strings.

Lemma Split_nonempty (s : string) (sep : ascii) : Split s sep <> [].
Proof.
  destruct s as [| c s]; simpl; [discriminate |].
  destruct (Ascii.eqb c sep); [discriminate |].
  destruct (Split s sep); discriminate.
Qed.

(** A string with n separators splits into n+1 pieces. *)
Lemma Split_length (s : string) (sep : ascii) :
  length (Split s sep) = S (count_byte sep s).
Proof.
  induction s as [| c s IH]; simpl; [reflexivity |].
  destruct (Ascii.eqb c sep); simpl; [now rewrite IH |].
  destruct (Split s sep) eqn:E; simpl in *; [discriminate | exact IH].
Qed.

Lemma Split_no_sep (s : string) (sep : ascii) :
  count_byte sep s = 0 -> Split s sep = [s].
Proof.
  induction s as [| c s IH]; simpl; [reflexivity |].
  destruct (Ascii.eqb c sep); simpl; [discriminate |].
  intros H. now rewrite (IH H).
Qed.

Lemma Split_app (a b : string) (sep : ascii) :
  count_byte sep a = 0 ->
  Split (a +:+ String sep b) sep = a :: Split b sep.
Proof.
  induction a as [| c a IH]; simpl.
  - intros _. now rewrite Ascii.eqb_refl.
  - destruct (Ascii.eqb c sep); simpl; [discriminate |].
    intros H. now rewrite (IH H).
Qed.

End Split.

Section ParseIDToken.

Import Token.

Lemma base64URLDecode_cases (s : string) :
  base64URLDecode s =
  match with_padding s with
  | Some padded => decode_padded padded
  | None => inr ErrInvalidLength
  end.
Proof. unfold base64URLDecode. destruct (with_padding s); reflexivity. Qed.

Lemma with_padding_mod (s : string) :
  with_padding s =
  if (String.length s mod 4 =? 0)%nat then Some s
  else if (String.length s mod 4 =? 2)%nat then Some (s +:+ "==")
  else if (String.length s mod 4 =? 3)%nat then Some (s +:+ "=")
  else None.
Proof.
  unfold with_padding.
  destruct (String.length s mod 4)%nat as [| [| [| [| n]]]]; reflexivity.
Qed.

(** ParseIDToken on a token of three segments goes on with the middle one. *)
Lemma ParseIDToken_three (idToken h p sg : string) :
  Strings.Split idToken "." = [h; p; sg] ->
  ParseIDToken idToken =
  match base64URLDecode p with
  | inr err => inr (ErrDecodePayload err)
  | inl payload =>
      match Unmarshal payload zero with
      | inr err => inr (ErrParseClaims err)
      | inl claims =>
          inl {| Issuer := Issuer claims; Subject := Subject claims;
                 Audience := Audience claims;
                 Expiration := Expiration claims;
                 IssuedAt := IssuedAt claims;
                 Name := Name claims; Email := Email claims;
                 EmailVerified := EmailVerified claims;
                 Picture := Picture claims;
                 GivenName := GivenName claims;
                 FamilyName := FamilyName claims;
                 Locale := Locale claims;
                 rawHeader := h; rawPayload := p; rawSignature := sg |}
      end
  end.
Proof. intros E. unfold ParseIDToken. rewrite E. reflexivity. Qed.

(** C10. On a token of three segments, a payload whose length is 2 or 3
    modulo 4 is decoded after two or one '=' have been appended, and a
    payload whose length is 1 modulo 4 makes ParseIDToken fail with the
    invalid-length error, which is not an error of the decoder. *)
Theorem payload_padding_by_length (idToken h p sg : string)
  (Hparts : Strings.Split idToken "." = [h; p; sg]) :
  ((String.length p mod 4 = 2)%nat ->
     base64URLDecode p = decode_padded (p +:+ "==")) /\
  ((String.length p mod 4 = 3)%nat ->
     base64URLDecode p = decode_padded (p +:+ "=")) /\
  ((String.length p mod 4 = 1)%nat ->
     base64URLDecode p = inr ErrInvalidLength /\
     ParseIDToken idToken = inr (ErrDecodePayload ErrInvalidLength)) /\
  (forall e, ParseIDToken idToken = inr (ErrDecodePayload e)
             <-> base64URLDecode p = inr e).
Proof.
  rewrite (ParseIDToken_three idToken h p sg Hparts).
  rewrite base64URLDecode_cases, with_padding_mod.
  split; [| split; [| split]].
  - intros ->. reflexivity.
  - intros ->. reflexivity.
  - intros ->. split; reflexivity.
  - intros e.
    destruct (if (String.length p mod 4 =? 0)%nat then _ else _)
      as [padded |].
    + destruct (decode_padded padded) as [payload | e'].
      * destruct (Unmarshal payload zero); split; discriminate.
      * split; congruence.
    + split; congruence.
Qed.

End ParseIDToken.

(** ** The URL-safe alphabet without padding *)

(** ** token.go: ParseIDToken on malformed and well-formed tokens *)

Section ParseIDToken_examples.

Import Token.

Lemma example_segment_no_dot : count_byte "." example_segment = 0.
Proof. vm_compute. reflexivity. Qed.

Lemma example_segment_decodes :
  base64URLDecode example_segment
  = inl (list_byte_of_string example_payload).
Proof. vm_compute. reflexivity. Qed.

Lemma example_payload_unmarshals :
  Unmarshal (list_byte_of_string example_payload) zero
  = inl {| Issuer := "https://example.com"; Subject := "123";
           Audience := "client1";
           Expiration := 9999999999; IssuedAt := 1000000000;
           Name := ""; Email := ""; EmailVerified := false; Picture := "";
           GivenName := ""; FamilyName := ""; Locale := "";
           rawHeader := ""; rawPayload := ""; rawSignature := "" |}.
Proof. vm_compute. reflexivity. Qed.

Lemma Split_three (h p sg : string) :
  count_byte "." h = 0 -> count_byte "." p = 0 -> count_byte "." sg = 0 ->
  Strings.Split (h +:+ "." +:+ p +:+ "." +:+ sg) "." = [h; p; sg].
Proof.
  intros Hh Hp Hs.
  change (h +:+ "." +:+ p +:+ "." +:+ sg)
    with (h +:+ String "." (p +:+ String "." sg)).
  rewrite (Split_app h _ "." Hh), (Split_app p _ "." Hp).
  now rewrite (Split_no_sep sg "." Hs).
Qed.

Lemma ParseIDToken_format (idToken : string) :
  count_byte "." idToken <> 2 ->
  ParseIDToken idToken = inr (ErrFormat (S (count_byte "." idToken))).
Proof.
  intros H. unfold ParseIDToken. rewrite Split_length.
  destruct (Nat.eqb_spec (S (count_byte "." idToken)) 3) as [E | E];
    [lia | reflexivity].
Qed.

(** C4. ParseIDToken fails with the format error on every input that does
    not consist of exactly three dot-separated segments, in particular on
    "abc.def"; on a token of three segments whose payload is the base64url
    form of the example claims it succeeds, and the subject is "123". *)
Theorem ParseIDToken_segments (header signature : string)
  (Hheader : count_byte "." header = 0)
  (Hsignature : count_byte "." signature = 0) :
  (forall idToken,
      length (Strings.Split idToken ".") = S (count_byte "." idToken) /\
      (length (Strings.Split idToken ".") <> 3 ->
       ParseIDToken idToken
       = inr (ErrFormat (length (Strings.Split idToken "."))))) /\
  ParseIDToken "abc.def" = inr (ErrFormat 2) /\
  ParseIDToken (header +:+ "." +:+ example_segment +:+ "." +:+ signature)
  = inl (example_claims header signature) /\
  Subject (example_claims header signature) = "123".
Proof.
  split; [| split; [| split]].
  - intros idToken. split; [apply Split_length |].
    rewrite Split_length. intros H. apply ParseIDToken_format. lia.
  - reflexivity.
  - rewrite (ParseIDToken_three _ header example_segment signature).
    + rewrite example_segment_decodes, example_payload_unmarshals.
      reflexivity.
    + apply Split_three; auto using example_segment_no_dot.
  - reflexivity.
Qed.

End ParseIDToken_examples.

(** ** pkce.go: the alphabet and the length of what it encodes *)

Section RawURLEncode.

Import Base64 Strings.

Local Open Scope N_scope.

(** A property checked on 0..63 holds below 64. *)
Lemma below_64 (P : N -> bool) :
  forallb P (map N.of_nat (seq 0 64)) = true ->
  forall i, i < 64 -> P i = true.
Proof.
  intros H i Hi. rewrite forallb_forall in H. apply H.
  rewrite <- (N2Nat.id i). apply in_map. apply in_seq. lia.
Qed.

Lemma land_63_lt (x : N) : N.land x 63 < 64.
Proof.
  change 63 with (N.ones 6). rewrite N.land_ones.
  apply N.mod_lt. discriminate.
Qed.

Lemma rawurl_cons (c : ascii) (s : string) :
  rawurl (String c s)
  = if Ascii.eqb c "=" then rawurl s else String (url_char c) (rawurl s).
Proof.
  unfold rawurl, url_char. cbn [ReplaceAll].
  destruct (Ascii.eqb_spec c "+") as [-> | H1]; [reflexivity |].
  cbn [ReplaceAll].
  destruct (Ascii.eqb_spec c "/") as [-> | H2]; [reflexivity |].
  cbn [ReplaceAll].
  destruct (Ascii.eqb c "="); reflexivity.
Qed.

Lemma encode_not_pad (i : N) : i < 64 -> Ascii.eqb (encode i) "=" = false.
Proof.
  intros Hi. apply negb_true_iff.
  apply (below_64 (fun i => negb (Ascii.eqb (encode i) "=")));
    [vm_compute; reflexivity | exact Hi].
Qed.

Lemma encode_urlsafe (i : N) :
  i < 64 -> is_urlsafe (url_char (encode i)) = true.
Proof.
  apply (below_64 (fun i => is_urlsafe (url_char (encode i)))).
  vm_compute. reflexivity.
Qed.

Lemma url_index_encode (i : N) :
  i < 64 -> url_index (url_char (encode i)) = Some i.
Proof.
  intros Hi.
  apply (below_64 (fun i =>
           bool_decide (url_index (url_char (encode i)) = Some i))) in Hi.
  - now apply bool_decide_eq_true in Hi.
  - vm_compute. reflexivity.
Qed.

Lemma url_char_encode_inj (i j : N) :
  i < 64 -> j < 64 ->
  url_char (encode i) = url_char (encode j) -> i = j.
Proof.
  intros Hi Hj E. apply (f_equal url_index) in E.
  rewrite !url_index_encode in E by assumption. congruence.
Qed.

Lemma rawurl_encode (x : N) (s : string) :
  rawurl (String (encode (N.land x 63)) s) = String (sextet x) (rawurl s).
Proof.
  rewrite rawurl_cons, encode_not_pad by apply land_63_lt. reflexivity.
Qed.

Lemma rawurl_pad (s : string) : rawurl (String padChar s) = rawurl s.
Proof. rewrite rawurl_cons. reflexivity. Qed.

Lemma RawURLEncode_nil : RawURLEncode [] = "".
Proof. reflexivity. Qed.

Lemma RawURLEncode_1 (b0 : byte) :
  RawURLEncode [b0]
  = String (sextet (N.shiftr (val1 b0) 18))
      (String (sextet (N.shiftr (val1 b0) 12)) "").
Proof.
  unfold RawURLEncode. cbn [EncodeToString]. fold (val1 b0).
  change (ReplaceAll (ReplaceAll (ReplaceAll ?s "+" "-") "/" "_") "=" "")
    with (rawurl s).
  now rewrite !rawurl_encode, !rawurl_pad.
Qed.

Lemma RawURLEncode_2 (b0 b1 : byte) :
  RawURLEncode [b0; b1]
  = String (sextet (N.shiftr (val2 b0 b1) 18))
      (String (sextet (N.shiftr (val2 b0 b1) 12))
         (String (sextet (N.shiftr (val2 b0 b1) 6)) "")).
Proof.
  unfold RawURLEncode. cbn [EncodeToString]. fold (val2 b0 b1).
  change (ReplaceAll (ReplaceAll (ReplaceAll ?s "+" "-") "/" "_") "=" "")
    with (rawurl s).
  now rewrite !rawurl_encode, !rawurl_pad.
Qed.

Lemma RawURLEncode_3 (b0 b1 b2 : byte) (rest : list byte) :
  RawURLEncode (b0 :: b1 :: b2 :: rest)
  = String (sextet (N.shiftr (val3 b0 b1 b2) 18))
      (String (sextet (N.shiftr (val3 b0 b1 b2) 12))
         (String (sextet (N.shiftr (val3 b0 b1 b2) 6))
            (String (sextet (val3 b0 b1 b2)) (RawURLEncode rest)))).
Proof.
  unfold RawURLEncode. cbn [EncodeToString]. fold (val3 b0 b1 b2).
  change (ReplaceAll (ReplaceAll (ReplaceAll ?s "+" "-") "/" "_") "=" "")
    with (rawurl s).
  now rewrite !rawurl_encode.
Qed.

(** Induction on a list three elements at a time, as the encoder reads. *)
Lemma list_ind3 {A} (P : list A -> Prop) :
  P [] -> (forall a, P [a]) -> (forall a b, P [a; b]) ->
  (forall a b c l, P l -> P (a :: b :: c :: l)) ->
  forall l, P l.
Proof.
  intros H0 H1 H2 H3.
  fix IH 1.
  intros [| a [| b [| c l]]];
    [exact H0 | exact (H1 a) | exact (H2 a b) | exact (H3 a b c l (IH l))].
Qed.

Lemma sextet_urlsafe (x : N) : is_urlsafe (sextet x) = true.
Proof. apply encode_urlsafe, land_63_lt. Qed.

(** Every character of the output is in the URL-safe alphabet. *)
Lemma RawURLEncode_alphabet (b : list byte) :
  string_forall is_urlsafe (RawURLEncode b) = true.
Proof.
  induction b as [| b0 | b0 b1 | b0 b1 b2 rest IH] using list_ind3.
  - reflexivity.
  - rewrite RawURLEncode_1. cbn [string_forall].
    now rewrite !sextet_urlsafe.
  - rewrite RawURLEncode_2. cbn [string_forall].
    now rewrite !sextet_urlsafe.
  - rewrite RawURLEncode_3. cbn [string_forall].
    now rewrite !sextet_urlsafe, IH.
Qed.

(** n bytes give ceil(8n/6) characters. *)
Lemma RawURLEncode_length (b : list byte) :
  String.length (RawURLEncode b) = ((length b * 8 + 5) / 6)%nat.
Proof.
  induction b as [| b0 | b0 b1 | b0 b1 b2 rest IH] using list_ind3.
  - reflexivity.
  - rewrite RawURLEncode_1. reflexivity.
  - rewrite RawURLEncode_2. reflexivity.
  - rewrite RawURLEncode_3. cbn [String.length length]. rewrite IH.
    replace (S (S (S (length rest))) * 8 + 5)%nat
      with ((length rest * 8 + 5) + 4 * 6)%nat by lia.
    rewrite Nat.div_add by discriminate. lia.
Qed.

End RawURLEncode.

Section Sextets.

Import Base64.

Local Open Scope N_scope.

Lemma lor_disjoint (x y : N) : N.land x y = 0 -> N.lor x y = x + y.
Proof.
  intros H. rewrite <- (N.lxor_lor _ _ H). symmetry.
  now apply N.add_nocarry_lxor.
Qed.

Lemma land_shiftl_small (x y k : N) :
  y < 2 ^ k -> N.land (N.shiftl x k) y = 0.
Proof.
  intros Hy. apply N.bits_inj_0. intros n. rewrite N.land_spec.
  destruct (N.lt_ge_cases n k) as [Hn | Hn].
  - now rewrite N.shiftl_spec_low.
  - rewrite <- (N.mod_small y (2 ^ k)) by assumption.
    rewrite N.mod_pow2_bits_high by assumption. apply andb_false_r.
Qed.

Lemma lor_shiftl_small (x y k : N) :
  y < 2 ^ k -> N.lor (N.shiftl x k) y = x * 2 ^ k + y.
Proof.
  intros Hy. rewrite lor_disjoint by now apply land_shiftl_small.
  now rewrite N.shiftl_mul_pow2.
Qed.

Lemma uint_lt (b : byte) : uint b < 256.
Proof. unfold uint. pose proof (Byte.to_N_bounded b). lia. Qed.

Lemma uint_inj (a b : byte) : uint a = uint b -> a = b.
Proof.
  unfold uint. intros E.
  pose proof (Byte.of_to_N a) as Ha. rewrite E, Byte.of_to_N in Ha.
  congruence.
Qed.

Lemma val2_value (b0 b1 : byte) :
  N.lor (N.shiftl (uint b0) 16) (N.shiftl (uint b1) 8)
  = uint b0 * 65536 + uint b1 * 256.
Proof.
  rewrite lor_disjoint.
  - rewrite !N.shiftl_mul_pow2. reflexivity.
  - change 16 with (8 + 8). rewrite <- N.shiftl_shiftl, <- N.shiftl_land.
    rewrite (land_shiftl_small (uint b0) (uint b1) 8) by apply uint_lt.
    apply N.shiftl_0_l.
Qed.

Lemma val3_value (b0 b1 b2 : byte) :
  N.lor (N.lor (N.shiftl (uint b0) 16) (N.shiftl (uint b1) 8)) (uint b2)
  = uint b0 * 65536 + uint b1 * 256 + uint b2.
Proof.
  rewrite lor_disjoint; [now rewrite val2_value |].
  change 16 with (8 + 8). rewrite <- N.shiftl_shiftl, <- N.shiftl_lor.
  apply land_shiftl_small, uint_lt.
Qed.

Lemma low6 (x : N) : N.land x 63 = x mod 64.
Proof. change 63 with (N.ones 6). now rewrite N.land_ones. Qed.

Ltac euclid :=
  zify; Z.to_euclidean_division_equations; lia.

(** A value below 2^24 is made of its four six-bit groups. *)
Lemma sextets_value (v : N) :
  v < 16777216 ->
  v = (v / 262144) mod 64 * 262144 + (v / 4096) mod 64 * 4096
      + (v / 64) mod 64 * 64 + v mod 64.
Proof. intros. euclid. Qed.

Lemma sextets_eq (v v' : N) :
  v < 16777216 -> v' < 16777216 ->
  (v / 2 ^ 18) mod 64 = (v' / 2 ^ 18) mod 64 ->
  (v / 2 ^ 12) mod 64 = (v' / 2 ^ 12) mod 64 ->
  (v / 2 ^ 6) mod 64 = (v' / 2 ^ 6) mod 64 ->
  v mod 64 = v' mod 64 ->
  v = v'.
Proof.
  change (2 ^ 18) with 262144. change (2 ^ 12) with 4096.
  change (2 ^ 6) with 64.
  intros Hv Hv' E1 E2 E3 E4.
  rewrite (sextets_value v Hv), (sextets_value v' Hv'), E1, E2, E3, E4.
  reflexivity.
Qed.

Lemma low_zero2 (a b : N) : (a * 65536 + b * 256) mod 64 = 0.
Proof. euclid. Qed.

Lemma low_zero1 (a : N) :
  (a * 65536 / 2 ^ 6) mod 64 = 0 /\ (a * 65536) mod 64 = 0.
Proof. change (2 ^ 6) with 64. split; euclid. Qed.

(** The six-bit groups of one, two and three bytes determine the bytes. *)
Lemma sextets1_inj (a a' : N) :
  a < 256 -> a' < 256 ->
  (a * 65536 / 2 ^ 18) mod 64 = (a' * 65536 / 2 ^ 18) mod 64 ->
  (a * 65536 / 2 ^ 12) mod 64 = (a' * 65536 / 2 ^ 12) mod 64 ->
  a = a'.
Proof.
  intros Ha Ha' E1 E2.
  assert (a * 65536 = a' * 65536) as E; [| lia].
  destruct (low_zero1 a) as [Z1 Z2], (low_zero1 a') as [Z1' Z2'].
  apply sextets_eq; try lia; congruence.
Qed.

Lemma sextets2_inj (a b a' b' : N) :
  a < 256 -> b < 256 -> a' < 256 -> b' < 256 ->
  let v := a * 65536 + b * 256 in
  let v' := a' * 65536 + b' * 256 in
  (v / 2 ^ 18) mod 64 = (v' / 2 ^ 18) mod 64 ->
  (v / 2 ^ 12) mod 64 = (v' / 2 ^ 12) mod 64 ->
  (v / 2 ^ 6) mod 64 = (v' / 2 ^ 6) mod 64 ->
  a = a' /\ b = b'.
Proof.
  intros Ha Hb Ha' Hb' v v' E1 E2 E3.
  assert (v = v') as E; [| subst v v'; lia].
  apply sextets_eq; try assumption; subst v v'; try lia.
  now rewrite !low_zero2.
Qed.

Lemma sextets3_inj (a b c a' b' c' : N) :
  a < 256 -> b < 256 -> c < 256 -> a' < 256 -> b' < 256 -> c' < 256 ->
  let v := a * 65536 + b * 256 + c in
  let v' := a' * 65536 + b' * 256 + c' in
  (v / 2 ^ 18) mod 64 = (v' / 2 ^ 18) mod 64 ->
  (v / 2 ^ 12) mod 64 = (v' / 2 ^ 12) mod 64 ->
  (v / 2 ^ 6) mod 64 = (v' / 2 ^ 6) mod 64 ->
  v mod 64 = v' mod 64 ->
  a = a' /\ b = b' /\ c = c'.
Proof.
  intros Ha Hb Hc Ha' Hb' Hc' v v' E1 E2 E3 E4.
  assert (v = v') as E; [| subst v v'; lia].
  apply sextets_eq; try assumption; subst v v'; lia.
Qed.

Lemma sextet_inj (x y : N) :
  sextet x = sextet y -> x mod 64 = y mod 64.
Proof.
  unfold sextet. intros E.
  apply url_char_encode_inj in E; try apply land_63_lt.
  now rewrite !low6 in E.
Qed.

(** Two byte strings of the same length with the same encoding are the
    same. *)
Lemma RawURLEncode_inj (b : list byte) :
  forall b', length b = length b' ->
             RawURLEncode b = RawURLEncode b' -> b = b'.
Proof.
  induction b as [| b0 | b0 b1 | b0 b1 b2 rest IH] using list_ind3;
    intros b' Hlen E.
  - destruct b'; [reflexivity | discriminate].
  - destruct b' as [| c0 [| ? ?]]; try discriminate.
    rewrite !RawURLEncode_1 in E. injection E as E1 E2.
    apply sextet_inj in E1, E2. unfold val1 in *.
    rewrite !N.shiftr_div_pow2, !N.shiftl_mul_pow2 in *.
    change (2 ^ 16) with 65536 in *.
    f_equal. apply uint_inj.
    apply (sextets1_inj _ _ (uint_lt b0) (uint_lt c0)); assumption.
  - destruct b' as [| c0 [| c1 [| ? ?]]]; try discriminate.
    rewrite !RawURLEncode_2 in E. injection E as E1 E2 E3.
    apply sextet_inj in E1, E2, E3. unfold val2 in *.
    rewrite !val2_value, !N.shiftr_div_pow2 in *.
    destruct (sextets2_inj _ _ _ _ (uint_lt b0) (uint_lt b1)
                (uint_lt c0) (uint_lt c1) E1 E2 E3) as [Ha Hb].
    apply uint_inj in Ha, Hb. congruence.
  - destruct b' as [| c0 [| c1 [| c2 rest']]]; try discriminate.
    rewrite !RawURLEncode_3 in E. injection E as E1 E2 E3 E4 E5.
    apply sextet_inj in E1, E2, E3, E4. unfold val3 in *.
    rewrite !val3_value, !N.shiftr_div_pow2 in *.
    destruct (sextets3_inj _ _ _ _ _ _ (uint_lt b0) (uint_lt b1) (uint_lt b2)
                (uint_lt c0) (uint_lt c1) (uint_lt c2) E1 E2 E3 E4)
      as (Ha & Hb & Hc).
    apply uint_inj in Ha, Hb, Hc. subst.
    f_equal. f_equal. f_equal. apply IH; [simpl in Hlen; lia | exact E5].
Qed.

End Sextets.

(** ** pkce.go: verifier and challenge *)

Section PKCE.

Import PKCE.

(** C5. Whatever 32 bytes the random source delivers, the verifier is 43
    characters long, hence within [43,128], and made of A-Z, a-z, 0-9, '-'
    and '_' only; and GenerateCodeVerifier fails exactly when the random
    source reports an error. *)
Theorem GenerateCodeVerifier_length_and_alphabet (rand_Read : Reader)
  (Hfill : forall b, length (fst (rand_Read b)) = length b) :
  match snd (rand_Read (repeat x00 32)) with
  | Some e => GenerateCodeVerifier rand_Read = inr (ErrRandom e)
  | None =>
      exists v,
        GenerateCodeVerifier rand_Read = inl v /\
        String.length v = 43 /\
        43 <= String.length v <= 128 /\
        string_forall is_urlsafe v = true
  end.
Proof.
  unfold GenerateCodeVerifier.
  specialize (Hfill (repeat x00 32)).
  destruct (rand_Read (repeat x00 32)) as [b [e |]]; cbn [fst snd] in *.
  - reflexivity.
  - exists (RawURLEncode b).
    assert (String.length (RawURLEncode b) = 43) as Hlen.
    { rewrite RawURLEncode_length, Hfill. reflexivity. }
    split; [reflexivity |]. split; [exact Hlen |].
    split; [lia | apply RawURLEncode_alphabet].
Qed.

(** C6. The challenge is a function of the verifier alone: deriving it
    twice gives the same string, and a verifier verifies against its own
    challenge. *)
Theorem CreateCodeChallenge_deterministic (v : PKCECodeVerifier) :
  let first := CreateCodeChallenge v in
  let second := CreateCodeChallenge v in
  first = second /\
  VerifyCodeChallenge v (CreateCodeChallenge v) = true.
Proof.
  cbv zeta. split; [reflexivity |].
  unfold VerifyCodeChallenge. apply String.eqb_refl.
Qed.

Lemma CreateCodeChallenge_digest (v : PKCECodeVerifier) :
  CreateCodeChallenge v = RawURLEncode (sha256 v).
Proof. reflexivity. Qed.

Lemma sha256_length (v : string) : length (sha256 v) = 32.
Proof.
  unfold sha256, Sha256.Sum, Sha256.checkSum, Sha256.PutUint32.
  reflexivity.
Qed.


End PKCE.

(** ** Why distinct verifiers cannot all have distinct challenges

    There are infinitely many verifiers and at most 2^256 digests. *)

Section Pigeonhole.

Local Open Scope N_scope.









End Pigeonhole.

(** ** callback.go: what a request publishes *)

Section Handler.

Import Chan Server.

Lemma send_err_room (e : string) (g : parked) (s : CallbackServer) :
  length (buf (errChan s)) < cap (errChan s) ->
  send_err e g s
  = resume g (set_errChan (Chan (cap (errChan s)) (buf (errChan s) ++ [e])
                                (sendq (errChan s))) s).
Proof.
  intros H. unfold send_err, send.
  destruct (Nat.ltb_spec (length (buf (errChan s))) (cap (errChan s)));
    [reflexivity | lia].
Qed.

Lemma send_err_full (e : string) (g : parked) (s : CallbackServer) :
  cap (errChan s) <= length (buf (errChan s)) ->
  send_err e g s
  = set_errChan (Chan (cap (errChan s)) (buf (errChan s))
                      (sendq (errChan s) ++ [(e, g)])) s.
Proof.
  intros H. unfold send_err, send.
  destruct (Nat.ltb_spec (length (buf (errChan s))) (cap (errChan s)));
    [lia | reflexivity].
Qed.

Lemma send_code_room (c : string) (g : parked) (s : CallbackServer) :
  length (buf (codeChan s)) < cap (codeChan s) ->
  send_code c g s
  = resume g (set_codeChan (Chan (cap (codeChan s)) (buf (codeChan s) ++ [c])
                                 (sendq (codeChan s))) s).
Proof.
  intros H. unfold send_code, send.
  destruct (Nat.ltb_spec (length (buf (codeChan s))) (cap (codeChan s)));
    [reflexivity | lia].
Qed.

Lemma send_code_full (c : string) (g : parked) (s : CallbackServer) :
  cap (codeChan s) <= length (buf (codeChan s)) ->
  send_code c g s
  = set_codeChan (Chan (cap (codeChan s)) (buf (codeChan s))
                       (sendq (codeChan s) ++ [(c, g)])) s.
Proof.
  intros H. unfold send_code, send.
  destruct (Nat.ltb_spec (length (buf (codeChan s))) (cap (codeChan s)));
    [lia | reflexivity].
Qed.

(** What the handler does, by the branch it takes. *)
Lemma handleCallback_branches (r : Request) (s : CallbackServer) :
  let code := Get (Query r) "code" in
  let errMsg := Get (Query r) "error" in
  let errDesc := Get (Query r) "error_description" in
  handleCallback r s =
  if String.eqb code "" then
    send_err "no authorization code received"
      (InHandlerError (http_Error "No authorization code received"
                                  StatusBadRequest)) s
  else if String.eqb errMsg "" then send_code code (InHandlerCode code) s
  else
    send_err ("oauth error: " +:+ errMsg +:+ " - " +:+ errDesc)
      (InHandlerError (http_Error ("OAuth error: " +:+ errMsg +:+ " - "
                                   +:+ errDesc) StatusBadRequest)) s.
Proof.
  cbv zeta. unfold handleCallback.
  destruct (String.eqb (Get (Query r) "code") ""); [reflexivity |].
  destruct (String.eqb (Get (Query r) "error") ""); reflexivity.
Qed.


(** C2, on the code. A redirect that carries `error` and
    `error_description` but no `code` is answered with 400, yet the outcome
    handed to the waiting caller is the generic missing-code error: the
    error code and its description are not in it. *)
Theorem provider_error_without_code_is_generic :
  let r := request [("error", "access_denied");
                    ("error_description", "User denied access")] in
  let s := handleCallback r (NewCallbackServer 8080 "/oauth/callback") in
  buf (errChan s) = ["no authorization code received"] /\
  buf (codeChan s) = [] /\
  map StatusCode (responses s) = [StatusBadRequest] /\
  map Body (responses s)
  = ["No authorization code received" +:+ String "010" EmptyString] /\
  WaitForCode None 0 s
  = Some (("", Some "no authorization code received"),
          set_errChan (make 1) s).
Proof. vm_compute. repeat split; reflexivity. Qed.

End Handler.

(** ** callback.go: sends and receives, counted *)

Section Counting.

Import Chan Server.

Lemma handlers_in_app (q1 q2 : list (string * parked)) :
  handlers_in (q1 ++ q2) = handlers_in q1 + handlers_in q2.
Proof. unfold handlers_in. now rewrite List.filter_app, length_app. Qed.

Lemma serves_in_app (q1 q2 : list (string * parked)) :
  serves_in (q1 ++ q2) = serves_in q1 + serves_in q2.
Proof. unfold serves_in. now rewrite List.filter_app, length_app. Qed.

Lemma handlers_serves (q : list (string * parked)) :
  handlers_in q + serves_in q = length q.
Proof.
  unfold handlers_in, serves_in.
  induction q as [| [v g] q IH]; [reflexivity |].
  cbn. destruct (is_handler g); cbn; lia.
Qed.

(** What a send does to the channels and to the responses, for a sender
    that is a handler. *)
Lemma send_err_handler (e : string) (g : parked) (s : CallbackServer) :
  is_handler g = true ->
  let s' := send_err e g s in
  codeChan s' = codeChan s /\
  cap (errChan s') = cap (errChan s) /\
  (length (buf (errChan s)) <= 1 -> cap (errChan s) = 1 ->
   length (buf (errChan s')) <= 1) /\
  length (buf (errChan s')) + length (sendq (errChan s'))
  = S (length (buf (errChan s)) + length (sendq (errChan s))) /\
  length (responses s') + handlers_in (sendq (errChan s'))
  = S (length (responses s) + handlers_in (sendq (errChan s))) /\
  serves_in (sendq (errChan s')) = serves_in (sendq (errChan s)) /\
  server s' = server s /\ once s' = once s /\ serving s' = serving s /\
  shutdownWg s' = shutdownWg s.
Proof.
  intros Hg. cbv zeta.
  destruct (Nat.lt_ge_cases (length (buf (errChan s))) (cap (errChan s)))
    as [Hroom | Hfull].
  - rewrite send_err_room by assumption.
    destruct g; try discriminate; unfold handlers_in, serves_in; cbn;
      rewrite !length_app; cbn; repeat split; lia.
  - rewrite send_err_full by assumption. unfold set_errChan.
    cbn [codeChan errChan responses server once serving shutdownWg
         cap buf sendq].
    rewrite handlers_in_app, serves_in_app, length_app.
    unfold handlers_in at 2. unfold serves_in at 2. cbn. rewrite Hg. cbn.
    repeat split; lia.
Qed.

Lemma send_code_handler (c : string) (g : parked) (s : CallbackServer) :
  is_handler g = true ->
  let s' := send_code c g s in
  errChan s' = errChan s /\
  cap (codeChan s') = cap (codeChan s) /\
  (length (buf (codeChan s)) <= 1 -> cap (codeChan s) = 1 ->
   length (buf (codeChan s')) <= 1) /\
  length (buf (codeChan s')) + length (sendq (codeChan s'))
  = S (length (buf (codeChan s)) + length (sendq (codeChan s))) /\
  length (responses s') + handlers_in (sendq (codeChan s'))
  = S (length (responses s) + handlers_in (sendq (codeChan s))) /\
  serves_in (sendq (codeChan s')) = serves_in (sendq (codeChan s)) /\
  server s' = server s /\ once s' = once s /\ serving s' = serving s /\
  shutdownWg s' = shutdownWg s.
Proof.
  intros Hg. cbv zeta.
  destruct (Nat.lt_ge_cases (length (buf (codeChan s))) (cap (codeChan s)))
    as [Hroom | Hfull].
  - rewrite send_code_room by assumption.
    destruct g; try discriminate; unfold handlers_in, serves_in; cbn;
      rewrite !length_app; cbn; repeat split; lia.
  - rewrite send_code_full by assumption. unfold set_codeChan.
    cbn [codeChan errChan responses server once serving shutdownWg
         cap buf sendq].
    rewrite handlers_in_app, serves_in_app, length_app.
    unfold handlers_in at 2. unfold serves_in at 2. cbn. rewrite Hg. cbn.
    repeat split; lia.
Qed.

(** Every request hands in one outcome of its own, and is either answered
    or parked on its send. *)
Lemma handleCallback_counts (r : Request) (s : CallbackServer) :
  let s' := handleCallback r s in
  buffered s' + parked_senders s' = S (buffered s + parked_senders s) /\
  length (responses s') + parked_handlers s'
  = S (length (responses s) + parked_handlers s).
Proof.
  cbv zeta. rewrite handleCallback_branches.
  unfold buffered, parked_senders, parked_handlers.
  destruct (String.eqb (Get (Query r) "code") "").
  - destruct (send_err_handler "no authorization code received"
                (InHandlerError (http_Error "No authorization code received"
                                            StatusBadRequest)) s eq_refl)
      as (Ec & _ & _ & Hn & Hr & _).
    rewrite Ec. lia.
  - destruct (String.eqb (Get (Query r) "error") "").
    + destruct (send_code_handler (Get (Query r) "code")
                  (InHandlerCode (Get (Query r) "code")) s eq_refl)
        as (Ee & _ & _ & Hn & Hr & _).
      rewrite Ee. lia.
    + match goal with
      | |- context [send_err ?e ?g s] =>
          destruct (send_err_handler e g s eq_refl)
            as (Ec & _ & _ & Hn & Hr & _)
      end.
      rewrite Ec. lia.
Qed.

Lemma handleCallback_chan_ok (r : Request) (s : CallbackServer) :
  chan_ok (codeChan s) -> chan_ok (errChan s) ->
  chan_ok (codeChan (handleCallback r s)) /\
  chan_ok (errChan (handleCallback r s)).
Proof.
  intros [Hc1 Hc2] [He1 He2]. rewrite handleCallback_branches. cbv zeta.
  unfold chan_ok.
  destruct (String.eqb (Get (Query r) "code") "").
  - match goal with
    | |- context [send_err ?e ?g s] =>
        destruct (send_err_handler e g s eq_refl) as (Ec & Hcap & Hlen & _)
    end.
    rewrite Ec, Hcap. auto.
  - destruct (String.eqb (Get (Query r) "error") "").
    + match goal with
      | |- context [send_code ?e ?g s] =>
          destruct (send_code_handler e g s eq_refl) as (Ee & Hcap & Hlen & _)
      end.
      rewrite Ee, Hcap. auto.
    + match goal with
      | |- context [send_err ?e ?g s] =>
          destruct (send_err_handler e g s eq_refl) as (Ec & Hcap & Hlen & _)
      end.
      rewrite Ec, Hcap. auto.
Qed.

Lemma handleCallback_started (r : Request) (s : CallbackServer) :
  started s -> started (handleCallback r s).
Proof.
  intros (Hsrv & Honce & Hserving & Hcode & Hwg).
  rewrite handleCallback_branches. cbv zeta. unfold started.
  destruct (String.eqb (Get (Query r) "code") "").
  - match goal with
    | |- context [send_err ?e ?g s] =>
        destruct (send_err_handler e g s eq_refl)
          as (Ec & _ & _ & _ & _ & Hs & E1 & E2 & E3 & E4)
    end.
    rewrite Ec, Hs, E1, E2, E3, E4. auto.
  - destruct (String.eqb (Get (Query r) "error") "").
    + match goal with
      | |- context [send_code ?e ?g s] =>
          destruct (send_code_handler e g s eq_refl)
            as (Ee & _ & _ & _ & _ & Hs & E1 & E2 & E3 & E4)
      end.
      rewrite Ee, Hs, E1, E2, E3, E4. auto.
    + match goal with
      | |- context [send_err ?e ?g s] =>
          destruct (send_err_handler e g s eq_refl)
            as (Ec & _ & _ & _ & _ & Hs & E1 & E2 & E3 & E4)
      end.
      rewrite Ec, Hs, E1, E2, E3, E4. auto.
Qed.

(** A receive, when it goes through: either no sender was parked and the
    buffer loses its head, or the first parked sender is woken and its
    value takes the place at the tail. *)
Lemma recv_cases (ch ch' : chan string parked) (v : string)
    (g : option parked) :
  recv ch = Some (v, ch', g) ->
  cap ch' = cap ch /\
  ((g = None /\ sendq ch = [] /\ sendq ch' = [] /\ buf ch = v :: buf ch') \/
   (exists g0 v0 rest,
       g = Some g0 /\ sendq ch = (v0, g0) :: sendq ch' /\
       buf ch = v :: rest /\ buf ch' = (rest ++ [v0])%list)).
Proof.
  unfold recv.
  destruct (buf ch) as [| v1 rest]; [discriminate |].
  destruct (sendq ch) as [| [v0 g0] waiting]; intros [= <- <- <-]; cbn.
  - split; [reflexivity |]. left. auto.
  - split; [reflexivity |]. right. exists g0, v0, rest. auto.
Qed.

Lemma resume_channels (g : parked) (s : CallbackServer) :
  codeChan (resume g s) = codeChan s /\ errChan (resume g s) = errChan s.
Proof. destruct g; split; reflexivity. Qed.

Lemma resume_responses (g : parked) (s : CallbackServer) :
  length (responses (resume g s))
  = length (responses s) + (if is_handler g then 1 else 0).
Proof. destruct g; cbn; rewrite ?length_app; cbn; lia. Qed.

Lemma resume_life (g : parked) (s : CallbackServer) :
  server (resume g s) = server s /\ once (resume g s) = once s /\
  serving (resume g s) = serving s /\
  shutdownWg (resume g s)
  = shutdownWg s - (if is_handler g then 0 else 1).
Proof. destruct g; cbn; repeat split; lia. Qed.

(** The state after a receive on one of the two channels. *)
Lemma wake_code (ch : chan string parked) (g : option parked)
    (s : CallbackServer) :
  codeChan (wake g (set_codeChan ch s)) = ch /\
  errChan (wake g (set_codeChan ch s)) = errChan s /\
  length (responses (wake g (set_codeChan ch s)))
  = length (responses s)
    + match g with Some g0 => if is_handler g0 then 1 else 0 | None => 0 end /\
  server (wake g (set_codeChan ch s)) = server s /\
  once (wake g (set_codeChan ch s)) = once s /\
  serving (wake g (set_codeChan ch s)) = serving s /\
  shutdownWg (wake g (set_codeChan ch s))
  = shutdownWg s
    - match g with Some g0 => if is_handler g0 then 0 else 1 | None => 0 end.
Proof.
  destruct g as [g |]; cbn [wake].
  - destruct (resume_channels g (set_codeChan ch s)) as [-> ->].
    rewrite resume_responses.
    destruct (resume_life g (set_codeChan ch s)) as (-> & -> & -> & ->).
    cbn. repeat split.
  - cbn. repeat split; lia.
Qed.

Lemma wake_err (ch : chan string parked) (g : option parked)
    (s : CallbackServer) :
  codeChan (wake g (set_errChan ch s)) = codeChan s /\
  errChan (wake g (set_errChan ch s)) = ch /\
  length (responses (wake g (set_errChan ch s)))
  = length (responses s)
    + match g with Some g0 => if is_handler g0 then 1 else 0 | None => 0 end /\
  server (wake g (set_errChan ch s)) = server s /\
  once (wake g (set_errChan ch s)) = once s /\
  serving (wake g (set_errChan ch s)) = serving s /\
  shutdownWg (wake g (set_errChan ch s))
  = shutdownWg s
    - match g with Some g0 => if is_handler g0 then 0 else 1 | None => 0 end.
Proof.
  destruct g as [g |]; cbn [wake].
  - destruct (resume_channels g (set_errChan ch s)) as [-> ->].
    rewrite resume_responses.
    destruct (resume_life g (set_errChan ch s)) as (-> & -> & -> & ->).
    cbn. repeat split.
  - cbn. repeat split; lia.
Qed.

(** The counts before and after a receive that went through. *)
Lemma recv_counts (ch ch' : chan string parked) (v : string)
    (g : option parked) :
  recv ch = Some (v, ch', g) ->
  cap ch' = cap ch /\
  length (buf ch') <= length (buf ch) /\
  S (length (buf ch') + length (sendq ch'))
  = length (buf ch) + length (sendq ch) /\
  handlers_in (sendq ch')
  + match g with Some g0 => if is_handler g0 then 1 else 0 | None => 0 end
  = handlers_in (sendq ch) /\
  serves_in (sendq ch')
  + match g with Some g0 => if is_handler g0 then 0 else 1 | None => 0 end
  = serves_in (sendq ch).
Proof.
  intros H. apply recv_cases in H as [Hcap H]. split; [exact Hcap |].
  destruct H as [(-> & -> & -> & ->) | (g0 & v0 & rest & -> & -> & -> & ->)].
  - cbn. repeat split; lia.
  - rewrite length_app. unfold handlers_in, serves_in. cbn.
    destruct (is_handler g0); cbn; repeat split; lia.
Qed.

(** One call of WaitForCode takes at most one outcome out of the channels;
    a handler it wakes answers its request. *)
Lemma WaitForCode_counts (ctx : option string) (pick : nat)
    (s s' : CallbackServer) (res : string * option string) :
  WaitForCode ctx pick s = Some (res, s') ->
  (buffered s' + parked_senders s' <= buffered s + parked_senders s
   <= S (buffered s' + parked_senders s')) /\
  length (responses s') + parked_handlers s'
  = length (responses s) + parked_handlers s.
Proof.
  unfold WaitForCode, buffered, parked_senders, parked_handlers.
  destruct (_ !! _) as [[| |] |]; [| | | discriminate].
  - destruct (recv (codeChan s)) as [[[code ch] g] |] eqn:Hr; [| discriminate].
    intros [= <- <-].
    destruct (recv_counts _ _ _ _ Hr) as (_ & _ & Hn & Hh & _).
    destruct (wake_code ch g s) as (-> & -> & -> & _). lia.
  - destruct (recv (errChan s)) as [[[err ch] g] |] eqn:Hr; [| discriminate].
    intros [= <- <-].
    destruct (recv_counts _ _ _ _ Hr) as (_ & _ & Hn & Hh & _).
    destruct (wake_err ch g s) as (-> & -> & -> & _). lia.
  - destruct ctx as [e |]; [| discriminate]. intros [= <- <-]. lia.
Qed.

Lemma WaitForCode_chan_ok (ctx : option string) (pick : nat)
    (s s' : CallbackServer) (res : string * option string) :
  WaitForCode ctx pick s = Some (res, s') ->
  chan_ok (codeChan s) -> chan_ok (errChan s) ->
  chan_ok (codeChan s') /\ chan_ok (errChan s').
Proof.
  unfold WaitForCode, chan_ok.
  destruct (_ !! _) as [[| |] |]; [| | | discriminate].
  - destruct (recv (codeChan s)) as [[[code ch] g] |] eqn:Hr; [| discriminate].
    intros [= <- <-] [Hc1 Hc2] He.
    destruct (recv_counts _ _ _ _ Hr) as (Hcap & Hlen & _).
    destruct (wake_code ch g s) as (-> & -> & _).
    split; [split; lia | exact He].
  - destruct (recv (errChan s)) as [[[err ch] g] |] eqn:Hr; [| discriminate].
    intros [= <- <-] Hc [He1 He2].
    destruct (recv_counts _ _ _ _ Hr) as (Hcap & Hlen & _).
    destruct (wake_err ch g s) as (-> & -> & _).
    split; [exact Hc | split; lia].
  - destruct ctx as [e |]; [| discriminate]. intros [= <- <-]. auto.
Qed.

Lemma WaitForCode_started (ctx : option string) (pick : nat)
    (s s' : CallbackServer) (res : string * option string) :
  WaitForCode ctx pick s = Some (res, s') -> started s -> started s'.
Proof.
  unfold WaitForCode, started.
  destruct (_ !! _) as [[| |] |]; [| | | discriminate].
  - destruct (recv (codeChan s)) as [[[code ch] g] |] eqn:Hr; [| discriminate].
    intros [= <- <-] (Hsrv & Honce & Hserving & Hcode & Hwg).
    destruct (recv_counts _ _ _ _ Hr) as (_ & _ & _ & _ & Hs).
    destruct (wake_code ch g s) as (-> & -> & _ & -> & -> & -> & ->).
    assert (match g with
            | Some g0 => if is_handler g0 then 0 else 1
            | None => 0
            end = 0) as Hg by lia.
    rewrite Hg. repeat split; auto; lia.
  - destruct (recv (errChan s)) as [[[err ch] g] |] eqn:Hr; [| discriminate].
    intros [= <- <-] (Hsrv & Honce & Hserving & Hcode & Hwg).
    destruct (recv_counts _ _ _ _ Hr) as (_ & _ & _ & _ & Hs).
    destruct (wake_err ch g s) as (-> & -> & _ & -> & -> & -> & ->).
    repeat split; auto; lia.
  - destruct ctx as [e |]; [| discriminate]. intros [= <- <-]. auto.
Qed.

(** The Serve loop failing by itself. *)
Lemma serve_fails_chan_ok (srv : nat) (e : string) (s : CallbackServer) :
  chan_ok (codeChan s) -> chan_ok (errChan s) ->
  chan_ok (codeChan (serve_fails srv e s)) /\
  chan_ok (errChan (serve_fails srv e s)).
Proof.
  intros Hc [He1 He2]. unfold serve_fails, chan_ok.
  destruct (bool_decide (srv ∈ serving s)); [| now split].
  match goal with
  | |- context [send_err ?m InServe ?t] =>
      destruct (Nat.lt_ge_cases (length (buf (errChan t))) (cap (errChan t)))
        as [Hroom | Hfull];
      [rewrite (send_err_room m InServe t Hroom)
      | rewrite (send_err_full m InServe t Hfull)]
  end; cbn in *; rewrite ?length_app; cbn; split; auto; split; lia.
Qed.

Lemma serve_fails_started (srv : nat) (e : string) (s : CallbackServer) :
  started s -> started (serve_fails srv e s).
Proof.
  intros (Hsrv & Honce & Hserving & Hcode & Hwg). unfold serve_fails.
  destruct (bool_decide_reflect (srv ∈ serving s)) as [Hin | Hin];
    [| repeat split; auto].
  destruct Hserving as [E | E]; rewrite E in *; [inversion Hin |].
  apply list_elem_of_singleton in Hin. subst srv.
  unfold started.
  match goal with
  | |- context [send_err ?m InServe ?t] =>
      destruct (Nat.lt_ge_cases (length (buf (errChan t))) (cap (errChan t)))
        as [Hroom | Hfull];
      [rewrite (send_err_room m InServe t Hroom)
      | rewrite (send_err_full m InServe t Hfull)]
  end; unfold serves_in in *; cbn in *;
    rewrite ?List.filter_app, ?length_app; cbn;
    repeat split; auto; lia.
Qed.

(** Along a run. *)
Lemma run_chan_ok (evs : list event) :
  forall s,
    chan_ok (codeChan s) -> chan_ok (errChan s) ->
    chan_ok (codeChan (run evs s)) /\ chan_ok (errChan (run evs s)).
Proof.
  induction evs as [| ev evs IH]; intros s Hc He; [now split |].
  cbn [run fold_left].
  assert (chan_ok (codeChan (step s ev)) /\ chan_ok (errChan (step s ev)))
    as [Hc' He'].
  { destruct ev as [r | ctx pick | srv e]; cbn [step].
    - now apply handleCallback_chan_ok.
    - destruct (WaitForCode ctx pick s) as [[res s'] |] eqn:Hw; [| now split].
      now apply (WaitForCode_chan_ok _ _ _ _ _ Hw).
    - now apply serve_fails_chan_ok. }
  exact (IH _ Hc' He').
Qed.

Lemma run_started (evs : list event) :
  forall s, started s -> started (run evs s).
Proof.
  induction evs as [| ev evs IH]; intros s Hs; [exact Hs |].
  cbn [run fold_left]. apply IH.
  destruct ev as [r | ctx pick | srv e]; cbn [step].
  - now apply handleCallback_started.
  - destruct (WaitForCode ctx pick s) as [[res s'] |] eqn:Hw; [| exact Hs].
    now apply (WaitForCode_started _ _ _ _ _ Hw).
  - now apply serve_fails_started.
Qed.

Lemma new_chan_ok : chan_ok (make 1).
Proof. split; cbn; lia. Qed.

Lemma Start_started (port : Z) (path : string) (listen : option string) :
  let s := fst (Start listen (NewCallbackServer port path)) in
  started s /\ chan_ok (codeChan s) /\ chan_ok (errChan s).
Proof.
  cbv zeta. destruct listen as [e |]; cbn;
    (split; [repeat split; auto | split; apply new_chan_ok]).
Qed.

End Counting.

(** ** callback.go: at most once? *)

Section AtMostOnce.

Import Chan Server.

(** A Serve loop that fails hands in one outcome, the error it ended
    with, and answers no request. *)
Lemma serve_fails_hands_in (srv : nat) (e : string) (s : CallbackServer) :
  srv ∈ serving s ->
  let s' := serve_fails srv e s in
  buffered s' + parked_senders s' = S (buffered s + parked_senders s) /\
  length (responses s') + parked_handlers s'
  = length (responses s) + parked_handlers s /\
  srv ∉ serving s'.
Proof.
  intros Hsrv. cbv zeta.
  unfold serve_fails, buffered, parked_senders, parked_handlers.
  rewrite (bool_decide_eq_true_2 _ Hsrv).
  match goal with
  | |- context [send_err ?m InServe ?t] =>
      destruct (Nat.lt_ge_cases (length (buf (errChan t))) (cap (errChan t)))
        as [Hroom | Hfull];
      [rewrite (send_err_room m InServe t Hroom)
      | rewrite (send_err_full m InServe t Hfull)]
  end.
  - cbn. rewrite ?length_app. cbn.
    split; [lia |]. split; [reflexivity |].
    intros H. apply list_elem_of_In, filter_In in H as [_ H].
    rewrite Nat.eqb_refl in H. discriminate H.
  - cbn. rewrite ?length_app. cbn.
    split; [lia |].
    split; [unfold handlers_in; rewrite List.filter_app, length_app; cbn; lia |].
    intros H. apply list_elem_of_In, filter_In in H as [_ H].
    rewrite Nat.eqb_refl in H. discriminate H.
Qed.

(** C1, as the code has it. On a server that has been started, along any
    run of inbound requests, calls of WaitForCode and failures of the
    Serve loop, neither handoff channel buffers more than one outcome, and
    one call of WaitForCode takes at most one outcome out, a handler it
    wakes answering its request; but the handler does not deduplicate:
    every further request hands in an outcome of its own, and is either
    answered or left parked on its send; and so does the Serve loop of
    the started server when it fails. *)
Theorem handoff_one_slot_without_deduplication (port : Z) (path : string)
  (listen : option string) (evs : list event) :
  let s := run evs (fst (Start listen (NewCallbackServer port path))) in
  (length (buf (codeChan s)) <= 1 /\ length (buf (errChan s)) <= 1) /\
  (forall ctx pick res s',
      WaitForCode ctx pick s = Some (res, s') ->
      (buffered s' + parked_senders s' <= buffered s + parked_senders s
       <= S (buffered s' + parked_senders s')) /\
      length (responses s') + parked_handlers s'
      = length (responses s) + parked_handlers s) /\
  (forall r,
      let s' := handleCallback r s in
      buffered s' + parked_senders s' = S (buffered s + parked_senders s) /\
      length (responses s') + parked_handlers s'
      = S (length (responses s) + parked_handlers s)) /\
  (forall srv e,
      srv ∈ serving s ->
      let s' := serve_fails srv e s in
      buffered s' + parked_senders s' = S (buffered s + parked_senders s) /\
      length (responses s') + parked_handlers s'
      = length (responses s) + parked_handlers s /\
      srv ∉ serving s') /\
  serving (fst (Start None (NewCallbackServer port path))) = [0].
Proof.
  cbv zeta.
  destruct (Start_started port path listen) as (_ & Hc0 & He0).
  destruct (run_chan_ok evs _ Hc0 He0) as [[_ Hc] [_ He]].
  split; [| split; [| split; [| split]]].
  - split; [exact Hc | exact He].
  - intros ctx pick res s' Hw. exact (WaitForCode_counts _ _ _ _ _ Hw).
  - intros r. apply handleCallback_counts.
  - intros srv e Hsrv. exact (serve_fails_hands_in srv e _ Hsrv).
  - reflexivity.
Qed.

(** C1, as stated, fails. After a request with a code has been honoured,
    a second request without one publishes a second outcome, so that both
    channels hold one; and a second request with a code is parked on its
    send and gets no response for as long as the first code is not
    received. *)
Lemma second_request_publishes_again :
  let s0 := NewCallbackServer 8080 "/oauth/callback" in
  let s1 := handleCallback (request [("code", "abc")]) s0 in
  let s2 := handleCallback (request [("state", "xyz")]) s1 in
  let s2' := handleCallback (request [("code", "abc")]) s1 in
  (buf (codeChan s1) = ["abc"] /\ buf (errChan s1) = []) /\
  (buf (codeChan s2) = ["abc"] /\
   buf (errChan s2) = ["no authorization code received"] /\
   buffered s2 = 2) /\
  (length (responses s2') = 1 /\
   sendq (codeChan s2') = [("abc", InHandlerCode "abc")]) /\
  ~ (forall r1 r2 : Request,
        let t := handleCallback r2 (handleCallback r1 s0) in
        length (responses t) = 2 /\ buffered t + parked_senders t <= 1).
Proof.
  cbv zeta. split; [| split; [| split]].
  - vm_compute. auto.
  - vm_compute. auto.
  - vm_compute. auto.
  - intros H.
    specialize (H (request [("code", "abc")]) (request [("state", "xyz")])).
    vm_compute in H. lia.
Qed.

End AtMostOnce.

(** ** callback.go: Stop *)

Section Stop.

Import Chan Server.

Lemma Stop_done (s : CallbackServer) : once s = true -> Stop s = Returns s.
Proof. intros H. unfold Stop. now rewrite H. Qed.

(** C8, as the code has it. Once Start has been called, whether it bound
    the port or not, and whatever requests, calls of WaitForCode and
    failures of the Serve loop followed, Stop returns, having shut the
    server down, unless the goroutine of Start is parked on sending its
    error; called again it returns at once and changes nothing. And in any
    state, a Stop that follows a Stop that ended does nothing. *)
Theorem Stop_idempotent_once_started (port : Z) (path : string)
  (listen : option string) (evs : list event) :
  let s := run evs (fst (Start listen (NewCallbackServer port path))) in
  serves_in (sendq (errChan s)) = 0 ->
  (exists s',
      Stop s = Returns s' /\ once s' = true /\
      serving s' = [] /\ shutdownWg s' = 0 /\
      Stop s' = Returns s') /\
  (forall any after,
      Stop any = Returns after \/ Stop any = Panics after ->
      Stop after = Returns after).
Proof.
  cbv zeta. intros Hserve. split.
  - destruct (Start_started port path listen) as (Hs & _).
    apply (run_started evs) in Hs.
    destruct Hs as (Hsrv & Honce & Hserving & _ & Hwg).
    unfold Stop. rewrite Honce, Hsrv. unfold Shutdown. cbn [shutdownWg].
    rewrite Hwg, Hserve.
    destruct Hserving as [-> | ->]; cbn; eexists; repeat split.
  - intros any after [H | H]; apply Stop_done; revert H; unfold Stop.
    + destruct (once any) eqn:Ho; [now intros [= <-] |].
      destruct (server any); [| discriminate].
      destruct (_ =? 0)%nat; [now intros [= <-] | discriminate].
    + destruct (once any) eqn:Ho; [discriminate |].
      destruct (server any); [| now intros [= <-]].
      destruct (_ =? 0)%nat; discriminate.
Qed.

(** C8, as stated, fails. On a server on which Start was never called,
    [s.server] is nil and Stop panics. *)
Lemma Stop_before_Start_panics :
  let s := NewCallbackServer 8080 "/oauth/callback" in
  Stop s = Panics (set_once s) /\ (forall s', Stop s <> Returns s').
Proof. cbv zeta. split; [reflexivity | discriminate]. Qed.

(** Beside that: Stop waits for ever after the Serve loop has failed
    by itself while the error channel was full, since the goroutine of
    Start then never reaches its [Done]. *)
Lemma Stop_blocks_behind_unsent_serve_error :
  let s0 := fst (Start None (NewCallbackServer 8080 "/oauth/callback")) in
  let s1 := handleCallback (request [("state", "xyz")]) s0 in
  let s2 := serve_fails 0 "accept: too many open files" s1 in
  exists s', Stop s2 = Blocks s'.
Proof. cbv zeta. eexists. vm_compute. reflexivity. Qed.

End Stop.

(** ** The models on known values *)

Section KnownValues.

Import PKCE.

(** The verifier and challenge of RFC 7636, appendix B. *)
Example CreateCodeChallenge_rfc7636 :
  CreateCodeChallenge "dBjftJeZ4CVP-mB92K27uhbUJU1p1r_wW1gFWFOEjXk"
  = "E9Melhoa2OwvFrEMTJguCHaoeK1t8URWbuGJSstw-cM".
Proof. vm_compute. reflexivity. Qed.

(** Messages of one chunk, of a chunk whose padding needs a second one,
    and of more than one chunk. *)
Example CreateCodeChallenge_55 :
  CreateCodeChallenge (letters 55)
  = "n0OQ-NMMLdkuyfCVtl4rmumwqSWlJY4kHJ8ekQ9zQxg".
Proof. vm_compute. reflexivity. Qed.

Example CreateCodeChallenge_56 :
  CreateCodeChallenge (letters 56)
  = "s1Q5pKxvCUi21vnjxq8PX1kM4g8b3nCQ73lwaG7Gc4o".
Proof. vm_compute. reflexivity. Qed.

Example CreateCodeChallenge_100 :
  CreateCodeChallenge (letters 100)
  = "KBZZeIjkoNOja4K4MxarMmgOuPAPjNO5BNaBJG0oWg4".
Proof. vm_compute. reflexivity. Qed.

Example example_segment_text :
  example_segment
  = "eyJpc3MiOiJodHRwczovL2V4YW1wbGUuY29tIiwic3ViIjoiMTIzIiwiYXVkIjoiY2xpZW50MSIsImV4cCI6OTk5OTk5OTk5OSwiaWF0IjoxMDAwMDAwMDAwfQ".
Proof. vm_compute. reflexivity. Qed.

Example DecodeString_padding :
  Base64.DecodeString "aGk=" = inl (list_byte_of_string "hi") /\
  Base64.DecodeString "aA==" = inl (list_byte_of_string "h") /\
  Base64.DecodeString "aGk" = inr Base64.CorruptInputError /\
  Base64.DecodeString "aGk=aGk=" = inr Base64.CorruptInputError.
Proof. vm_compute. auto. Qed.

(** The chunk loop with the fuel that Write gives it leaves less than a
    chunk. *)
Lemma block_leaves_less_than_a_chunk (fuel : nat) :
  forall (s : Sha256.state) (p : list byte),
    length p < 64 + 64 * fuel ->
    length (snd (Sha256.block fuel s p)) < 64.
Proof.
  induction fuel as [| fuel IH]; intros s p Hp; cbn [Sha256.block].
  - cbn. lia.
  - destruct (Nat.ltb_spec (length p) 64) as [H | H]; [exact H |].
    apply IH. rewrite length_skipn. lia.
Qed.

Lemma Write_buffers_less_than_a_chunk (d : Sha256.digest) (p : list byte) :
  length (Sha256.x (Sha256.Write d p)) < 64.
Proof.
  unfold Sha256.Write.
  pose proof (block_leaves_less_than_a_chunk
                (length (Sha256.x d ++ p)) (Sha256.h d) (Sha256.x d ++ p))
    as H.
  destruct (Sha256.block _ _ _) as [s rest]. cbn in *. apply H. lia.
Qed.

End KnownValues.

(** ** The theorems at concrete inputs *)

Section Instances.

Import Chan Server.

(** C10 on the token h.abcde.s, whose payload has length 5. *)
Lemma payload_padding_by_length_witness :
  Strings.Split "h.abcde.s" "." = ["h"; "abcde"; "s"] /\
  Token.ParseIDToken "h.abcde.s"
  = inr (Token.ErrDecodePayload Token.ErrInvalidLength).
Proof.
  split; [reflexivity |].
  destruct (payload_padding_by_length "h.abcde.s" "h" "abcde" "s" eq_refl)
    as (_ & _ & H & _).
  apply H. reflexivity.
Defined.

(** C4 with the header "hdr" and the signature "sig". *)
Lemma ParseIDToken_segments_witness :
  count_byte "." "hdr" = 0 /\ count_byte "." "sig" = 0 /\
  Token.ParseIDToken ("hdr" +:+ "." +:+ example_segment +:+ "." +:+ "sig")
  = inl (example_claims "hdr" "sig").
Proof.
  split; [reflexivity |]. split; [reflexivity |].
  destruct (ParseIDToken_segments "hdr" "sig" eq_refl eq_refl)
    as (_ & _ & H & _).
  exact H.
Defined.

(** C5 with a random source that fills the buffer with the byte 0xfb. *)
Lemma GenerateCodeVerifier_length_and_alphabet_witness :
  let rand_Read : PKCE.Reader := fun b => (map (fun _ => xfb) b, None) in
  (forall b, length (fst (rand_Read b)) = length b) /\
  exists v,
    PKCE.GenerateCodeVerifier rand_Read = inl v /\
    String.length v = 43 /\
    43 <= String.length v <= 128 /\
    string_forall is_urlsafe v = true.
Proof.
  cbv zeta.
  assert (forall b : list byte,
             length (fst (map (fun _ => xfb) b, @None string)) = length b)
    as Hfill.
  { intros b. cbn [fst]. apply length_map. }
  split; [exact Hfill |].
  exact (GenerateCodeVerifier_length_and_alphabet
           (fun b => (map (fun _ => xfb) b, None)) Hfill).
Defined.

(** C8 on a server started on a free port that has handled one request. *)
Lemma Stop_idempotent_once_started_witness :
  let evs := [Inbound (request [("code", "abc")]); Wait None 0] in
  let s := run evs (fst (Start None (NewCallbackServer 8080 "/oauth/callback"))) in
  serves_in (sendq (errChan s)) = 0 /\
  exists s',
    Stop s = Returns s' /\ once s' = true /\
    serving s' = [] /\ shutdownWg s' = 0 /\
    Stop s' = Returns s'.
Proof.
  cbv zeta. split; [reflexivity |].
  exact (proj1 (Stop_idempotent_once_started 8080 "/oauth/callback" None
                  [Inbound (request [("code", "abc")]); Wait None 0]
                  eq_refl)).
Defined.

End Instances.

(** * Further properties *)

(** ** strings: Split and Join *)

Section SplitJoin.

Import Strings.

(** Joining the pieces of a string with the separator gives the string
    back. *)
Lemma Join_Split (s : string) (sep : ascii) : Join (Split s sep) sep = s.
Proof.
  induction s as [| c s IH]; [reflexivity |].
  cbn [Split]. destruct (Ascii.eqb_spec c sep) as [-> | Hc].
  - pose proof (Split_nonempty s sep) as Hne.
    destruct (Split s sep) as [| p ps]; [congruence |].
    cbn [Join]. cbn [Join] in IH. now rewrite IH.
  - pose proof (Split_nonempty s sep) as Hne.
    destruct (Split s sep) as [| p ps]; [congruence |].
    destruct ps as [| p' ps]; cbn [Join] in *; now rewrite <- IH.
Qed.

(** No piece contains the separator. *)
Lemma Split_pieces (s : string) (sep : ascii) :
  Forall (fun piece => count_byte sep piece = 0) (Split s sep).
Proof.
  induction s as [| c s IH]; cbn [Split].
  - repeat constructor.
  - destruct (Ascii.eqb_spec c sep) as [-> | Hc].
    + constructor; [reflexivity | exact IH].
    + destruct (Split s sep) as [| p ps]; [repeat constructor |].
      * cbn. apply Ascii.eqb_neq in Hc. now rewrite Hc.
      * inversion IH as [| ? ? Hp Hps]; subst. constructor; [| exact Hps].
        cbn. apply Ascii.eqb_neq in Hc. now rewrite Hc, Hp.
Qed.

End SplitJoin.

(** ** token.go: what ParseIDToken keeps and what it does not look at *)

Section ParseIDToken_more.

Import Token.

Lemma ParseIDToken_success_parts (idToken : string) (c : IDTokenClaims) :
  ParseIDToken idToken = inl c ->
  Strings.Split idToken "." = [rawHeader c; rawPayload c; rawSignature c].
Proof.
  intros H.
  assert (length (Strings.Split idToken ".") = 3) as Hlen.
  { unfold ParseIDToken in H.
    destruct (Nat.eqb_spec (length (Strings.Split idToken ".")) 3);
      [assumption | discriminate]. }
  destruct (Strings.Split idToken ".") as [| h [| p [| sg [| ? ?]]]] eqn:E;
    try discriminate.
  rewrite (ParseIDToken_three idToken h p sg E) in H.
  destruct (base64URLDecode p) as [payload | e]; [| discriminate].
  destruct (Unmarshal payload zero) as [claims | e]; [| discriminate].
  injection H as <-. reflexivity.
Qed.

(** X1. A token that parses is made of exactly the three raw parts that
    the claims keep, joined by dots, and none of them contains a dot. *)
Theorem ParseIDToken_keeps_raw_parts (idToken : string) (c : IDTokenClaims)
  (Hparse : ParseIDToken idToken = inl c) :
  idToken = rawHeader c +:+ "." +:+ rawPayload c +:+ "." +:+ rawSignature c /\
  count_byte "." (rawHeader c) = 0 /\
  count_byte "." (rawPayload c) = 0 /\
  count_byte "." (rawSignature c) = 0.
Proof.
  pose proof (ParseIDToken_success_parts _ _ Hparse) as E.
  pose proof (Join_Split idToken ".") as HJ.
  pose proof (Split_pieces idToken ".") as HP.
  rewrite E in HJ, HP. split; [symmetry; exact HJ |].
  inversion HP as [| ? ? H1 HP1]; subst.
  inversion HP1 as [| ? ? H2 HP2]; subst.
  inversion HP2 as [| ? ? H3 HP3]; subst. auto.
Qed.

(** The claims without the raw parts. *)
Lemma ParseIDToken_by_payload (h p sg : string) :
  count_byte "." h = 0 -> count_byte "." p = 0 -> count_byte "." sg = 0 ->
  ParseIDToken (h +:+ "." +:+ p +:+ "." +:+ sg) =
  match base64URLDecode p with
  | inr err => inr (ErrDecodePayload err)
  | inl payload =>
      match Unmarshal payload zero with
      | inr err => inr (ErrParseClaims err)
      | inl claims =>
          inl {| Issuer := Issuer claims; Subject := Subject claims;
                 Audience := Audience claims;
                 Expiration := Expiration claims;
                 IssuedAt := IssuedAt claims;
                 Name := Name claims; Email := Email claims;
                 EmailVerified := EmailVerified claims;
                 Picture := Picture claims;
                 GivenName := GivenName claims;
                 FamilyName := FamilyName claims;
                 Locale := Locale claims;
                 rawHeader := h; rawPayload := p; rawSignature := sg |}
      end
  end.
Proof.
  intros Hh Hp Hs. apply ParseIDToken_three. now apply Split_three.
Qed.

(** X2. The header and the signature are stored and nothing else: two
    tokens with the same payload segment fail with the same error or give
    the same claims, and the same verdict of ValidateIDToken, whatever
    their headers and signatures are. *)
Theorem ParseIDToken_ignores_header_and_signature
  (h h' p sg sg' : string)
  (Hh : count_byte "." h = 0) (Hh' : count_byte "." h' = 0)
  (Hp : count_byte "." p = 0)
  (Hsg : count_byte "." sg = 0) (Hsg' : count_byte "." sg' = 0) :
  match ParseIDToken (h +:+ "." +:+ p +:+ "." +:+ sg),
        ParseIDToken (h' +:+ "." +:+ p +:+ "." +:+ sg') with
  | inl c, inl c' =>
      (Issuer c, Subject c, Audience c, Expiration c, IssuedAt c)
      = (Issuer c', Subject c', Audience c', Expiration c', IssuedAt c') /\
      (Name c, Email c, EmailVerified c, Picture c, GivenName c,
       FamilyName c, Locale c)
      = (Name c', Email c', EmailVerified c', Picture c', GivenName c',
         FamilyName c', Locale c') /\
      rawPayload c = rawPayload c' /\
      forall expectedAudience now,
        ValidateIDToken c expectedAudience now
        = ValidateIDToken c' expectedAudience now
  | inr e, inr e' => e = e'
  | _, _ => False
  end.
Proof.
  rewrite !ParseIDToken_by_payload by assumption.
  destruct (base64URLDecode p) as [payload | e]; [| reflexivity].
  destruct (Unmarshal payload zero) as [claims | e]; [| reflexivity].
  cbn. repeat split.
Qed.

End ParseIDToken_more.

(** ** pkce.go: the challenge and the verifier as strings *)

Section PKCE_more.

Import PKCE.

(** X3. Every challenge, of whatever verifier, is 43 characters of the
    URL-safe alphabet, and nothing else verifies: a string of another
    length is rejected for every verifier. *)
Theorem CreateCodeChallenge_shape (v : PKCECodeVerifier) :
  String.length (CreateCodeChallenge v) = 43 /\
  string_forall is_urlsafe (CreateCodeChallenge v) = true /\
  (forall challenge,
      VerifyCodeChallenge v challenge = true ->
      String.length challenge = 43 /\
      string_forall is_urlsafe challenge = true).
Proof.
  assert (String.length (CreateCodeChallenge v) = 43) as Hlen.
  { rewrite CreateCodeChallenge_digest, RawURLEncode_length, sha256_length.
    reflexivity. }
  assert (string_forall is_urlsafe (CreateCodeChallenge v) = true) as Hal.
  { rewrite CreateCodeChallenge_digest. apply RawURLEncode_alphabet. }
  split; [exact Hlen |]. split; [exact Hal |].
  intros challenge H. unfold VerifyCodeChallenge in H.
  apply String.eqb_eq in H. subst challenge. auto.
Qed.

Lemma GenerateCodeVerifier_value (rand_Read : Reader) (v : PKCECodeVerifier) :
  GenerateCodeVerifier rand_Read = inl v ->
  v = RawURLEncode (fst (rand_Read (repeat x00 32))) /\
  snd (rand_Read (repeat x00 32)) = None.
Proof.
  unfold GenerateCodeVerifier.
  destruct (rand_Read (repeat x00 32)) as [b [e |]]; [discriminate |].
  intros [= <-]. split; reflexivity.
Qed.

(** X4. The encoding loses nothing of the randomness: two runs that give
    the same verifier have drawn the same 32 bytes. *)
Theorem GenerateCodeVerifier_injective (read1 read2 : Reader)
  (v : PKCECodeVerifier)
  (Hfill1 : forall b, length (fst (read1 b)) = length b)
  (Hfill2 : forall b, length (fst (read2 b)) = length b)
  (H1 : GenerateCodeVerifier read1 = inl v)
  (H2 : GenerateCodeVerifier read2 = inl v) :
  fst (read1 (repeat x00 32)) = fst (read2 (repeat x00 32)).
Proof.
  apply GenerateCodeVerifier_value in H1 as [E1 _].
  apply GenerateCodeVerifier_value in H2 as [E2 _].
  apply RawURLEncode_inj; [now rewrite Hfill1, Hfill2 | congruence].
Qed.

End PKCE_more.

(** ** pkce.go and token.go: encoding and decoding *)

Section RoundTrip.

Import Base64 Strings Token.

Local Open Scope N_scope.

Ltac div_mod_lia :=
  zify; Z.to_euclidean_division_equations; lia.

Lemma decodeMap_encode (i : N) : i < 64 -> decodeMap (encode i) = Some i.
Proof.
  intros Hi.
  apply (below_64 (fun i => bool_decide (decodeMap (encode i) = Some i)))
    in Hi.
  - now apply bool_decide_eq_true in Hi.
  - vm_compute. reflexivity.
Qed.

Lemma encode_not_newline (i : N) : i < 64 -> is_newline (encode i) = false.
Proof.
  intros Hi. apply negb_true_iff.
  apply (below_64 (fun i => negb (is_newline (encode i))));
    [vm_compute; reflexivity | exact Hi].
Qed.

(** What the two substitutions of base64URLDecode make of one character. *)
Lemma unurl_cons (c : ascii) (s : string) :
  ReplaceAll (ReplaceAll (String c s) "-" "+") "_" "/"
  = String (if Ascii.eqb c "-" then "+"%char
            else if Ascii.eqb c "_" then "/"%char else c)
      (ReplaceAll (ReplaceAll s "-" "+") "_" "/").
Proof.
  cbn [ReplaceAll].
  destruct (Ascii.eqb_spec c "-") as [-> | H1]; [reflexivity |].
  cbn [ReplaceAll].
  destruct (Ascii.eqb_spec c "_") as [-> | H2]; reflexivity.
Qed.

Lemma unurl_sextet (x : N) (s : string) :
  ReplaceAll (ReplaceAll (String (sextet x) s) "-" "+") "_" "/"
  = String (encode (N.land x 63)) (ReplaceAll (ReplaceAll s "-" "+") "_" "/").
Proof.
  rewrite unurl_cons. f_equal. unfold sextet.
  pose proof (land_63_lt x) as Hi. revert Hi.
  generalize (N.land x 63). intros i Hi.
  apply (below_64
           (fun i => bool_decide
              ((if Ascii.eqb (url_char (encode i)) "-" then "+"%char
                else if Ascii.eqb (url_char (encode i)) "_" then "/"%char
                     else url_char (encode i)) = encode i))) in Hi.
  - now apply bool_decide_eq_true in Hi.
  - vm_compute. reflexivity.
Qed.

Lemma unurl_pad (s : string) :
  ReplaceAll (ReplaceAll (String padChar s) "-" "+") "_" "/"
  = String padChar (ReplaceAll (ReplaceAll s "-" "+") "_" "/").
Proof. now rewrite unurl_cons. Qed.

(** The value that the decoder rebuilds from four, three and two six-bit
    groups. *)
Lemma lor_sextets (i0 i1 i2 i3 : N) :
  i1 < 64 -> i2 < 64 -> i3 < 64 ->
  N.lor (N.lor (N.lor (N.shiftl i0 18) (N.shiftl i1 12)) (N.shiftl i2 6)) i3
  = i0 * 262144 + i1 * 4096 + i2 * 64 + i3.
Proof.
  intros H1 H2 H3.
  replace (N.lor (N.shiftl i0 18) (N.shiftl i1 12))
    with (N.shiftl (N.lor (N.shiftl i0 6) i1) 12)
    by (now rewrite N.shiftl_lor, N.shiftl_shiftl).
  rewrite (lor_shiftl_small i0 i1 6) by exact H1.
  replace (N.lor (N.shiftl (i0 * 2 ^ 6 + i1) 12) (N.shiftl i2 6))
    with (N.shiftl (N.lor (N.shiftl (i0 * 2 ^ 6 + i1) 6) i2) 6)
    by (now rewrite N.shiftl_lor, N.shiftl_shiftl).
  rewrite (lor_shiftl_small _ i2 6) by exact H2.
  rewrite (lor_shiftl_small _ i3 6) by exact H3.
  change (2 ^ 6) with 64. lia.
Qed.

Lemma lor_sextets3 (i0 i1 i2 : N) :
  i1 < 64 -> i2 < 64 ->
  N.lor (N.lor (N.shiftl i0 18) (N.shiftl i1 12)) (N.shiftl i2 6)
  = i0 * 262144 + i1 * 4096 + i2 * 64.
Proof.
  intros H1 H2.
  pose proof (lor_sextets i0 i1 i2 0 H1 H2 ltac:(lia)) as H.
  rewrite N.lor_0_r in H. lia.
Qed.

Lemma lor_sextets2 (i0 i1 : N) :
  i1 < 64 ->
  N.lor (N.shiftl i0 18) (N.shiftl i1 12) = i0 * 262144 + i1 * 4096.
Proof.
  intros H1.
  pose proof (lor_sextets3 i0 i1 0 H1 ltac:(lia)) as H.
  rewrite N.shiftl_0_l, N.lor_0_r in H. lia.
Qed.

Lemma byte_of_uint (b : byte) (n : N) :
  n mod 256 = uint b -> byte_of_N n = b.
Proof.
  intros H. unfold byte_of_N. rewrite H. unfold uint.
  now rewrite Byte.of_to_N.
Qed.

Lemma sextets_sum (v : N) :
  v < 16777216 ->
  (v / 2 ^ 18) mod 64 * 262144 + (v / 2 ^ 12) mod 64 * 4096
  + (v / 2 ^ 6) mod 64 * 64 + v mod 64 = v.
Proof.
  intros Hv. change (2 ^ 18) with 262144. change (2 ^ 12) with 4096.
  change (2 ^ 6) with 64. symmetry. now apply sextets_value.
Qed.

Lemma bytes_of_val (a b c : N) :
  a < 256 -> b < 256 -> c < 256 ->
  let v := a * 65536 + b * 256 + c in
  v < 16777216 /\
  (v / 2 ^ 16) mod 256 = a /\ (v / 2 ^ 8) mod 256 = b /\ v mod 256 = c.
Proof.
  intros Ha Hb Hc. cbv zeta. change (2 ^ 16) with 65536.
  change (2 ^ 8) with 256. repeat split; div_mod_lia.
Qed.

(** The decoder on the four characters of three bytes. *)
Lemma decodeQuanta_3 (b0 b1 b2 : byte) (rest : list ascii) :
  let v := val3 b0 b1 b2 in
  decodeQuanta (encode (N.land (N.shiftr v 18) 63)
                :: encode (N.land (N.shiftr v 12) 63)
                :: encode (N.land (N.shiftr v 6) 63)
                :: encode (N.land v 63) :: rest)
  = match decodeQuanta rest with
    | inl out => inl (b0 :: b1 :: b2 :: out)
    | inr e => inr e
    end.
Proof.
  cbv zeta. cbn [decodeQuanta].
  rewrite !decodeMap_encode by apply land_63_lt.
  destruct (decodeQuanta rest) as [out | e]; [| reflexivity].
  rewrite lor_sextets by apply land_63_lt.
  rewrite !low6, !N.shiftr_div_pow2. unfold val3. rewrite val3_value.
  destruct (bytes_of_val _ _ _ (uint_lt b0) (uint_lt b1) (uint_lt b2))
    as (Hv & E0 & E1 & E2).
  rewrite (sextets_sum _ Hv).
  rewrite (byte_of_uint b0), (byte_of_uint b1), (byte_of_uint b2);
    [reflexivity | exact E2 | exact E1 | exact E0].
Qed.

Lemma decodeQuanta_2 (b0 b1 : byte) :
  let v := val2 b0 b1 in
  decodeQuanta [encode (N.land (N.shiftr v 18) 63);
                encode (N.land (N.shiftr v 12) 63);
                encode (N.land (N.shiftr v 6) 63); padChar]
  = inl [b0; b1].
Proof.
  cbv zeta. cbn [decodeQuanta].
  rewrite !decodeMap_encode by apply land_63_lt.
  change (decodeMap padChar) with (@None N).
  change (Ascii.eqb padChar padChar && bool_decide (@nil ascii = [])) with true.
  cbv iota.
  rewrite lor_sextets3 by apply land_63_lt.
  rewrite !low6, !N.shiftr_div_pow2. unfold val2. rewrite val2_value.
  destruct (bytes_of_val _ _ 0 (uint_lt b0) (uint_lt b1) ltac:(lia))
    as (Hv & E0 & E1 & _).
  rewrite N.add_0_r in *.
  pose proof (sextets_sum _ Hv) as Hs. rewrite low_zero2, N.add_0_r in Hs.
  rewrite Hs.
  rewrite (byte_of_uint b0), (byte_of_uint b1);
    [reflexivity | exact E1 | exact E0].
Qed.

Lemma decodeQuanta_1 (b0 : byte) :
  let v := val1 b0 in
  decodeQuanta [encode (N.land (N.shiftr v 18) 63);
                encode (N.land (N.shiftr v 12) 63); padChar; padChar]
  = inl [b0].
Proof.
  cbv zeta. cbn [decodeQuanta].
  rewrite !decodeMap_encode by apply land_63_lt.
  change (decodeMap padChar) with (@None N).
  change (Ascii.eqb padChar padChar && Ascii.eqb padChar padChar
          && bool_decide (@nil ascii = [])) with true.
  cbv iota.
  rewrite lor_sextets2 by apply land_63_lt.
  rewrite !low6, !N.shiftr_div_pow2. unfold val1.
  rewrite N.shiftl_mul_pow2. change (2 ^ 16) with 65536.
  destruct (bytes_of_val _ 0 0 (uint_lt b0) ltac:(lia) ltac:(lia))
    as (Hv & E0 & _). cbn [N.mul] in *. rewrite !N.add_0_r in *.
  pose proof (sextets_sum _ Hv) as Hs.
  destruct (low_zero1 (uint b0)) as [Z1 Z2].
  rewrite Z1, Z2, !N.add_0_r in Hs. rewrite Hs.
  rewrite (byte_of_uint b0); [reflexivity | exact E0].
Qed.

Lemma DecodeString_encode (i : N) (s : string) :
  i < 64 ->
  List.filter (fun c => negb (is_newline c))
    (list_ascii_of_string (String (encode i) s))
  = encode i
    :: List.filter (fun c => negb (is_newline c)) (list_ascii_of_string s).
Proof.
  intros Hi. cbn [list_ascii_of_string List.filter].
  now rewrite encode_not_newline.
Qed.

Lemma with_padding_quantum (c0 c1 c2 c3 : ascii) (s : string) :
  with_padding (String c0 (String c1 (String c2 (String c3 s))))
  = option_map (fun p => String c0 (String c1 (String c2 (String c3 p))))
      (with_padding s).
Proof.
  unfold with_padding. cbn [String.length].
  replace (S (S (S (S (String.length s)))) mod 4)%nat
    with (String.length s mod 4)%nat.
  - destruct (String.length s mod 4)%nat as [| [| [| [| n]]]]; reflexivity.
  - replace (S (S (S (S (String.length s)))))
      with (String.length s + 1 * 4)%nat by lia.
    now rewrite Nat.Div0.mod_add.
Qed.

(** base64URLDecode on the four characters of three bytes, followed by
    more. *)
Lemma base64URLDecode_quantum (b0 b1 b2 : byte) (s : string) :
  let v := val3 b0 b1 b2 in
  base64URLDecode
    (String (sextet (N.shiftr v 18))
       (String (sextet (N.shiftr v 12))
          (String (sextet (N.shiftr v 6)) (String (sextet v) s))))
  = match base64URLDecode s with
    | inl out => inl (b0 :: b1 :: b2 :: out)
    | inr e => inr e
    end.
Proof.
  cbv zeta. unfold base64URLDecode. rewrite with_padding_quantum.
  destruct (with_padding s) as [p |]; cbn [option_map]; [| reflexivity].
  rewrite !unurl_sextet. unfold DecodeString.
  rewrite !DecodeString_encode by apply land_63_lt.
  rewrite decodeQuanta_3.
  destruct (decodeQuanta _) as [out | e]; reflexivity.
Qed.

Lemma with_padding_2 (c0 c1 : ascii) :
  with_padding (String c0 (String c1 ""))
  = Some (String c0 (String c1 (String padChar (String padChar "")))).
Proof. reflexivity. Qed.

Lemma with_padding_3 (c0 c1 c2 : ascii) :
  with_padding (String c0 (String c1 (String c2 "")))
  = Some (String c0 (String c1 (String c2 (String padChar "")))).
Proof. reflexivity. Qed.

(** Decoding undoes the encoding, for byte strings of every length. *)
Lemma base64URLDecode_RawURLEncode (b : list byte) :
  base64URLDecode (RawURLEncode b) = inl b.
Proof.
  induction b as [| b0 | b0 b1 | b0 b1 b2 rest IH] using list_ind3.
  - reflexivity.
  - rewrite RawURLEncode_1. unfold base64URLDecode.
    rewrite with_padding_2.
    rewrite !unurl_sextet. rewrite !unurl_pad. cbn [ReplaceAll].
    unfold DecodeString. rewrite !DecodeString_encode by apply land_63_lt.
    cbn [list_ascii_of_string List.filter is_newline].
    change (negb (Ascii.eqb padChar "010" || Ascii.eqb padChar "013"))
      with true. cbv iota.
    now rewrite decodeQuanta_1.
  - rewrite RawURLEncode_2. unfold base64URLDecode.
    rewrite with_padding_3.
    rewrite !unurl_sextet. rewrite !unurl_pad. cbn [ReplaceAll].
    unfold DecodeString. rewrite !DecodeString_encode by apply land_63_lt.
    cbn [list_ascii_of_string List.filter is_newline].
    change (negb (Ascii.eqb padChar "010" || Ascii.eqb padChar "013"))
      with true. cbv iota.
    now rewrite decodeQuanta_2.
  - rewrite RawURLEncode_3, base64URLDecode_quantum. now rewrite IH.
Qed.

(** X5. The verifier and the challenge decode, with the decoder of
    token.go, to the 32 random bytes and to the SHA-256 digest of the
    verifier. *)
Theorem verifier_and_challenge_decode (rand_Read : PKCE.Reader)
  (v : PKCE.PKCECodeVerifier)
  (Hgen : PKCE.GenerateCodeVerifier rand_Read = inl v) :
  base64URLDecode v = inl (fst (rand_Read (repeat x00 32))) /\
  base64URLDecode (PKCE.CreateCodeChallenge v) = inl (sha256 v).
Proof.
  apply GenerateCodeVerifier_value in Hgen as [-> _].
  rewrite CreateCodeChallenge_digest.
  split; apply base64URLDecode_RawURLEncode.
Qed.

End RoundTrip.

(** ** callback.go: waiting, codes and responses *)

Section Waiting.

Import Chan Server.

Lemma ready_cases (ctx : option string) (s : CallbackServer) :
  List.filter (ready ctx s) [CaseCode; CaseErr; CaseDone]
  = ((if bool_decide (buf (codeChan s) = []) then [] else [CaseCode])
     ++ (if bool_decide (buf (errChan s) = []) then [] else [CaseErr])
     ++ (match ctx with Some _ => [CaseDone] | None => [] end))%list.
Proof.
  cbn [List.filter ready].
  destruct (bool_decide (buf (codeChan s) = [])),
           (bool_decide (buf (errChan s) = [])), ctx; reflexivity.
Qed.

Lemma recv_is_Some {A G} (ch : chan A G) :
  buf ch <> [] -> exists r, recv ch = Some r.
Proof.
  unfold recv. destruct (buf ch) as [| v rest]; [congruence |].
  intros _. destruct (sendq ch) as [| [v' g] q]; eauto.
Qed.

Lemma recv_is_None {A G} (ch : chan A G) : buf ch = [] -> recv ch = None.
Proof. unfold recv. now intros ->. Qed.

(** X6. WaitForCode keeps its caller waiting exactly while both channels
    are empty and the context is live; once the context is done it always
    returns, and with both channels empty it returns the error of the
    context and leaves the server as it was. *)
Theorem WaitForCode_blocks_until_outcome_or_deadline
  (s : CallbackServer) (pick : nat) :
  (WaitForCode None pick s = None
   <-> buf (codeChan s) = [] /\ buf (errChan s) = []) /\
  (forall e, WaitForCode (Some e) pick s <> None) /\
  (forall e, buf (codeChan s) = [] -> buf (errChan s) = [] ->
             WaitForCode (Some e) pick s = Some (("", Some e), s)).
Proof.
  assert (forall ctx c,
             List.filter (ready ctx s) [CaseCode; CaseErr; CaseDone]
             !! (pick mod length
                   (List.filter (ready ctx s) [CaseCode; CaseErr; CaseDone]))
             = Some c ->
             match c with
             | CaseCode => buf (codeChan s) <> []
             | CaseErr => buf (errChan s) <> []
             | CaseDone => is_Some ctx
             end) as Hpick.
  { intros ctx c Hc. apply list_elem_of_lookup_2 in Hc.
    apply list_elem_of_In, List.filter_In in Hc as [_ Hc].
    destruct c; cbn in Hc.
    - apply negb_true_iff, bool_decide_eq_false in Hc. exact Hc.
    - apply negb_true_iff, bool_decide_eq_false in Hc. exact Hc.
    - now apply bool_decide_eq_true in Hc. }
  assert (forall ctx,
             List.filter (ready ctx s) [CaseCode; CaseErr; CaseDone] <> [] ->
             WaitForCode ctx pick s <> None) as Hsome.
  { intros ctx Hne. unfold WaitForCode.
    destruct (List.filter (ready ctx s) [CaseCode; CaseErr; CaseDone] !! _)
      as [c |] eqn:Hc.
    - specialize (Hpick ctx c Hc). destruct c.
      + destruct (recv_is_Some _ Hpick) as [[[v ch] g] ->]. discriminate.
      + destruct (recv_is_Some _ Hpick) as [[[v ch] g] ->]. discriminate.
      + destruct ctx; [discriminate | now destruct Hpick].
    - apply lookup_ge_None in Hc.
      assert (0 < length
                    (List.filter (ready ctx s) [CaseCode; CaseErr; CaseDone]))
        by (destruct (List.filter _ _); [congruence | cbn; lia]).
      pose proof (Nat.mod_upper_bound pick
                    (length (List.filter (ready ctx s)
                               [CaseCode; CaseErr; CaseDone]))).
      lia. }
  split; [| split].
  - split.
    + intros Hnone.
      destruct (buf (codeChan s)) as [| c cs] eqn:Ec,
               (buf (errChan s)) as [| e es] eqn:Ee; auto;
        exfalso; apply (Hsome None); auto; rewrite ready_cases, Ec, Ee;
        discriminate.
    + intros [Ec Ee]. unfold WaitForCode. rewrite ready_cases, Ec, Ee.
      reflexivity.
  - intros e. apply Hsome. rewrite ready_cases.
    destruct (bool_decide _), (bool_decide _); discriminate.
  - intros e Ec Ee. unfold WaitForCode. rewrite ready_cases, Ec, Ee.
    rewrite !bool_decide_eq_true_2 by reflexivity.
    cbn [app length]. rewrite Nat.mod_1_r. reflexivity.
Qed.

End Waiting.

Section Handled.

Import Chan Server.

Lemma resume_ok (g : parked) (s : CallbackServer) :
  parked_ok g -> Forall response_ok (responses s) ->
  Forall response_ok (responses (resume g s)).
Proof.
  intros Hg Hr. destruct g as [w | code |]; cbn in *.
  - apply Forall_app. split; [exact Hr |].
    constructor; [now left | constructor].
  - apply Forall_app. split; [exact Hr |].
    constructor; [right; eauto | constructor].
  - exact Hr.
Qed.

Lemma send_err_ok (e : string) (g : parked) (s : CallbackServer) :
  parked_ok g -> handled_ok s -> handled_ok (send_err e g s).
Proof.
  intros Hg (Hr & Hb & Hqc & Hqe).
  destruct (Nat.lt_ge_cases (length (buf (errChan s))) (cap (errChan s)))
    as [Hroom | Hfull].
  - rewrite send_err_room by assumption. unfold handled_ok.
    destruct (resume_channels g
                (set_errChan (Chan (cap (errChan s)) (buf (errChan s) ++ [e])
                                   (sendq (errChan s))) s)) as [-> ->].
    split; [apply resume_ok; assumption |]. cbn. auto.
  - rewrite send_err_full by assumption. unfold handled_ok. cbn.
    repeat split; auto. apply Forall_app. split; [exact Hqe |].
    constructor; [exact Hg | constructor].
Qed.

Lemma send_code_ok (code : string) (s : CallbackServer) :
  code <> "" -> handled_ok s ->
  handled_ok (send_code code (InHandlerCode code) s).
Proof.
  intros Hcode (Hr & Hb & Hqc & Hqe).
  destruct (Nat.lt_ge_cases (length (buf (codeChan s))) (cap (codeChan s)))
    as [Hroom | Hfull].
  - rewrite send_code_room by assumption. unfold handled_ok. cbn.
    repeat split; auto.
    + apply Forall_app. split; [exact Hr |].
      constructor; [right; eauto | constructor].
    + apply Forall_app. split; [exact Hb |].
      constructor; [exact Hcode | constructor].
  - rewrite send_code_full by assumption. unfold handled_ok. cbn.
    repeat split; auto. apply Forall_app. split; [exact Hqc |].
    constructor; [split; [exact Hcode | exact Hcode] | constructor].
Qed.

Lemma handleCallback_handled_ok (r : Request) (s : CallbackServer) :
  handled_ok s -> handled_ok (handleCallback r s).
Proof.
  intros Hs. rewrite handleCallback_branches. cbv zeta.
  destruct (String.eqb_spec (Get (Query r) "code") "") as [Hc | Hc].
  - apply send_err_ok; [reflexivity | exact Hs].
  - destruct (String.eqb (Get (Query r) "error") "").
    + now apply send_code_ok.
    + apply send_err_ok; [reflexivity | exact Hs].
Qed.

Lemma wake_ok (g : option parked) (s : CallbackServer) :
  match g with Some g0 => parked_ok g0 | None => True end ->
  Forall response_ok (responses s) ->
  Forall response_ok (responses (wake g s)).
Proof.
  destruct g as [g |]; cbn [wake]; [apply resume_ok | auto].
Qed.

Lemma WaitForCode_handled_ok (ctx : option string) (pick : nat)
    (s s' : CallbackServer) (res : string * option string) :
  WaitForCode ctx pick s = Some (res, s') -> handled_ok s ->
  handled_ok s' /\
  ((snd res = None /\ fst res <> "") \/ (fst res = "" /\ snd res <> None)).
Proof.
  unfold WaitForCode. intros H (Hr & Hb & Hqc & Hqe). revert H.
  destruct (_ !! _) as [[| |] |]; [| | | discriminate].
  - destruct (recv (codeChan s)) as [[[code ch] g] |] eqn:Hrecv;
      [| discriminate].
    intros [= <- <-]. apply recv_cases in Hrecv as [_ Hrecv]. unfold handled_ok.
    destruct (wake_code ch g s) as (-> & -> & _).
    destruct Hrecv as [(-> & Eq & Eq' & Eb)
                      | (g0 & v0 & rest & -> & Eq & Eb & Eb')].
    + rewrite Eb in Hb. inversion Hb as [| ? ? Hcode Hrest]; subst.
      cbn. rewrite Eq'. repeat split; auto.
    + rewrite Eb in Hb. inversion Hb as [| ? ? Hcode Hrest]; subst.
      rewrite Eq in Hqc. inversion Hqc as [| ? ? [Hv0 Hg0] Hq]; subst.
      cbn [fst snd] in *. rewrite Eb'. split; [| auto].
      split; [apply resume_ok; assumption |].
      split; [apply Forall_app; split;
              [exact Hrest | constructor; [exact Hv0 | constructor]] |].
      split; assumption.
  - destruct (recv (errChan s)) as [[[err ch] g] |] eqn:Hrecv;
      [| discriminate].
    intros [= <- <-]. apply recv_cases in Hrecv as [_ Hrecv]. unfold handled_ok.
    destruct (wake_err ch g s) as (-> & -> & _).
    destruct Hrecv as [(-> & Eq & Eq' & Eb)
                      | (g0 & v0 & rest & -> & Eq & Eb & Eb')].
    + cbn. rewrite Eq'. split; [| right; split; [reflexivity | discriminate]].
      repeat split; auto.
    + rewrite Eq in Hqe. inversion Hqe as [| ? ? Hg0 Hq]; subst.
      cbn [fst snd] in *.
      split; [| right; split; [reflexivity | discriminate]].
      split; [apply resume_ok; assumption |]. repeat split; assumption.
  - destruct ctx as [e |]; [| discriminate]. intros [= <- <-].
    split; [repeat split; assumption |].
    right. split; [reflexivity | discriminate].
Qed.

Lemma serve_fails_handled_ok (srv : nat) (e : string) (s : CallbackServer) :
  handled_ok s -> handled_ok (serve_fails srv e s).
Proof.
  intros Hs. unfold serve_fails.
  destruct (bool_decide (srv ∈ serving s)); [| exact Hs].
  apply send_err_ok; [exact I |].
  destruct Hs as (Hr & Hb & Hqc & Hqe). repeat split; assumption.
Qed.

Lemma run_handled_ok (evs : list event) :
  forall s, handled_ok s -> handled_ok (run evs s).
Proof.
  induction evs as [| ev evs IH]; intros s Hs; [exact Hs |].
  cbn [run fold_left]. apply IH.
  destruct ev as [r | ctx pick | srv e]; cbn [step].
  - now apply handleCallback_handled_ok.
  - destruct (WaitForCode ctx pick s) as [[res s'] |] eqn:Hw; [| exact Hs].
    now apply (WaitForCode_handled_ok _ _ _ _ _ Hw).
  - now apply serve_fails_handled_ok.
Qed.

Lemma Start_handled_ok (port : Z) (path : string) (listen : option string) :
  handled_ok (fst (Start listen (NewCallbackServer port path))).
Proof. destruct listen; repeat split; constructor. Qed.

(** X7. Whatever requests came in before, WaitForCode returns either a
    code that is not empty together with no error, or an error together
    with the empty code. *)
Theorem WaitForCode_code_or_error (port : Z) (path : string)
  (listen : option string) (evs : list event)
  (ctx : option string) (pick : nat) (code : string) (err : option string)
  (s' : CallbackServer)
  (Hwait : WaitForCode ctx pick
             (run evs (fst (Start listen (NewCallbackServer port path))))
           = Some ((code, err), s')) :
  (err = None /\ code <> "") \/ (code = "" /\ err <> None).
Proof.
  pose proof (run_handled_ok evs _ (Start_handled_ok port path listen)) as Hs.
  destruct (WaitForCode_handled_ok _ _ _ _ _ Hwait Hs) as [_ H]. exact H.
Qed.

(** The answers and the parked handlers together are as many as the
    requests. *)
Lemma serve_fails_counts (srv : nat) (e : string) (s : CallbackServer) :
  length (responses (serve_fails srv e s))
  + parked_handlers (serve_fails srv e s)
  = length (responses s) + parked_handlers s.
Proof.
  unfold serve_fails, parked_handlers.
  destruct (bool_decide (srv ∈ serving s)); [| reflexivity].
  match goal with
  | |- context [send_err ?m InServe ?t] =>
      destruct (Nat.lt_ge_cases (length (buf (errChan t))) (cap (errChan t)))
        as [Hroom | Hfull];
      [rewrite (send_err_room m InServe t Hroom)
      | rewrite (send_err_full m InServe t Hfull)]
  end.
  - reflexivity.
  - unfold set_errChan. cbn [responses codeChan errChan sendq].
    rewrite handlers_in_app. unfold handlers_in at 3. cbn. lia.
Qed.

Lemma run_counts (evs : list event) :
  forall s,
    length (responses (run evs s)) + parked_handlers (run evs s)
    = length (responses s) + parked_handlers s + inbound evs.
Proof.
  induction evs as [| ev evs IH]; intros s; [cbn; lia |].
  cbn [run fold_left]. fold (run evs (step s ev)). rewrite IH.
  unfold inbound. destruct ev as [r | ctx pick | srv e]; cbn [step List.filter].
  - destruct (handleCallback_counts r s) as [_ H]. cbn [length]. lia.
  - destruct (WaitForCode ctx pick s) as [[res s'] |] eqn:Hw; [| lia].
    destruct (WaitForCode_counts _ _ _ _ _ Hw) as [_ H]. lia.
  - rewrite serve_fails_counts. lia.
Qed.

(** X8. Along any run, every response sent is either a 400 or the 200
    page that shows a code which is not empty; and there are never more
    responses than requests: the responses and the handlers still parked
    are together as many as the requests. *)
Theorem responses_are_400_or_the_page (port : Z) (path : string)
  (listen : option string) (evs : list event) :
  let s := run evs (fst (Start listen (NewCallbackServer port path))) in
  Forall (fun w =>
            StatusCode w = 400 \/
            exists code,
              code <> "" /\ StatusCode w = 200 /\
              Body w = successHTML_head +:+ code +:+ successHTML_tail)
         (responses s) /\
  length (responses s) + parked_handlers s = inbound evs.
Proof.
  cbv zeta. split.
  - destruct (run_handled_ok evs _ (Start_handled_ok port path listen))
      as (Hr & _).
    eapply Forall_impl; [exact Hr |].
    intros w [H | (code & Hcode & ->)]; [now left |].
    right. exists code. repeat split. exact Hcode.
  - rewrite run_counts. destruct listen; cbn; lia.
Qed.

End Handled.

(** ** callback.go: from Start to Stop *)

Section Lifecycle.

Import Chan Server.

(** X9. The whole handoff: on a server that has just started, a redirect
    with a code and no error makes WaitForCode return that very code with
    no error, whatever the runtime picks; the browser gets the page that
    shows the code; and Stop then returns, as often as it is called. *)
Theorem code_reaches_the_caller (port : Z) (path : string) (r : Request)
  (pick : nat)
  (Hcode : Get (Query r) "code" <> "")
  (Herror : Get (Query r) "error" = "") :
  let code := Get (Query r) "code" in
  let s1 := fst (Start None (NewCallbackServer port path)) in
  let s2 := handleCallback r s1 in
  exists s3 s4,
    WaitForCode None pick s2 = Some ((code, None), s3) /\
    responses s3 = [success_page code] /\
    buffered s3 + parked_senders s3 = 0 /\
    Stop s3 = Returns s4 /\ Stop s4 = Returns s4.
Proof.
  cbv zeta. rewrite handleCallback_branches. cbv zeta.
  apply String.eqb_neq in Hcode. rewrite Hcode, Herror. cbn [String.eqb].
  rewrite send_code_room by (cbn; lia).
  match goal with
  | |- context [WaitForCode None pick ?t] => set (s2 := t)
  end.
  assert (codeChan s2 = Chan 1 [Get (Query r) "code"] []) as Ec
    by (destruct r; reflexivity).
  assert (errChan s2 = Chan 1 [] []) as Ee by reflexivity.
  unfold WaitForCode. rewrite ready_cases, Ec, Ee. cbn [buf].
  rewrite bool_decide_eq_false_2 by discriminate.
  rewrite bool_decide_eq_true_2 by reflexivity.
  cbn [app length]. rewrite Nat.mod_1_r.
  change ([CaseCode] !! 0) with (Some CaseCode). cbv iota.
  unfold recv. cbn [buf sendq cap wake].
  eexists. eexists. split; [reflexivity |]. cbn. repeat split.
Qed.

(** X10. The redirect URI is made of the port and the path given to
    NewCallbackServer, and nothing that happens to the server changes it:
    not Start, not the requests, not WaitForCode, not Stop. *)
Theorem GetRedirectURI_never_changes (port : Z) (path : string)
  (listen : option string) (evs : list event) :
  let uri := "http://localhost:" +:+ pretty port +:+ path in
  let s0 := NewCallbackServer port path in
  let s := run evs (fst (Start listen s0)) in
  GetRedirectURI s0 = uri /\
  GetRedirectURI (run evs s0) = uri /\
  GetRedirectURI s = uri /\
  match Stop s with
  | Returns s' | Panics s' | Blocks s' => GetRedirectURI s' = uri
  end.
Proof.
  assert (forall ev t, Server.port (step t ev) = Server.port t /\
                       Server.path (step t ev) = Server.path t) as Hstep.
  { intros ev t. destruct ev as [r | ctx pick | srv e]; cbn [step].
    - rewrite handleCallback_branches. cbv zeta. unfold send_err, send_code.
      repeat match goal with
             | |- context [if ?b then _ else _] => destruct b
             | |- context [send ?ch ?v ?g] => destruct (send ch v g) as [? ?]
             end; cbn; auto.
    - unfold WaitForCode.
      destruct (_ !! _) as [[| |] |]; auto.
      + destruct (recv (codeChan t)) as [[[v ch] [[| |] |]] |]; cbn; auto.
      + destruct (recv (errChan t)) as [[[v ch] [[| |] |]] |]; cbn; auto.
      + destruct ctx; cbn; auto.
    - unfold serve_fails, send_err.
      repeat match goal with
             | |- context [if ?b then _ else _] => destruct b
             | |- context [send ?ch ?v ?g] => destruct (send ch v g) as [? ?]
             end; cbn; auto. }
  assert (forall evs t, Server.port (run evs t) = Server.port t /\
                        Server.path (run evs t) = Server.path t) as Hrun.
  { intros evs0. induction evs0 as [| ev evs0 IH]; intros t; [auto |].
    cbn [run fold_left]. fold (run evs0 (step t ev)).
    destruct (IH (step t ev)) as [-> ->]. apply Hstep. }
  cbv zeta. unfold GetRedirectURI.
  split; [reflexivity |].
  split; [destruct (Hrun evs (NewCallbackServer port path)) as [-> ->];
          reflexivity |].
  assert (Server.port (run evs (fst (Start listen (NewCallbackServer port path))))
          = port /\
          Server.path (run evs (fst (Start listen (NewCallbackServer port path))))
          = path) as [Ep Epath].
  { destruct (Hrun evs (fst (Start listen (NewCallbackServer port path))))
      as [-> ->]. destruct listen; split; reflexivity. }
  split; [now rewrite Ep, Epath |].
  unfold Stop.
  destruct (once _); [now rewrite Ep, Epath |].
  destruct (server _); [| cbn; now rewrite Ep, Epath].
  destruct (_ =? 0)%nat; cbn; now rewrite Ep, Epath.
Qed.

(** X11. Start stores a new server in the struct before it listens, so a
    second call of Start, whether its Listen fails (the port being taken
    by the first) or not, cuts Stop off from the Serve loop of the first:
    Stop then waits for ever. *)
Theorem Stop_blocks_after_second_Start (port : Z) (path : string)
  (listen2 : option string) :
  let s1 := fst (Start None (NewCallbackServer port path)) in
  let s2 := fst (Start listen2 s1) in
  exists s', Stop s2 = Blocks s' /\ serving s' = [0] /\ once s' = false.
Proof.
  cbv zeta. destruct listen2 as [e |]; eexists; cbn; repeat split.
Qed.

End Lifecycle.

(** ** utils.go *)

Section Utils.

Import Utils.

Lemma substring_prefix_length (n : nat) (s : string) :
  n <= String.length s -> String.length (String.substring 0 n s) = n.
Proof.
  revert s. induction n as [| n IH]; intros s Hn.
  - destruct s; reflexivity.
  - destruct s as [| c s]; cbn in *; [lia |]. rewrite IH; lia.
Qed.

Lemma append_length (a b : string) :
  String.length (a +:+ b) = String.length a + String.length b.
Proof.
  induction a as [| c a IH]; [reflexivity |].
  change (String c a +:+ b) with (String c (a +:+ b)).
  cbn [String.length]. now rewrite IH.
Qed.

(** X12. With room for the dots, TruncateString never gives more than
    maxLen bytes: a string that fits comes back as it is, a longer one is
    cut to its first maxLen-3 bytes followed by three dots, maxLen bytes
    in all; and truncating the result again changes nothing. *)
Theorem TruncateString_fits (s : string) (maxLen : Z)
  (Hmax : (3 <= maxLen)%Z) :
  exists t,
    TruncateString s maxLen = Some t /\
    (Z.of_nat (String.length t) <= maxLen)%Z /\
    ((Z.of_nat (String.length s) <= maxLen)%Z -> t = s) /\
    ((Z.of_nat (String.length s) > maxLen)%Z ->
       t = String.substring 0 (Z.to_nat (maxLen - 3)) s +:+ "..." /\
       Z.of_nat (String.length t) = maxLen) /\
    TruncateString t maxLen = Some t.
Proof.
  unfold TruncateString.
  destruct (Z.leb_spec (Z.of_nat (String.length s)) maxLen) as [Hfit | Hlong].
  - exists s. repeat split; auto; try lia.
    destruct (Z.leb_spec (Z.of_nat (String.length s)) maxLen); [reflexivity | lia].
  - destruct (Z.ltb_spec (maxLen - 3) 0) as [Hneg | _]; [lia |].
    eexists. split; [reflexivity |].
    assert (String.length
              (String.substring 0 (Z.to_nat (maxLen - 3)) s +:+ "...")
            = Z.to_nat maxLen) as Hlen.
    { rewrite append_length, substring_prefix_length by lia. cbn. lia. }
    rewrite Hlen. repeat split; try lia.
    destruct (Z.leb_spec (Z.of_nat (Z.to_nat maxLen)) maxLen);
      [reflexivity | lia].
Qed.

(** X13. TruncateString panics exactly when the string is longer than
    maxLen and maxLen is less than three. *)
Theorem TruncateString_panics (s : string) (maxLen : Z) :
  TruncateString s maxLen = None
  <-> (Z.of_nat (String.length s) > maxLen /\ maxLen < 3)%Z.
Proof.
  unfold TruncateString.
  destruct (Z.leb_spec (Z.of_nat (String.length s)) maxLen) as [Hfit | Hlong].
  - split; [discriminate | lia].
  - destruct (Z.ltb_spec (maxLen - 3) 0) as [Hneg | Hok].
    + split; [lia | reflexivity].
    + split; [discriminate | lia].
Qed.

(** X14. A variable that is set to the empty string counts as not set:
    GetRequiredEnv succeeds exactly on the variables that are set to a
    value that is not empty, GetEnv then gives that same value whatever
    the default, and otherwise the default; so GetEnv only gives the empty
    string when the default is empty. *)
Theorem GetEnv_and_GetRequiredEnv (env : gmap string string)
  (key defaultValue : string) :
  (forall value,
      GetRequiredEnv env key = inl value
      <-> env !! key = Some value /\ value <> "") /\
  (forall value,
      GetRequiredEnv env key = inl value ->
      GetEnv env key defaultValue = value) /\
  ((exists msg, GetRequiredEnv env key = inr msg) ->
   GetEnv env key defaultValue = defaultValue) /\
  (GetEnv env key defaultValue = "" -> defaultValue = "").
Proof.
  unfold GetRequiredEnv, GetEnv, Getenv.
  destruct (env !! key) as [v |]; cbv zeta.
  - destruct (String.eqb_spec v "") as [-> | Hv].
    + split; [| split; [| split]].
      * intros value. split; [discriminate |].
        intros [H Hne]. congruence.
      * discriminate.
      * reflexivity.
      * auto.
    + split; [| split; [| split]].
      * intros value. split.
        -- intros [= <-]. auto.
        -- intros [H _]. congruence.
      * intros value [= <-]. reflexivity.
      * intros [msg H]. discriminate.
      * intros ->. congruence.
  - cbn [String.eqb]. split; [| split; [| split]].
    + intros value. split; [discriminate |]. intros [H _]. discriminate.
    + discriminate.
    + reflexivity.
    + auto.
Qed.

End Utils.

(** ** logger.go *)

Section Logger.

Import Logger.

(** X15. A message below the level of the logger is not written and one
    at or above it is written once; Educational and Step write their three
    and two records exactly when the level is Info or lower; so a logger
    at DisabledLevel never writes anything. *)
Theorem logger_level_filter (l : Logger) (lvl : LogLevel)
  (t1 t2 t3 message topic name description : string) (n : Z) :
  (length (writer (log t1 lvl message l))
   = length (writer l) + (if (lvl <? level l)%Z then 0 else 1)) /\
  (length (writer (Educational t1 t2 t3 topic message l))
   = length (writer l) + (if (level l <=? InfoLevel)%Z then 3 else 0)) /\
  (length (writer (Step t1 t2 n name description l))
   = length (writer l) + (if (level l <=? InfoLevel)%Z then 2 else 0)) /\
  (level l = DisabledLevel ->
   log t1 DebugLevel message l = l /\ log t1 InfoLevel message l = l /\
   log t1 WarnLevel message l = l /\ log t1 ErrorLevel message l = l /\
   Educational t1 t2 t3 topic message l = l /\
   Step t1 t2 n name description l = l).
Proof.
  assert (forall t m k, (level k <= InfoLevel)%Z ->
                        level (Info t m k) = level k /\
                        length (writer (Info t m k)) = S (length (writer k)))
    as HInfo.
  { intros t m k Hk. unfold Info, log.
    destruct (Z.ltb_spec InfoLevel (level k)); [lia |].
    cbn. rewrite length_app. cbn. split; [reflexivity | lia]. }
  split; [| split; [| split]].
  - unfold log. destruct (lvl <? level l)%Z; [lia |].
    cbn. rewrite length_app. cbn. lia.
  - unfold Educational.
    destruct (Z.gtb_spec (level l) InfoLevel) as [H | H];
      destruct (Z.leb_spec (level l) InfoLevel) as [H' | H']; try lia.
    cbv zeta.
    match goal with
    | |- context [Info t3 ?m3 (Info t2 ?m2 (Info t1 ?m1 l))] =>
        destruct (HInfo t1 m1 l H) as [L1 N1];
        destruct (HInfo t2 m2 (Info t1 m1 l) ltac:(lia)) as [L2 N2];
        destruct (HInfo t3 m3 (Info t2 m2 (Info t1 m1 l)) ltac:(lia))
          as [L3 N3]
    end.
    lia.
  - unfold Step.
    destruct (Z.gtb_spec (level l) InfoLevel) as [H | H];
      destruct (Z.leb_spec (level l) InfoLevel) as [H' | H']; try lia.
    cbv zeta.
    match goal with
    | |- context [Info t2 ?m2 (Info t1 ?m1 l)] =>
        destruct (HInfo t1 m1 l H) as [L1 N1];
        destruct (HInfo t2 m2 (Info t1 m1 l) ltac:(lia)) as [L2 N2]
    end.
    lia.
  - intros Hl. unfold Educational, Step, log. rewrite Hl.
    repeat split; reflexivity.
Qed.

Lemma count_byte_app (c : ascii) (a b : string) :
  count_byte c (a +:+ b) = count_byte c a + count_byte c b.
Proof.
  induction a as [| x a IH]; [reflexivity |].
  change (String x a +:+ b) with (String x (a +:+ b)).
  cbn [count_byte]. rewrite IH. lia.
Qed.

Lemma Split_prefix (a s : string) (sep : ascii) :
  count_byte sep a = 0 ->
  Strings.Split (a +:+ s) sep
  = match Strings.Split s sep with
    | piece :: pieces => (a +:+ piece) :: pieces
    | [] => []
    end.
Proof.
  induction a as [| x a IH]; intros Ha.
  - change ("" +:+ s) with s. destruct (Strings.Split s sep); reflexivity.
  - change (String x a +:+ s) with (String x (a +:+ s)).
    cbn [count_byte] in Ha. cbn [Strings.Split].
    destruct (Ascii.eqb x sep); [discriminate |].
    rewrite IH by exact Ha.
    pose proof (Split_nonempty s sep).
    destruct (Strings.Split s sep); [congruence | reflexivity].
Qed.

Lemma Split_snoc_sep (s : string) (sep : ascii) :
  Strings.Split (s +:+ String sep "") sep
  = (Strings.Split s sep ++ [""])%list.
Proof.
  induction s as [| x s IH].
  - change ("" +:+ String sep "") with (String sep "").
    cbn [Strings.Split]. now rewrite Ascii.eqb_refl.
  - change (String x s +:+ String sep "") with (String x (s +:+ String sep "")).
    cbn [Strings.Split]. rewrite IH.
    destruct (Ascii.eqb x sep); [reflexivity |].
    pose proof (Split_nonempty s sep).
    destruct (Strings.Split s sep); [congruence | reflexivity].
Qed.

(** Splitting undoes the joining of pieces that do not contain the
    separator. *)
Lemma Split_Join (pieces : list string) (sep : ascii) :
  pieces <> [] ->
  Forall (fun piece => count_byte sep piece = 0) pieces ->
  Strings.Split (Strings.Join pieces sep) sep = pieces.
Proof.
  induction pieces as [| p ps IH]; [congruence |].
  intros _ Hall. inversion Hall as [| ? ? Hp Hps]; subst.
  destruct ps as [| p' ps].
  - cbn [Strings.Join]. now apply Split_no_sep.
  - cbn [Strings.Join]. rewrite Split_app by exact Hp.
    f_equal. apply IH; [discriminate | exact Hps].
Qed.

(** X16. A record that is written keeps every line of the message: the
    first line follows the time and the level, each further line is moved
    in by sixteen spaces, and the record ends with a line feed; splitting
    the record at the line feeds gives exactly these lines back, and one
    empty piece for the final line feed. *)
Theorem log_keeps_and_indents_lines (l : Logger) (timestamp : string)
  (lvl : LogLevel) (message : string)
  (Hlevel : (level l <= lvl)%Z)
  (Htime : count_byte "010" timestamp = 0) :
  exists prefix first rest record,
    Strings.Split message "010" = first :: rest /\
    formatMessage timestamp lvl "" = prefix /\
    writer (log timestamp lvl message l) = (writer l ++ [record])%list /\
    Strings.Split record "010"
    = ((prefix +:+ first) :: map (fun line => indent +:+ line) rest
       ++ [""])%list.
Proof.
  pose proof (Split_nonempty message "010") as Hne.
  pose proof (Split_pieces message "010") as Hpieces.
  destruct (Strings.Split message "010") as [| first rest] eqn:Emsg;
    [congruence |].
  set (prefix := formatMessage timestamp lvl "").
  assert (count_byte "010" prefix = 0) as Hprefix.
  { subst prefix. unfold formatMessage.
    rewrite !count_byte_app, Htime.
    repeat match goal with
           | |- context [if ?b then _ else _] => destruct b
           end; reflexivity. }
  assert (forall a b c d e m : string,
             a +:+ b +:+ c +:+ d +:+ e +:+ m
             = (a +:+ b +:+ c +:+ d +:+ e +:+ "") +:+ m) as Hassoc.
  { intros a b c d e m.
    assert (forall x y z : string, (x +:+ y) +:+ z = x +:+ y +:+ z) as A.
    { intros x y z. induction x as [| ch x IHx]; [reflexivity |].
      change (String ch x +:+ y) with (String ch (x +:+ y)).
      change (String ch (x +:+ y) +:+ z) with (String ch ((x +:+ y) +:+ z)).
      now rewrite IHx. }
    rewrite !A. reflexivity. }
  assert (formatMessage timestamp lvl message = prefix +:+ message) as Hfmt.
  { subst prefix. unfold formatMessage. cbv zeta. apply Hassoc. }
  assert (Strings.Split (formatMessage timestamp lvl message) "010"
          = (prefix +:+ first) :: rest) as Hsplit.
  { rewrite Hfmt, Split_prefix, Emsg by exact Hprefix. reflexivity. }
  inversion Hpieces as [| ? ? Hfirst Hrest]; subst.
  exists prefix, first, rest.
  eexists. split; [reflexivity |]. split; [reflexivity |].
  unfold log. destruct (Z.ltb_spec lvl (level l)) as [H | _]; [lia |].
  cbv zeta. rewrite Hsplit. unfold Fprintln. cbn [writer].
  split; [reflexivity |].
  rewrite Split_snoc_sep, app_comm_cons. f_equal.
  destruct rest as [| r1 rest'].
  - cbn [length Nat.ltb Nat.leb map]. rewrite Hfmt.
    rewrite Split_prefix, Emsg by exact Hprefix. reflexivity.
  - cbn [length Nat.ltb Nat.leb].
    apply Split_Join; [discriminate |].
    constructor.
    + rewrite count_byte_app, Hprefix, Hfirst. reflexivity.
    + apply Forall_map. eapply Forall_impl; [exact Hrest |].
      intros line Hline. cbn beta. rewrite count_byte_app, Hline. reflexivity.
Qed.

End Logger.

(** ** net/url: what QueryEscape lets through *)

Section QueryEscape.

Import URL Strings.

(** A property checked on the 256 bytes holds of every byte. *)
Lemma all_bytes (P : ascii -> bool) :
  forallb P (map ascii_of_nat (seq 0 256)) = true ->
  forall c, P c = true.
Proof.
  intros H c. rewrite forallb_forall in H. apply H.
  rewrite <- (ascii_nat_embedding c). apply in_map. apply in_seq.
  pose proof (nat_ascii_bounded c). lia.
Qed.

Lemma escape_of_byte (c : ascii) :
  unreserved (upperhex (N_of_ascii c / 16)) &&
  unreserved (upperhex (N_of_ascii c mod 16)) = true.
Proof. revert c. apply all_bytes. vm_compute. reflexivity. Qed.

Lemma unreserved_escaped (c : ascii) :
  unreserved c = true -> escaped_char c = true.
Proof. unfold escaped_char. intros ->. reflexivity. Qed.

Lemma QueryEscape_chars (s : string) :
  string_forall escaped_char (QueryEscape s) = true.
Proof.
  induction s as [| c s IH]; [reflexivity |].
  cbn [QueryEscape]. destruct (unreserved c) eqn:Hc.
  - cbn [string_forall]. rewrite IH, (unreserved_escaped c Hc). reflexivity.
  - destruct (Ascii.eqb c " ").
    + cbn [string_forall]. rewrite IH. reflexivity.
    + pose proof (escape_of_byte c) as H.
      apply andb_true_iff in H as [H1 H2].
      cbn [string_forall].
      rewrite IH, (unreserved_escaped _ H1), (unreserved_escaped _ H2).
      reflexivity.
Qed.

Lemma append_assoc (a b c : string) : (a +:+ b) +:+ c = a +:+ (b +:+ c).
Proof.
  induction a as [| x a IH]; [reflexivity |].
  change (String x a +:+ b) with (String x (a +:+ b)).
  change (String x (a +:+ b) +:+ c) with (String x ((a +:+ b) +:+ c)).
  rewrite IH. reflexivity.
Qed.

Lemma count_byte_outside (P : ascii -> bool) (c : ascii) (s : string) :
  string_forall P s = true -> P c = false -> count_byte c s = 0.
Proof.
  intros Hs Hc. induction s as [| a s IH]; [reflexivity |].
  cbn [string_forall] in Hs. apply andb_true_iff in Hs as [Ha Hs].
  cbn [count_byte]. rewrite (IH Hs).
  destruct (Ascii.eqb_spec a c) as [-> | _]; [congruence | reflexivity].
Qed.

Lemma QueryEscape_count (c : ascii) (s : string) :
  escaped_char c = false -> count_byte c (QueryEscape s) = 0.
Proof.
  intros Hc. apply (count_byte_outside escaped_char); [| exact Hc].
  apply QueryEscape_chars.
Qed.

Lemma urlsafe_unreserved (c : ascii) :
  is_urlsafe c = true -> unreserved c = true.
Proof.
  revert c.
  enough (forall c, implb (is_urlsafe c) (unreserved c) = true) as H.
  { intros c Hc. specialize (H c). rewrite Hc in H. exact H. }
  apply all_bytes. vm_compute. reflexivity.
Qed.

Lemma QueryEscape_urlsafe (s : string) :
  string_forall is_urlsafe s = true -> QueryEscape s = s.
Proof.
  induction s as [| c s IH]; [reflexivity |].
  cbn [string_forall]. intros H. apply andb_true_iff in H as [Hc Hs].
  cbn [QueryEscape]. rewrite (urlsafe_unreserved c Hc), (IH Hs).
  reflexivity.
Qed.

(** The query that [Encode] makes of a map with known keys: the keys
    sorted, the values looked up, the names escaped. *)
Ltac compute_Encode :=
  unfold Encode, Set_;
  match goal with
  | |- context [sort_keys ?l] =>
      let r := eval vm_compute in (sort_keys l) in
      replace (sort_keys l) with r by (vm_compute; reflexivity)
  end;
  cbn [flat_map];
  repeat match goal with
  | |- context [@lookup _ _ _ _ ?k ?m] =>
      let r := eval vm_compute in (m !! k) in
      replace (m !! k) with r by (vm_compute; reflexivity)
  end;
  cbn [map app Join];
  repeat match goal with
  | |- context [QueryEscape (String ?x ?y)] =>
      let r := eval vm_compute in (QueryEscape (String x y)) in
      replace (QueryEscape (String x y)) with r by (vm_compute; reflexivity)
  end.

Lemma Encode_seven (a b c d e f g : string) :
  Encode (Set_ "code_challenge_method" g
            (Set_ "code_challenge" f
               (Set_ "state" e
                  (Set_ "scope" d
                     (Set_ "response_type" c
                        (Set_ "redirect_uri" b
                           (Set_ "client_id" a ∅))))))) =
  "client_id=" +:+ QueryEscape a +:+
  "&code_challenge=" +:+ QueryEscape f +:+
  "&code_challenge_method=" +:+ QueryEscape g +:+
  "&redirect_uri=" +:+ QueryEscape b +:+
  "&response_type=" +:+ QueryEscape c +:+
  "&scope=" +:+ QueryEscape d +:+
  "&state=" +:+ QueryEscape e.
Proof.
  compute_Encode.
  generalize (QueryEscape a), (QueryEscape b), (QueryEscape c),
    (QueryEscape d), (QueryEscape e), (QueryEscape f), (QueryEscape g).
  intros. reflexivity.
Qed.

Lemma Encode_eight (a b c d e f g h : string) :
  Encode (Set_ "audience" h
            (Set_ "code_challenge_method" g
               (Set_ "code_challenge" f
                  (Set_ "state" e
                     (Set_ "scope" d
                        (Set_ "response_type" c
                           (Set_ "redirect_uri" b
                              (Set_ "client_id" a ∅)))))))) =
  "audience=" +:+ QueryEscape h +:+
  "&client_id=" +:+ QueryEscape a +:+
  "&code_challenge=" +:+ QueryEscape f +:+
  "&code_challenge_method=" +:+ QueryEscape g +:+
  "&redirect_uri=" +:+ QueryEscape b +:+
  "&response_type=" +:+ QueryEscape c +:+
  "&scope=" +:+ QueryEscape d +:+
  "&state=" +:+ QueryEscape e.
Proof.
  compute_Encode.
  generalize (QueryEscape a), (QueryEscape b), (QueryEscape c),
    (QueryEscape d), (QueryEscape e), (QueryEscape f), (QueryEscape g),
    (QueryEscape h).
  intros. reflexivity.
Qed.

Lemma Encode_six (a b c d e f : string) :
  Encode (Set_ "redirect_uri" f
            (Set_ "grant_type" e
               (Set_ "code_verifier" d
                  (Set_ "code" c
                     (Set_ "client_secret" b
                        (Set_ "client_id" a ∅)))))) =
  "client_id=" +:+ QueryEscape a +:+
  "&client_secret=" +:+ QueryEscape b +:+
  "&code=" +:+ QueryEscape c +:+
  "&code_verifier=" +:+ QueryEscape d +:+
  "&grant_type=" +:+ QueryEscape e +:+
  "&redirect_uri=" +:+ QueryEscape f.
Proof.
  compute_Encode.
  generalize (QueryEscape a), (QueryEscape b), (QueryEscape c),
    (QueryEscape d), (QueryEscape e), (QueryEscape f).
  intros. reflexivity.
Qed.

End QueryEscape.

(** ** oauth.go *)

Section OAuth.

Import URL Strings PKCE OAuth.

(** X17. The authorization URL is the endpoint, one '?' and the
    parameters in the order of their names, not in the order in which
    they were set, each value escaped.  Whatever the client ID, the
    redirect URI, the scopes, the state and the audience contain, the URL
    has six '&' (seven with an audience), one '?', and no '#' and no
    space: no value can add a parameter or cut the URL short. *)
Theorem GetAuthorizationURL_parameters (cl : OAuth2Client) :
  let cfg := config cl in
  let u := GetAuthorizationURL cl in
  u = GoogleAuthURL +:+ "?" +:+
      (if String.eqb (Audience cfg) "" then ""
       else "audience=" +:+ QueryEscape (Audience cfg) +:+ "&") +:+
      "client_id=" +:+ QueryEscape (ClientID cfg) +:+
      "&code_challenge=" +:+ QueryEscape (challenge cl) +:+
      "&code_challenge_method=S256" +:+
      "&redirect_uri=" +:+ QueryEscape (RedirectURI cfg) +:+
      "&response_type=code" +:+
      "&scope=" +:+ QueryEscape (Join (Scopes cfg) " ") +:+
      "&state=" +:+ QueryEscape (state cl) /\
  count_byte "&" u = (if String.eqb (Audience cfg) "" then 6 else 7) /\
  count_byte "?" u = 1 /\
  count_byte "#" u = 0 /\
  count_byte " " u = 0.
Proof.
  cbv zeta.
  assert (GetAuthorizationURL cl = GoogleAuthURL +:+ "?" +:+
      (if String.eqb (Audience (config cl)) "" then ""
       else "audience=" +:+ QueryEscape (Audience (config cl)) +:+ "&") +:+
      "client_id=" +:+ QueryEscape (ClientID (config cl)) +:+
      "&code_challenge=" +:+ QueryEscape (challenge cl) +:+
      "&code_challenge_method=S256" +:+
      "&redirect_uri=" +:+ QueryEscape (RedirectURI (config cl)) +:+
      "&response_type=code" +:+
      "&scope=" +:+ QueryEscape (Join (Scopes (config cl)) " ") +:+
      "&state=" +:+ QueryEscape (state cl)) as Hshape.
  { unfold GetAuthorizationURL.
    destruct (String.eqb (Audience (config cl)) ""); cbn [negb].
    - rewrite Encode_seven. reflexivity.
    - rewrite Encode_eight.
      generalize (QueryEscape (Audience (config cl))). intros a.
      rewrite !append_assoc. reflexivity. }
  split; [exact Hshape |]. rewrite Hshape.
  destruct (String.eqb (Audience (config cl)) "");
    rewrite !count_byte_app, !QueryEscape_count by reflexivity;
    repeat split; reflexivity.
Qed.

Lemma encode_url_urlsafe (x : N) :
  is_urlsafe (Base64.encode_url (N.land x 63)) = true.
Proof.
  apply (below_64 (fun i => is_urlsafe (Base64.encode_url i)));
    [vm_compute; reflexivity | apply land_63_lt].
Qed.

(** Sixteen bytes make twenty-two characters and two padding signs. *)
Lemma URLEncodeToString_16 (b : list byte) :
  length b = 16 ->
  exists s,
    Base64.URLEncodeToString b = s +:+ "==" /\
    String.length s = 22 /\
    string_forall is_urlsafe s = true.
Proof.
  intros Hlen.
  do 16 (destruct b as [| ? b]; [discriminate Hlen |]).
  destruct b; [| discriminate Hlen].
  cbn [Base64.URLEncodeToString]. cbv zeta.
  eexists (String _ (String _ (String _ (String _ (String _ (String _
          (String _ (String _ (String _ (String _ (String _ (String _
          (String _ (String _ (String _ (String _ (String _ (String _
          (String _ (String _ (String _ (String _ EmptyString)))))))))))))))))))))).
  split; [reflexivity |]. split; [reflexivity |].
  cbn [string_forall]. rewrite !encode_url_urlsafe. reflexivity.
Qed.

(** X18. A client that NewOAuth2Client returns holds the configuration as
    given, a verifier of 43 characters, the challenge that verifies
    against it, and a state of 22 URL-safe characters followed by "==";
    and VerifyState accepts that state and no other string. *)
Theorem NewOAuth2Client_fresh (read1 read2 : Reader) (cfg : OAuth2Config)
  (cl : OAuth2Client)
  (Hfill1 : forall b, length (fst (read1 b)) = length b)
  (Hfill2 : forall b, length (fst (read2 b)) = length b)
  (Hnew : NewOAuth2Client read1 read2 cfg = inl cl) :
  config cl = cfg /\
  GenerateCodeVerifier read1 = inl (verifier cl) /\
  String.length (verifier cl) = 43 /\
  challenge cl = CreateCodeChallenge (verifier cl) /\
  VerifyCodeChallenge (verifier cl) (challenge cl) = true /\
  (exists s,
      state cl = s +:+ "==" /\ String.length s = 22 /\
      string_forall is_urlsafe s = true) /\
  (forall s, VerifyState cl s = true <-> s = state cl).
Proof.
  unfold NewOAuth2Client in Hnew.
  destruct (GenerateCodeVerifier read1) as [v | e] eqn:Hv; [| discriminate].
  pose proof (Hfill2 (repeat x00 16)) as Hlen.
  destruct (read2 (repeat x00 16)) as [b [e |]]; [discriminate |].
  cbn [fst] in Hlen. rewrite repeat_length in Hlen.
  injection Hnew as <-. cbn [config verifier challenge state].
  destruct (URLEncodeToString_16 b Hlen) as (s & Hs & Hs22 & Hsafe).
  split; [reflexivity |]. split; [reflexivity |].
  split.
  { apply GenerateCodeVerifier_value in Hv as [-> _].
    rewrite RawURLEncode_length, Hfill1, repeat_length. reflexivity. }
  split; [reflexivity |].
  split; [unfold VerifyCodeChallenge; apply String.eqb_refl |].
  split; [exists s; auto |].
  intros s'. unfold VerifyState. cbn [state]. rewrite Hs.
  assert (String.eqb (s +:+ "==") "" = false) as Hne.
  { apply String.eqb_neq. intros E.
    apply (f_equal String.length) in E. rewrite append_length in E.
    cbn in E. lia. }
  rewrite Hne, orb_false_r.
  destruct (String.eqb_spec s' "") as [-> | Hs'].
  - split; [discriminate |]. intros E. symmetry in E.
    apply String.eqb_neq in Hne. contradiction.
  - apply String.eqb_eq.
Qed.

(** X19. ExchangeCodeForToken sends nothing for an empty code and
    otherwise exactly one request, the same whatever the endpoint will
    answer: a POST to the token endpoint with the two headers and a form
    of six fields in the order of their names.  The values are escaped,
    so the form has five '&' whatever the code, the secret and the
    redirect URI contain. *)
Theorem ExchangeCodeForToken_sends_one_form (Do : HTTPRequest -> HTTPResult)
  (cl : OAuth2Client) (code : string) :
  let req := token_request cl code in
  snd (ExchangeCodeForToken Do cl code)
  = (if String.eqb code "" then [] else [req]) /\
  (code = "" -> fst (ExchangeCodeForToken Do cl code) = inr ErrEmptyCode) /\
  Method req = "POST" /\
  Target req = GoogleTokenURL /\
  Header req !! "Content-Type" = Some "application/x-www-form-urlencoded" /\
  Header req !! "Accept" = Some "application/json" /\
  Body req =
    "client_id=" +:+ QueryEscape (ClientID (config cl)) +:+
    "&client_secret=" +:+ QueryEscape (ClientSecret (config cl)) +:+
    "&code=" +:+ QueryEscape code +:+
    "&code_verifier=" +:+ QueryEscape (verifier cl) +:+
    "&grant_type=authorization_code" +:+
    "&redirect_uri=" +:+ QueryEscape (RedirectURI (config cl)) /\
  count_byte "&" (Body req) = 5 /\
  count_byte "=" (Body req) = 6.
Proof.
  cbv zeta.
  assert (Body (token_request cl code) =
    "client_id=" +:+ QueryEscape (ClientID (config cl)) +:+
    "&client_secret=" +:+ QueryEscape (ClientSecret (config cl)) +:+
    "&code=" +:+ QueryEscape code +:+
    "&code_verifier=" +:+ QueryEscape (verifier cl) +:+
    "&grant_type=authorization_code" +:+
    "&redirect_uri=" +:+ QueryEscape (RedirectURI (config cl))) as Hbody.
  { unfold token_request. cbn [Body]. rewrite Encode_six. reflexivity. }
  split.
  { unfold ExchangeCodeForToken. destruct (String.eqb code ""); [reflexivity |].
    destruct (Do (token_request cl code)) as [e | st [body | e]];
      [reflexivity | | reflexivity].
    destruct (negb (st =? 200)%Z); [reflexivity |].
    destruct (Unmarshal body zero); reflexivity. }
  split.
  { intros ->. reflexivity. }
  split; [reflexivity |]. split; [reflexivity |].
  split; [reflexivity |]. split; [reflexivity |].
  split; [exact Hbody |]. rewrite Hbody.
  rewrite !count_byte_app, !QueryEscape_count by reflexivity.
  split; reflexivity.
Qed.

Lemma ExchangeCodeForToken_200 (Do : HTTPRequest -> HTTPResult)
    (cl : OAuth2Client) (code : string) (body : list byte) :
  code <> "" ->
  Do (token_request cl code) = Responds 200 (inl body) ->
  fst (ExchangeCodeForToken Do cl code)
  = match Unmarshal body zero with
    | inl t => inl t
    | inr e => inr (ErrParse e)
    end.
Proof.
  intros Hcode Hdo. unfold ExchangeCodeForToken.
  destruct (String.eqb_spec code "") as [-> | _]; [contradiction |].
  rewrite Hdo. cbn [Z.eqb Pos.eqb negb].
  destruct (Unmarshal body zero); reflexivity.
Qed.

(** X20. A token comes back only from an answer with the status 200
    whose body was read to its end and unmarshals: any other status, 201
    and 204 among them, gives the error with the status and the body,
    whatever the body holds. *)
Theorem ExchangeCodeForToken_token_only_from_200
  (Do : HTTPRequest -> HTTPResult) (cl : OAuth2Client) (code : string)
  (t : TokenResponse) :
  fst (ExchangeCodeForToken Do cl code) = inl t <->
  code <> "" /\
  exists body,
    Do (token_request cl code) = Responds 200 (inl body) /\
    Unmarshal body zero = inl t.
Proof.
  unfold ExchangeCodeForToken.
  destruct (String.eqb_spec code "") as [-> | Hcode].
  { cbn [fst]. split; [discriminate | intros [H _]; contradiction]. }
  destruct (Do (token_request cl code)) as [e | st [body | e]]; cbn [fst].
  - split; [discriminate | intros (_ & body & [=] & _)].
  - destruct (Z.eqb_spec st 200) as [-> | Hst]; cbn [negb fst].
    + destruct (Unmarshal body zero) as [t' | e] eqn:Hu; cbn [fst].
      * split.
        -- intros [= <-]. split; [exact Hcode |]. exists body. auto.
        -- intros (_ & body' & [= <-] & Hu'). congruence.
      * split; [discriminate |].
        intros (_ & body' & [= <-] & Hu'). congruence.
    + split; [discriminate |].
      intros (_ & body' & [= E _] & _). contradiction.
  - split; [discriminate | intros (_ & body & [=] & _)].
Qed.

Lemma store_members_unknown (ms : list (string * JSON.value))
    (t : TokenResponse) (saved : option json_error) :
  Forall (fun m => List.find (fun f => JSON.EqualFold (fst m) (json_name f))
                     fields = None) ms ->
  store_members ms t saved = (t, saved).
Proof.
  induction 1 as [| [k v] ms Hk _ IH]; [reflexivity |].
  cbn [store_members]. cbn [fst] in Hk. rewrite Hk. exact IH.
Qed.

(** X21. The token is not checked for an access token: an answer with the
    status 200 whose body is a JSON object without any member named like
    a field of TokenResponse (under the case folding of the decoder, which
    takes the long s for s and the Kelvin sign for k), the empty object or
    an error object for instance, gives the zero TokenResponse and no
    error. *)
Theorem ExchangeCodeForToken_accepts_object_without_token
  (Do : HTTPRequest -> HTTPResult) (cl : OAuth2Client) (code : string)
  (body : list byte) (ms : list (string * JSON.value))
  (Hcode : code <> "")
  (Hdo : Do (token_request cl code) = Responds 200 (inl body))
  (Hparse : JSON.parse body = Some (JSON.Object ms))
  (Hnames : Forall (fun m =>
                      List.find (fun f => JSON.EqualFold (fst m) (json_name f))
                        fields = None) ms) :
  fst (ExchangeCodeForToken Do cl code) = inl zero.
Proof.
  rewrite (ExchangeCodeForToken_200 Do cl code body Hcode Hdo).
  unfold Unmarshal. rewrite Hparse.
  rewrite (store_members_unknown ms zero None Hnames). reflexivity.
Qed.

(** Member names are matched under the folding of the decoder: written
    with the long s and the Kelvin sign they still fill the fields. *)
Example Unmarshal_folds_long_s_and_Kelvin_sign :
  Unmarshal (list_byte_of_string folded_names_body) zero
  = inl {| AccessToken := "x"; TokenType := "Bearer"; ExpiresIn := 0;
           RefreshToken := ""; IDToken := ""; Scope := "" |}.
Proof. vm_compute. reflexivity. Qed.

(** A text nested 10000 deep is read, one nested deeper is refused. *)
Example parse_nesting_limit :
  (match JSON.parse (list_byte_of_string (nested_arrays (N.to_nat 10000))) with
   | Some _ => true
   | None => false
   end = true) /\
  JSON.parse (list_byte_of_string (nested_arrays (N.to_nat 10001))) = None.
Proof. split; vm_compute; reflexivity. Qed.

End OAuth.

(** ** callback.go and oauth.go: the state parameter *)

Section State.

Import Chan Server.

(** X22. The handler reads three parameters of the query and no other:
    two requests that agree on code, error and error_description leave
    the server in the same state, whatever else they carry.  The state
    parameter in particular is not looked at; comparing it is left to the
    caller of VerifyState. *)
Theorem handleCallback_reads_three_parameters (r r' : Request)
  (s : CallbackServer)
  (Hcode : Get (Query r) "code" = Get (Query r') "code")
  (Herror : Get (Query r) "error" = Get (Query r') "error")
  (Hdesc : Get (Query r) "error_description"
           = Get (Query r') "error_description") :
  handleCallback r s = handleCallback r' s /\
  forall evs, run (Inbound r :: evs) s = run (Inbound r' :: evs) s.
Proof.
  assert (handleCallback r s = handleCallback r' s) as H.
  { unfold handleCallback. rewrite Hcode, Herror, Hdesc. reflexivity. }
  split; [exact H |].
  intros evs. unfold run. cbn [fold_left step]. rewrite H. reflexivity.
Qed.

End State.

(** ** utils.go: GetEnvBool *)

Section GetEnvBool.

Import Strings Utils.

Lemma lower_upper (c : ascii) : lower (upper c) = lower c.
Proof.
  enough (forall c, Ascii.eqb (lower (upper c)) (lower c) = true) as H.
  { apply Ascii.eqb_eq, H. }
  apply all_bytes. vm_compute. reflexivity.
Qed.

Lemma ToLower_ToUpper (s : string) : ToLower (ToUpper s) = ToLower s.
Proof.
  induction s as [| c s IH]; [reflexivity |].
  cbn [ToUpper ToLower]. rewrite lower_upper, IH. reflexivity.
Qed.

Lemma ToLower_length (s : string) :
  String.length (ToLower s) = String.length s.
Proof.
  induction s as [| c s IH]; [reflexivity |].
  cbn [ToLower String.length]. rewrite IH. reflexivity.
Qed.

Lemma Getenv_insert (env : gmap string string) (key value : string) :
  Getenv (<[key := value]> env) key = value.
Proof. unfold Getenv. rewrite lookup_insert_eq. reflexivity. Qed.

(** X23. Once the variable holds a value of ASCII characters that is not
    empty (where the model of ToLower and ToUpper is that of Go) the default
    plays no part, and neither does the case of the letters: the value
    with its letters capitalised gives the same answer under the opposite
    default.  A value of more than four bytes is never true. *)
Theorem GetEnvBool_set (env : gmap string string) (key value : string)
  (defaultValue : bool)
  (Hascii : string_forall is_ascii value = true)
  (Hset : value <> "") :
  GetEnvBool (<[key := ToUpper value]> env) key (negb defaultValue)
  = GetEnvBool (<[key := value]> env) key defaultValue /\
  (4 < String.length value ->
   GetEnvBool (<[key := value]> env) key defaultValue = false).
Proof.
  unfold GetEnvBool. rewrite !Getenv_insert, ToLower_ToUpper.
  assert (String.eqb value "" = false) as Hv by (now apply String.eqb_neq).
  assert (String.eqb (ToUpper value) "" = false) as Hu.
  { destruct value; [contradiction | reflexivity]. }
  rewrite Hv, Hu. split; [reflexivity |].
  intros Hlen. rewrite <- ToLower_length in Hlen.
  destruct (ToLower value) as [| c0 [| c1 [| c2 [| c3 [| c4 rest]]]]];
    cbn [String.length] in Hlen; try lia.
  rewrite !orb_false_iff. repeat split; apply String.eqb_neq; discriminate.
Qed.

End GetEnvBool.

(** * Instances of the further properties *)

Section MoreInstances.

Import Chan Server.

(** X1 on the example token with the header hdr and the signature sig. *)
Lemma ParseIDToken_keeps_raw_parts_witness :
  let idToken := "hdr" +:+ "." +:+ example_segment +:+ "." +:+ "sig" in
  let c := example_claims "hdr" "sig" in
  Token.ParseIDToken idToken = inl c /\
  idToken = Token.rawHeader c +:+ "." +:+ Token.rawPayload c +:+ "."
            +:+ Token.rawSignature c /\
  count_byte "." (Token.rawHeader c) = 0 /\
  count_byte "." (Token.rawPayload c) = 0 /\
  count_byte "." (Token.rawSignature c) = 0.
Proof.
  cbv zeta.
  assert (Token.ParseIDToken
            ("hdr" +:+ "." +:+ example_segment +:+ "." +:+ "sig")
          = inl (example_claims "hdr" "sig")) as Hparse
    by (vm_compute; reflexivity).
  split; [exact Hparse | exact (ParseIDToken_keeps_raw_parts _ _ Hparse)].
Defined.

(** X2 on the example payload under two headers and two signatures. *)
Lemma ParseIDToken_ignores_header_and_signature_witness :
  match Token.ParseIDToken ("hdr" +:+ "." +:+ example_segment +:+ "." +:+ "sig"),
        Token.ParseIDToken ("other" +:+ "." +:+ example_segment
                              +:+ "." +:+ "forged") with
  | inl c, inl c' =>
      (Token.Issuer c, Token.Subject c, Token.Audience c, Token.Expiration c,
       Token.IssuedAt c)
      = (Token.Issuer c', Token.Subject c', Token.Audience c',
         Token.Expiration c', Token.IssuedAt c') /\
      (Token.Name c, Token.Email c, Token.EmailVerified c, Token.Picture c,
       Token.GivenName c, Token.FamilyName c, Token.Locale c)
      = (Token.Name c', Token.Email c', Token.EmailVerified c',
         Token.Picture c', Token.GivenName c', Token.FamilyName c',
         Token.Locale c') /\
      Token.rawPayload c = Token.rawPayload c' /\
      forall expectedAudience now,
        Token.ValidateIDToken c expectedAudience now
        = Token.ValidateIDToken c' expectedAudience now
  | inr e, inr e' => e = e'
  | _, _ => False
  end.
Proof.
  exact (ParseIDToken_ignores_header_and_signature
                "hdr" "other" example_segment "sig" "forged"
                eq_refl eq_refl example_segment_no_dot eq_refl eq_refl).
Defined.

(** X4 with two sources that both deliver the byte 0xfb. *)
Lemma GenerateCodeVerifier_injective_witness :
  let read1 : PKCE.Reader := fun b => (map (fun _ => xfb) b, None) in
  let read2 : PKCE.Reader := fun b => (repeat xfb (length b), None) in
  let v := RawURLEncode (repeat xfb 32) in
  PKCE.GenerateCodeVerifier read1 = inl v /\
  PKCE.GenerateCodeVerifier read2 = inl v /\
  fst (read1 (repeat x00 32)) = fst (read2 (repeat x00 32)).
Proof.
  cbv zeta.
  assert (PKCE.GenerateCodeVerifier (fun b => (map (fun _ => xfb) b, None))
          = inl (RawURLEncode (repeat xfb 32))) as H1
    by (vm_compute; reflexivity).
  assert (PKCE.GenerateCodeVerifier (fun b => (repeat xfb (length b), None))
          = inl (RawURLEncode (repeat xfb 32))) as H2
    by (vm_compute; reflexivity).
  split; [exact H1 |]. split; [exact H2 |].
  refine (GenerateCodeVerifier_injective
            (fun b => (map (fun _ => xfb) b, None))
            (fun b => (repeat xfb (length b), None))
            (RawURLEncode (repeat xfb 32)) _ _ H1 H2).
  - intros b. cbn [fst]. apply length_map.
  - intros b. cbn [fst]. apply repeat_length.
Defined.

(** X5 with a source that delivers the byte 0xfb. *)
Lemma verifier_and_challenge_decode_witness :
  let rand_Read : PKCE.Reader := fun b => (map (fun _ => xfb) b, None) in
  let v := RawURLEncode (repeat xfb 32) in
  PKCE.GenerateCodeVerifier rand_Read = inl v /\
  Token.base64URLDecode v = inl (fst (rand_Read (repeat x00 32))) /\
  Token.base64URLDecode (PKCE.CreateCodeChallenge v) = inl (sha256 v).
Proof.
  cbv zeta.
  assert (PKCE.GenerateCodeVerifier (fun b => (map (fun _ => xfb) b, None))
          = inl (RawURLEncode (repeat xfb 32))) as Hgen
    by (vm_compute; reflexivity).
  split; [exact Hgen |].
  exact (verifier_and_challenge_decode
           (fun b => (map (fun _ => xfb) b, None))
           (RawURLEncode (repeat xfb 32)) Hgen).
Defined.

(** X7 after one redirect with the code abc. *)
Lemma WaitForCode_code_or_error_witness :
  let evs := [Inbound (request [("code", "abc")])] in
  let s := run evs (fst (Start None (NewCallbackServer 8080 "/oauth/callback"))) in
  exists s',
    WaitForCode None 0 s = Some (("abc", None), s') /\
    ((@None string = None /\ "abc" <> "") \/
     ("abc" = "" /\ @None string <> None)).
Proof.
  cbv zeta.
  destruct (WaitForCode None 0
              (run [Inbound (request [("code", "abc")])]
                 (fst (Start None (NewCallbackServer 8080 "/oauth/callback")))))
    as [[[code err] s'] |] eqn:Hwait; [| vm_compute in Hwait; discriminate].
  assert (code = "abc" /\ err = None) as [-> ->].
  { vm_compute in Hwait. injection Hwait as <- <- _. split; reflexivity. }
  exists s'. split; [reflexivity |].
  exact (WaitForCode_code_or_error 8080 "/oauth/callback" None
           [Inbound (request [("code", "abc")])] None 0 "abc" None s' Hwait).
Defined.

(** X9 on a redirect with the code abc. *)
Lemma code_reaches_the_caller_witness :
  let r := request [("code", "abc")] in
  Get (Query r) "code" <> "" /\
  Get (Query r) "error" = "" /\
  let code := Get (Query r) "code" in
  let s1 := fst (Start None (NewCallbackServer 8080 "/oauth/callback")) in
  let s2 := handleCallback r s1 in
  exists s3 s4,
    WaitForCode None 0 s2 = Some ((code, None), s3) /\
    responses s3 = [success_page code] /\
    buffered s3 + parked_senders s3 = 0 /\
    Stop s3 = Returns s4 /\ Stop s4 = Returns s4.
Proof.
  assert (Get (Query (request [("code", "abc")])) "code" <> "") as Hcode
    by (vm_compute; discriminate).
  assert (Get (Query (request [("code", "abc")])) "error" = "") as Herror
    by (vm_compute; reflexivity).
  split; [exact Hcode |]. split; [exact Herror |].
  exact (code_reaches_the_caller 8080 "/oauth/callback"
           (request [("code", "abc")]) 0 Hcode Herror).
Defined.

(** X12 on a string of thirteen bytes cut to eight. *)
Lemma TruncateString_fits_witness :
  (3 <= 8)%Z /\
  exists t,
    Utils.TruncateString "authorization" 8 = Some t /\
    (Z.of_nat (String.length t) <= 8)%Z /\
    ((Z.of_nat (String.length "authorization") <= 8)%Z -> t = "authorization") /\
    ((Z.of_nat (String.length "authorization") > 8)%Z ->
       t = String.substring 0 (Z.to_nat (8 - 3)) "authorization" +:+ "..." /\
       Z.of_nat (String.length t) = 8%Z) /\
    Utils.TruncateString t 8 = Some t.
Proof.
  assert (3 <= 8)%Z as Hmax by lia.
  split; [exact Hmax |].
  exact (TruncateString_fits "authorization" 8 Hmax).
Defined.

(** X16 on a warning of two lines written to a logger at the level
    Info. *)
Lemma log_keeps_and_indents_lines_witness :
  let l := Logger.New Logger.InfoLevel in
  let timestamp := "2024-01-01 00:00:00.000" in
  let message := String "a" (String "010" "b") in
  (Logger.level l <= Logger.WarnLevel)%Z /\
  count_byte "010" timestamp = 0 /\
  exists prefix first rest record,
    Strings.Split message "010" = first :: rest /\
    Logger.formatMessage timestamp Logger.WarnLevel "" = prefix /\
    Logger.writer (Logger.log timestamp Logger.WarnLevel message l)
    = (Logger.writer l ++ [record])%list /\
    Strings.Split record "010"
    = ((prefix +:+ first)
         :: map (fun line => Logger.indent +:+ line) rest ++ [""])%list.
Proof.
  cbv zeta.
  assert (Logger.level (Logger.New Logger.InfoLevel) <= Logger.WarnLevel)%Z
    as Hlevel by (vm_compute; discriminate).
  assert (count_byte "010" "2024-01-01 00:00:00.000" = 0) as Htime
    by reflexivity.
  split; [exact Hlevel |]. split; [exact Htime |].
  exact (log_keeps_and_indents_lines (Logger.New Logger.InfoLevel)
           "2024-01-01 00:00:00.000" Logger.WarnLevel
           (String "a" (String "010" "b")) Hlevel Htime).
Defined.

(** X18 with sources that deliver the byte 0xfb. *)
Lemma NewOAuth2Client_fresh_witness :
  let read : PKCE.Reader := fun b => (map (fun _ => xfb) b, None) in
  let cfg :=
    {| OAuth.ClientID := "client1"; OAuth.ClientSecret := "secret";
       OAuth.RedirectURI := "http://localhost:8080/oauth/callback";
       OAuth.Scopes := ["openid"; "email"]; OAuth.Audience := "" |} in
  let cl :=
    {| OAuth.config := cfg;
       OAuth.verifier := RawURLEncode (repeat xfb 32);
       OAuth.challenge :=
         PKCE.CreateCodeChallenge (RawURLEncode (repeat xfb 32));
       OAuth.state := Base64.URLEncodeToString (repeat xfb 16) |} in
  OAuth.NewOAuth2Client read read cfg = inl cl /\
  String.length (OAuth.verifier cl) = 43 /\
  PKCE.VerifyCodeChallenge (OAuth.verifier cl) (OAuth.challenge cl) = true /\
  (forall s, OAuth.VerifyState cl s = true <-> s = OAuth.state cl).
Proof.
  cbv zeta.
  match goal with
  | |- ?new = inl ?cl /\ _ =>
      assert (new = inl cl) as Hnew by (vm_compute; reflexivity);
      split; [exact Hnew |];
      destruct (NewOAuth2Client_fresh
                  (fun b => (map (fun _ => xfb) b, None))
                  (fun b => (map (fun _ => xfb) b, None))
                  _ cl
                  (fun b => length_map (fun _ => xfb) b)
                  (fun b => length_map (fun _ => xfb) b)
                  Hnew)
        as (_ & _ & H43 & _ & Hverify & _ & Hstate)
  end.
  split; [exact H43 |]. split; [exact Hverify | exact Hstate].
Defined.

(** X21 on an answer 200 that carries an error object. *)
Lemma ExchangeCodeForToken_accepts_object_without_token_witness :
  let body :=
    list_byte_of_string
      (Strings.ReplaceAll "{'error':'invalid_grant'}" "'"
         (String JSON.dquote EmptyString)) in
  let Do : OAuth.HTTPRequest -> OAuth.HTTPResult :=
    fun _ => OAuth.Responds 200 (inl body) in
  let cl :=
    {| OAuth.config :=
         {| OAuth.ClientID := "client1"; OAuth.ClientSecret := "secret";
            OAuth.RedirectURI := "http://localhost:8080/oauth/callback";
            OAuth.Scopes := ["openid"]; OAuth.Audience := "" |};
       OAuth.verifier := "verifier"; OAuth.challenge := "challenge";
       OAuth.state := "state" |} in
  JSON.parse body = Some (JSON.Object [("error", JSON.Str "invalid_grant")]) /\
  fst (OAuth.ExchangeCodeForToken Do cl "abc") = inl OAuth.zero.
Proof.
  cbv zeta.
  match goal with
  | |- ?parse = Some (JSON.Object ?ms) /\
       fst (OAuth.ExchangeCodeForToken ?Do ?cl ?code) = _ =>
      assert (parse = Some (JSON.Object ms)) as Hparse
        by (vm_compute; reflexivity);
      split; [exact Hparse |];
      refine (ExchangeCodeForToken_accepts_object_without_token
                Do cl code _ ms _ eq_refl Hparse _)
  end.
  - discriminate.
  - constructor; [vm_compute; reflexivity | constructor].
Defined.

(** X22 on a redirect and the same redirect with a state that nobody
    issued. *)
Lemma handleCallback_reads_three_parameters_witness :
  let r := request [("code", "abc")] in
  let r' := request [("code", "abc"); ("state", "forged")] in
  let s := fst (Start None (NewCallbackServer 8080 "/oauth/callback")) in
  Get (Query r') "state" = "forged" /\
  handleCallback r s = handleCallback r' s.
Proof.
  cbv zeta. split; [reflexivity |].
  exact (proj1 (handleCallback_reads_three_parameters
                  (request [("code", "abc")])
                  (request [("code", "abc"); ("state", "forged")])
                  (fst (Start None (NewCallbackServer 8080 "/oauth/callback")))
                  eq_refl eq_refl eq_refl)).
Defined.

(** X23 on DEBUG=yes. *)
Lemma GetEnvBool_set_witness :
  Utils.GetEnvBool (<["DEBUG" := "YES"]> ∅) "DEBUG" true
  = Utils.GetEnvBool (<["DEBUG" := "yes"]> ∅) "DEBUG" false.
Proof.
  refine (proj1 (GetEnvBool_set ∅ "DEBUG" "yes" false eq_refl _)).
  discriminate.
Defined.

End MoreInstances.
